(** * Schema interpretation engine of the dynamic form generator

    A shallow embedding of the three engine components of the repository
    (the condition evaluator, the validator compiler with the submit-time
    validation pass, the reactive visibility tracker) and of the step
    orchestrator of the multi-step form, followed by the properties that
    the specification states about them.

    Conventions of the embedding.
    - JavaScript values are the inductive [Value]; numbers are integers
      ([Z]), strings are ASCII strings.  Arrays are compared by reference in
      JavaScript; an array is never [===] to a value that is not the very
      same object, and [strict_eq] answers [false] on arrays.
    - A JavaScript object used as a dictionary is a [gmap string _];
      reading a missing key gives [undefined].  Where the component tests
      an entry of its visibility map for truthiness, the members that
      every object inherits ([constructor], [toString], ...) count as
      well: see [truthyEntry].
    - Console output and calls to host-supplied validators are effects:
      they are recorded, in program order, in a list of [Event]s. *)

From Stdlib Require Import ZArith Bool Ascii String List.
From stdpp Require Import base option list gmap strings pretty.
Import ListNotations.
Set Warnings "-register-all".
Local Open Scope string_scope.
Local Open Scope Z_scope.

(** ** JavaScript values *)

Module JS.

Inductive Value : Type :=
| VUndefined
| VNull
| VStr (s : string)
| VNum (n : Z)
| VBool (b : bool)
| VArr (xs : list Value).

(** The values a condition literal may take:
    [string | number | boolean]. *)
Inductive Scalar : Type :=
| SStr (s : string)
| SNum (n : Z)
| SBool (b : bool).

Definition ofScalar (s : Scalar) : Value :=
  match s with
  | SStr s => VStr s
  | SNum n => VNum n
  | SBool b => VBool b
  end.

(** An optional property read: [undefined] when absent. *)
Definition optValue (o : option Scalar) : Value :=
  match o with
  | Some s => ofScalar s
  | None => VUndefined
  end.

(** [a === b]. *)
Definition strict_eq (a b : Value) : bool :=
  match a, b with
  | VUndefined, VUndefined => true
  | VNull, VNull => true
  | VStr s, VStr t => String.eqb s t
  | VNum n, VNum m => Z.eqb n m
  | VBool x, VBool y => Bool.eqb x y
  | _, _ => false
  end.

(** [!!v]. *)
Definition truthy (v : Value) : bool :=
  match v with
  | VUndefined | VNull => false
  | VStr s => negb (String.eqb s "")
  | VNum n => negb (Z.eqb n 0)
  | VBool b => b
  | VArr _ => true
  end.

(** [String(v)]; an array is its elements joined by commas, [null] and
    [undefined] elements left empty. *)
Fixpoint toString (v : Value) : string :=
  match v with
  | VUndefined => "undefined"
  | VNull => "null"
  | VStr s => s
  | VNum n => pretty n
  | VBool true => "true"
  | VBool false => "false"
  | VArr xs =>
    String.concat ","
      (List.map (fun x => match x with
                          | VUndefined | VNull => ""
                          | _ => toString x
                          end) xs)
  end.

(** [s.includes(sub)]. *)
Fixpoint includes (s sub : string) : bool :=
  if String.prefix sub s then true
  else match s with
       | EmptyString => false
       | String _ rest => includes rest sub
       end.

(** [arr.includes(v)]. *)
Definition arrayIncludes (xs : list Value) (v : Value) : bool :=
  existsb (fun x => strict_eq x v) xs.

(** [s.endsWith(suffix)]. *)
Fixpoint endsWith (s suffix : string) : bool :=
  if String.eqb s suffix then true
  else match s with
       | EmptyString => false
       | String _ rest => endsWith rest suffix
       end.

Definition lowerChar (c : ascii) : ascii :=
  let n := nat_of_ascii c in
  if (Nat.leb 65 n && Nat.leb n 90)%bool then ascii_of_nat (n + 32) else c.

(** [s.toLowerCase()]. *)
Fixpoint toLowerCase (s : string) : string :=
  match s with
  | EmptyString => EmptyString
  | String c rest => String (lowerChar c) (toLowerCase rest)
  end.

Definition isWhiteSpace (c : ascii) : bool :=
  let n := nat_of_ascii c in
  (Nat.leb 9 n && Nat.leb n 13)%bool || Nat.eqb n 32.

Fixpoint trimStart (s : string) : string :=
  match s with
  | String c rest => if isWhiteSpace c then trimStart rest else s
  | EmptyString => EmptyString
  end.

Fixpoint trimEnd (s : string) : string :=
  match s with
  | String c rest =>
    let rest' := trimEnd rest in
    if (isWhiteSpace c && String.eqb rest' "")%bool then EmptyString
    else String c rest'
  | EmptyString => EmptyString
  end.

(** [s.trim()]. *)
Definition trim (s : string) : string := trimEnd (trimStart s).

(** The text after the first occurrence of [sep], when there is one. *)
Fixpoint afterFirst (sep : ascii) (s : string) : option string :=
  match s with
  | EmptyString => None
  | String c rest => if Ascii.eqb c sep then Some rest else afterFirst sep rest
  end.

(** The text before the first occurrence of [sep]. *)
Fixpoint beforeFirst (sep : ascii) (s : string) : string :=
  match s with
  | EmptyString => EmptyString
  | String c rest => if Ascii.eqb c sep then EmptyString else String c (beforeFirst sep rest)
  end.

(** [s.split(sep)[1]] for a one-character separator. *)
Definition splitSecond (sep : ascii) (s : string) : option string :=
  match afterFirst sep s with
  | Some rest => Some (beforeFirst sep rest)
  | None => None
  end.

(** [obj[key]] on a dictionary of values. *)
Definition get (obj : gmap string Value) (key : string) : Value :=
  default VUndefined (obj !! key).

End JS.
Import JS.

(** ** The schema document *)

(** [ConditionalLogic]: one interface for leaves and composites, every
    property but [field] optional. *)
Inductive ConditionalLogic : Type :=
| mkConditionalLogic
    (field : string)
    (operator : option string)
    (value : option Scalar)
    (equals : option Scalar)
    (conditions : option (list ConditionalLogic))
    (logicalOperator : option string).

Definition cond_conditions (c : ConditionalLogic) : option (list ConditionalLogic) :=
  match c with mkConditionalLogic _ _ _ _ cs _ => cs end.
Definition cond_logicalOperator (c : ConditionalLogic) : option string :=
  match c with mkConditionalLogic _ _ _ _ _ lo => lo end.

(** ** Condition evaluator *)

(** [evaluateCondition]: nested conditions first, then the [equals]
    alias, then the operator switch with its equality default. *)
Fixpoint evaluateCondition (condition : ConditionalLogic)
    (formValues : gmap string Value) : bool :=
  match condition with
  | mkConditionalLogic field operator value equals conditions logicalOperator =>
    let fieldValue := get formValues field in
    match conditions with
    | Some ((_ :: _) as cs) =>
      let results := List.map (fun c => evaluateCondition c formValues) cs in
      match logicalOperator with
      | Some "or" => existsb (fun result => result) results
      | _ => forallb (fun result => result) results
      end
    | _ =>
      match equals with
      | Some e => strict_eq fieldValue (ofScalar e)
      | None =>
        let cv := optValue value in
        match operator with
        | Some "equals" => strict_eq fieldValue cv
        | Some "notEquals" => negb (strict_eq fieldValue cv)
        | Some "greaterThan" =>
          match fieldValue, cv with
          | VNum a, VNum b => Z.ltb b a
          | _, _ => false
          end
        | Some "lessThan" =>
          match fieldValue, cv with
          | VNum a, VNum b => Z.ltb a b
          | _, _ => false
          end
        | Some "contains" =>
          match fieldValue with
          | VArr xs => arrayIncludes xs cv
          | VStr s => includes s (toString cv)
          | _ => false
          end
        | Some "notContains" =>
          match fieldValue with
          | VArr xs => negb (arrayIncludes xs cv)
          | VStr s => negb (includes s (toString cv))
          | _ => false
          end
        | Some "isEmpty" =>
          match fieldValue with
          | VUndefined | VNull => true
          | VStr s => String.eqb s ""
          | VArr xs => Nat.eqb (length xs) 0
          | _ => false
          end
        | Some "isNotEmpty" =>
          match fieldValue with
          | VUndefined | VNull => false
          | VStr s => negb (String.eqb s "")
          | VArr xs => Nat.ltb 0 (length xs)
          | _ => true
          end
        | _ => strict_eq fieldValue cv
        end
      end
    end
  end.

(** ** Fields, validation rules, schemas *)

Record CustomValidatorRef : Type := mkCustomValidatorRef {
  cv_fields : list string;
  validator : string
}.

Record AsyncValidatorRef : Type := mkAsyncValidatorRef {
  av_name : string;
  params : option (list string)
}.

(** [ValidationRules]; [dependsOn] and [async] are declared by the
    interface and read nowhere in the engine. *)
Record ValidationRules : Type := mkValidationRules {
  required : option bool;
  min : option Z;
  max : option Z;
  minLength : option Z;
  maxLength : option Z;
  pattern : option string;
  errorMessage : option string;
  customValidator : option CustomValidatorRef;
  asyncValidator : option AsyncValidatorRef
}.

(** [FormField], without the display metadata.  [type] is the tag as it
    arrives in the document: the compiler has a [default] branch for tags
    outside [FieldType]. *)
Record FormField : Type := mkFormField {
  name : string;
  type : string;
  validation : option ValidationRules;
  conditional : option ConditionalLogic
}.

Record FormSection : Type := mkFormSection {
  title : string;
  section_fields : list FormField
}.

Record FormSchema : Type := mkFormSchema {
  formTitle : string;
  formDescription : string;
  fields : option (list FormField);
  sections : option (list FormSection)
}.

(** [getAllFields]: the flat list when present (an array is truthy even
    when empty), else the sections flattened, else nothing. *)
Definition getAllFields (schema : FormSchema) : list FormField :=
  match fields schema with
  | Some fs => fs
  | None =>
    match sections schema with
    | Some ss => flat_map section_fields ss
    | None => []
    end
  end.

(** ** Effects *)

(** What validation does besides computing a result, in program order. *)
Inductive Event : Type :=
| AsyncValidatorCalled (name : string) (args : list Value)
| CustomValidatorCalled (validator : string) (data : gmap string Value)
    (fields : list string)
| ConsoleWarn (msg : string)
| ConsoleError (msg : string).

(** A computation that logs events: the writer monad over [list Event]. *)
Definition Eff (A : Type) : Type := (list Event * A)%type.

Definition ret {A} (a : A) : Eff A := ([], a).
Definition bind {A B} (m : Eff A) (k : A -> Eff B) : Eff B :=
  let '(e1, a) := m in
  let '(e2, b) := k a in
  ((e1 ++ e2)%list, b).
Definition emit (e : Event) : Eff unit := ([e], tt).
Definition trace {A} (m : Eff A) : list Event := fst m.
Definition result {A} (m : Eff A) : A := snd m.

Notation "'let*' x := m 'in' k" := (bind m (fun x => k))
  (at level 10, x name, m at level 100, k at level 200).

(** ** The validation library's schema objects

    The compiler builds its ruleset out of the validation library's
    combinators.  The ruleset is kept as a term ([ZodType]) and the
    library's asynchronous parse is the interpreter [parse]: a type
    mismatch aborts the node, a failed check or refinement only marks it
    dirty, and a refinement is skipped on an aborted inner result. *)

Inductive PathSeg : Type :=
| Key (k : string)
| Index (i : nat).

Inductive IssueCode : Type :=
| invalid_type
| too_small
| too_big
| invalid_string
| custom.

Record Issue : Type := mkIssue {
  code : IssueCode;
  path : list PathSeg;
  message : string
}.

Inductive Status : Type := Valid | Dirty | Aborted.

Record Parsed : Type := mkParsed {
  status : Status;
  issues : list Issue
}.

Inductive StringCheck : Type :=
| CheckMinLength (n : Z) (msg : string)
| CheckMaxLength (n : Z) (msg : string)
| CheckRegex (pattern : string) (msg : string).

Inductive NumberCheck : Type :=
| CheckMin (n : Z) (msg : string)
| CheckMax (n : Z) (msg : string).

Inductive ZodType : Type :=
| ZString (checks : list StringCheck)
| ZNumber (checks : list NumberCheck)
| ZBoolean
| ZAny
| ZArray (element : ZodType)
| ZOptional (inner : ZodType)
| ZRefine (inner : ZodType) (check : Value -> Eff bool) (msg : string).

(** The refinement put on the whole object: its [message] and the single
    [path] that the library appends to the object's own path. *)
Record ObjectRefinement : Type := mkObjectRefinement {
  refine_check : gmap string Value -> Eff bool;
  refine_message : string;
  refine_path : list string
}.

(** [z.object(shape)], possibly refined.  The shape is a JavaScript
    object: keys keep their insertion order (names that are canonical
    array indices, which JavaScript lists first, are left out of the
    model: the order only decides in which order the fields report). *)
Record ObjectSchema : Type := mkObjectSchema {
  shape : list (string * ZodType);
  refinement : option ObjectRefinement
}.

(** [shape[key] = t] on an insertion-ordered object. *)
Fixpoint objSet {A} (obj : list (string * A)) (key : string) (t : A)
    : list (string * A) :=
  match obj with
  | [] => [(key, t)]
  | (k, t0) :: rest =>
    if String.eqb k key then (k, t) :: rest else (k, t0) :: objSet rest key t
  end.

Definition typeName (v : Value) : string :=
  match v with
  | VUndefined => "undefined"
  | VNull => "null"
  | VStr _ => "string"
  | VNum _ => "number"
  | VBool _ => "boolean"
  | VArr _ => "array"
  end.

(** The library's default message of a type mismatch. *)
Definition invalidType (expected : string) (p : list PathSeg) (v : Value) : Parsed :=
  let msg := match v with
             | VUndefined => "Required"
             | _ => "Expected " +:+ expected +:+ ", received " +:+ typeName v
             end in
  mkParsed Aborted [mkIssue invalid_type p msg].

Definition ofIssues (found : list Issue) : Parsed :=
  mkParsed (match found with [] => Valid | _ => Dirty end) found.

(** Merging the results of the parts of an array or of an object: one
    aborted part aborts the whole, one dirty part makes it dirty. *)
Definition mergeStatus (a b : Status) : Status :=
  match a, b with
  | Aborted, _ | _, Aborted => Aborted
  | Dirty, _ | _, Dirty => Dirty
  | Valid, Valid => Valid
  end.

Definition mergeParsed (a b : Parsed) : Parsed :=
  mkParsed (mergeStatus (status a) (status b)) (issues a ++ issues b)%list.

Section Parse.

(** [new RegExp(pattern).test(s)]: the host's regular-expression
    engine. *)
Variable regexTest : string -> string -> bool.

Definition stringCheck (p : list PathSeg) (s : string) (c : StringCheck)
    : list Issue :=
  match c with
  | CheckMinLength n msg =>
    if Z.ltb (Z.of_nat (String.length s)) n then [mkIssue too_small p msg] else []
  | CheckMaxLength n msg =>
    if Z.ltb n (Z.of_nat (String.length s)) then [mkIssue too_big p msg] else []
  | CheckRegex pat msg =>
    if regexTest pat s then [] else [mkIssue invalid_string p msg]
  end.

Definition numberCheck (p : list PathSeg) (x : Z) (c : NumberCheck)
    : list Issue :=
  match c with
  | CheckMin n msg => if Z.ltb x n then [mkIssue too_small p msg] else []
  | CheckMax n msg => if Z.ltb n x then [mkIssue too_big p msg] else []
  end.

(** The elements of an array, each under its index. *)
Fixpoint parseElements (parseElement : list PathSeg -> Value -> Eff Parsed)
    (p : list PathSeg) (i : nat) (xs : list Value) : Eff Parsed :=
  match xs with
  | [] => ret (mkParsed Valid [])
  | x :: rest =>
    let* r := parseElement (p ++ [Index i])%list x in
    let* rs := parseElements parseElement p (S i) rest in
    ret (mergeParsed r rs)
  end.

Fixpoint parse (t : ZodType) (p : list PathSeg) (v : Value) : Eff Parsed :=
  match t with
  | ZString checks =>
    match v with
    | VStr s => ret (ofIssues (flat_map (stringCheck p s) checks))
    | _ => ret (invalidType "string" p v)
    end
  | ZNumber checks =>
    match v with
    | VNum x => ret (ofIssues (flat_map (numberCheck p x) checks))
    | _ => ret (invalidType "number" p v)
    end
  | ZBoolean =>
    match v with
    | VBool _ => ret (mkParsed Valid [])
    | _ => ret (invalidType "boolean" p v)
    end
  | ZAny => ret (mkParsed Valid [])
  | ZArray element =>
    match v with
    | VArr xs => parseElements (parse element) p 0%nat xs
    | _ => ret (invalidType "array" p v)
    end
  | ZOptional inner =>
    match v with
    | VUndefined => ret (mkParsed Valid [])
    | _ => parse inner p v
    end
  | ZRefine inner check msg =>
    let* r := parse inner p v in
    match status r with
    | Aborted => ret r
    | _ =>
      let* ok := check v in
      if ok then ret r
      else ret (mkParsed Dirty (issues r ++ [mkIssue custom p msg])%list)
    end
  end.

(** The properties of the object, in the order of the shape's keys.  (The
    library starts the parses of all the properties before it awaits any
    of them, so the asynchronous validators of different fields overlap
    in time; the trace lists them field by field.  What is proved about
    order below is only that all of them come before the refinement of
    the object.) *)
Fixpoint parseShape (sh : list (string * ZodType)) (data : gmap string Value)
    : Eff Parsed :=
  match sh with
  | [] => ret (mkParsed Valid [])
  | (k, t) :: rest =>
    let* r := parse t [Key k] (get data k) in
    let* rs := parseShape rest data in
    ret (mergeParsed r rs)
  end.

(** The object handed to a refinement on the object: the keys of the
    shape only, the others stripped. *)
Definition stripped (sh : list (string * ZodType)) (data : gmap string Value)
    : gmap string Value :=
  filter (fun kv => kv.1 ∈ sh.*1) data.

(** [schema.parseAsync(data)] as the resolver runs it at submit time. *)
Definition parseObject (schema : ObjectSchema) (data : gmap string Value)
    : Eff Parsed :=
  let* r := parseShape (shape schema) data in
  match refinement schema, status r with
  | None, _ => ret r
  | Some _, Aborted => ret r
  | Some rf, _ =>
    let* ok := refine_check rf (stripped (shape schema) data) in
    if ok then ret r
    else ret (mkParsed Dirty
               (issues r ++ [mkIssue custom (List.map Key (refine_path rf))
                               (refine_message rf)])%list)
  end.

End Parse.

(** ** Validator registries *)

(** A synchronous cross-field validator: [(data, fields) => boolean]. *)
Definition SyncValidator : Type := gmap string Value -> list string -> bool.

(** An asynchronous validator, by what its promise settles to: [Some b]
    when it resolves to [b], [None] when it rejects. *)
Definition AsyncValidator : Type := list Value -> option bool.

(** [args[i]], [undefined] past the end. *)
Definition arg (args : list Value) (i : nat) : Value := nth i args VUndefined.

(** [passwordsMatch].  Two array values under distinct keys are distinct
    objects, and [strict_eq] says so. *)
Definition passwordsMatch : SyncValidator := fun data fields =>
  match fields with
  | [a; b] => strict_eq (get data a) (get data b)
  | _ => false
  end.

Section CustomValidators.

(** [new Date(v)] as its time value, [None] for an invalid date: the
    host's date parser. *)
Variable dateTime : Value -> option Z.

(** [dateRangeValid]: [startDate <= endDate] on two [Date]s. *)
Definition dateRangeValid : SyncValidator := fun data fields =>
  match fields with
  | [a; b] =>
    match dateTime (get data a), dateTime (get data b) with
    | Some startDate, Some endDate => Z.leb startDate endDate
    | _, _ => false
    end
  | _ => false
  end.

(** The registry object written in the component's body. *)
Definition customValidators : gmap string SyncValidator :=
  <[ "passwordsMatch" := passwordsMatch ]>
    (<[ "dateRangeValid" := dateRangeValid ]> ∅).

End CustomValidators.

(** ** The asynchronous validators of [lib/async-validators.ts]

    Each waits half a second before it answers; the delay is not part of
    the model, what the promise settles to is.  A call that throws inside
    an [async] function is a rejected promise. *)

Module Regex.

(** The anchored regular expressions of the postal-code formats, matched
    by derivatives. *)
Inductive t : Type :=
| Never
| Eps
| Class (p : ascii -> bool)
| Seq (r1 r2 : t)
| Alt (r1 r2 : t).

Fixpoint nullable (r : t) : bool :=
  match r with
  | Never => false
  | Eps => true
  | Class _ => false
  | Seq r1 r2 => nullable r1 && nullable r2
  | Alt r1 r2 => nullable r1 || nullable r2
  end.

Fixpoint deriv (c : ascii) (r : t) : t :=
  match r with
  | Never | Eps => Never
  | Class p => if p c then Eps else Never
  | Seq r1 r2 =>
    if nullable r1 then Alt (Seq (deriv c r1) r2) (deriv c r2)
    else Seq (deriv c r1) r2
  | Alt r1 r2 => Alt (deriv c r1) (deriv c r2)
  end.

(** [/^r$/.test(s)]. *)
Fixpoint test (r : t) (s : string) : bool :=
  match s with
  | EmptyString => nullable r
  | String c rest => test (deriv c r) rest
  end.

Definition opt (r : t) : t := Alt r Eps.

Fixpoint times (n : nat) (r : t) : t :=
  match n with
  | O => Eps
  | S n' => Seq r (times n' r)
  end.

Definition chr (c : ascii) : t := Class (Ascii.eqb c).

(** [\d] *)
Definition digit : t :=
  Class (fun c => let n := nat_of_ascii c in Nat.leb 48 n && Nat.leb n 57).

(** [[A-Za-z]] *)
Definition letter : t :=
  Class (fun c => let n := nat_of_ascii c in
                  (Nat.leb 65 n && Nat.leb n 90) || (Nat.leb 97 n && Nat.leb n 122)).

(** [[A-Za-z\d]] *)
Definition letterOrDigit : t := Alt letter digit.

(** [/^\d{5}(-\d{4})?$/] *)
Definition usZip : t := Seq (times 5 digit) (opt (Seq (chr "-") (times 4 digit))).

(** [/^[A-Za-z]\d[A-Za-z] \d[A-Za-z]\d$/] *)
Definition caPostalCode : t :=
  Seq letter (Seq digit (Seq letter (Seq (chr " ") (Seq digit (Seq letter digit))))).

(** [/^[A-Za-z]{1,2}\d[A-Za-z\d]? \d[A-Za-z]{2}$/] *)
Definition ukPostcode : t :=
  Seq letter (Seq (opt letter) (Seq digit (Seq (opt letterOrDigit)
    (Seq (chr " ") (Seq digit (times 2 letter)))))).

End Regex.

(** [isUsernameAvailable(username)] *)
Definition isUsernameAvailable : AsyncValidator := fun args =>
  let takenUsernames := ["admin"; "root"; "superuser"; "system"] in
  match arg args 0 with
  | VStr username =>
    Some (negb (existsb (fun name => includes (toLowerCase username) name)
                  takenUsernames))
  | _ => None
  end.

(** [isEmailDomainValid(email)] *)
Definition isEmailDomainValid : AsyncValidator := fun args =>
  let validDomains := [".com"; ".org"; ".net"; ".edu"; ".gov"] in
  let email := arg args 0 in
  if negb (truthy email) then Some false
  else match email with
       | VStr e =>
         match splitSecond "@" e with
         | Some domain =>
           Some (existsb (fun validDomain => endsWith domain validDomain) validDomains)
         | None => Some false
         end
       | VArr xs => if arrayIncludes xs (VStr "@") then None else Some false
       | _ => None
       end.

(** [isPostalCodeValid(postalCode, country)] *)
Definition isPostalCodeValid : AsyncValidator := fun args =>
  let postalCode := arg args 0 in
  let country := arg args 1 in
  if negb (truthy postalCode) then Some false
  else match country with
       | VStr c =>
         match toLowerCase c with
         | "us" => Some (Regex.test Regex.usZip (toString postalCode))
         | "ca" => Some (Regex.test Regex.caPostalCode (toString postalCode))
         | "uk" => Some (Regex.test Regex.ukPostcode (toString postalCode))
         | _ =>
           match postalCode with
           | VStr s => Some (Nat.ltb 0 (String.length (trim s)))
           | _ => None
           end
         end
       | _ => None
       end.

(** The exported registry. *)
Definition asyncValidators : gmap string AsyncValidator :=
  <[ "isUsernameAvailable" := isUsernameAvailable ]>
    (<[ "isEmailDomainValid" := isEmailDomainValid ]>
       (<[ "isPostalCodeValid" := isPostalCodeValid ]> ∅)).

(** ** The validator compiler *)

(** [a || b] on an optional string: the empty string is falsy too. *)
Definition orElse (a : option string) (b : string) : string :=
  match a with
  | Some s => if String.eqb s "" then b else s
  | None => b
  end.

(** [field.validation?.prop]. *)
Definition rule {A} (prop : ValidationRules -> option A) (field : FormField)
    : option A :=
  match validation field with
  | Some v => prop v
  | None => None
  end.

Definition isRequired (field : FormField) : bool :=
  match rule required field with
  | Some true => true
  | _ => false
  end.

(** A length bound is applied when it is truthy: present and not 0. *)
Definition truthyNumber (o : option Z) : option Z :=
  match o with
  | Some n => if Z.eqb n 0 then None else Some n
  | None => None
  end.

Definition truthyString (o : option string) : option string :=
  match o with
  | Some s => if String.eqb s "" then None else Some s
  | None => None
  end.

(** The three predicates of the [required] refinements. *)
Definition notEmptyString (val : Value) : bool :=
  negb (strict_eq val VUndefined) && negb (strict_eq val VNull)
  && negb (strict_eq val (VStr "")).

Definition notNullish (val : Value) : bool :=
  negb (strict_eq val VUndefined) && negb (strict_eq val VNull).

Definition nonEmptyArray (val : Value) : bool :=
  negb (strict_eq val VUndefined) && negb (strict_eq val VNull)
  && match val with VArr xs => Nat.ltb 0 (length xs) | _ => false end.

Definition pure (check : Value -> bool) : Value -> Eff bool :=
  fun val => ret (check val).

(** [base.optional()], refined by the [required] predicate when the field
    is required. *)
Definition optionalOrRequired (field : FormField) (base : ZodType)
    (check : Value -> bool) (defaultMessage : string) : ZodType :=
  if isRequired field
  then ZRefine (ZOptional base) (pure check)
         (orElse (rule errorMessage field) defaultMessage)
  else ZOptional base.

(** The refinement function attached to a string field that names a
    registered asynchronous validator. *)
Definition asyncRefinement (name : string) (params : list string)
    (asyncValidator : AsyncValidator) : Value -> Eff bool :=
  fun val =>
    if negb (truthy val) then ret true
    else
      let paramValues := List.map (fun paramField : string => VStr "") params in
      let* _ := emit (AsyncValidatorCalled name (val :: paramValues)) in
      match asyncValidator (val :: paramValues) with
      | Some ok => ret ok
      | None =>
        let* _ := emit (ConsoleError ("Error in async validator " +:+ name +:+ ":")) in
        ret false
      end.

Definition minLengthCheck (field : FormField) : list StringCheck :=
  match truthyNumber (rule minLength field) with
  | Some n =>
    [CheckMinLength n
       (orElse (rule errorMessage field)
          ("Must be at least " +:+ pretty n +:+ " characters"))]
  | None => []
  end.

Definition maxLengthCheck (field : FormField) : list StringCheck :=
  match truthyNumber (rule maxLength field) with
  | Some n =>
    [CheckMaxLength n
       (orElse (rule errorMessage field)
          ("Must be at most " +:+ pretty n +:+ " characters"))]
  | None => []
  end.

Definition patternCheck (field : FormField) : list StringCheck :=
  match truthyString (rule pattern field) with
  | Some pat => [CheckRegex pat (orElse (rule errorMessage field) "Invalid format")]
  | None => []
  end.

Definition minCheck (field : FormField) : list NumberCheck :=
  match rule min field with
  | Some n =>
    [CheckMin n (orElse (rule errorMessage field) ("Must be at least " +:+ pretty n))]
  | None => []
  end.

Definition maxCheck (field : FormField) : list NumberCheck :=
  match rule max field with
  | Some n =>
    [CheckMax n (orElse (rule errorMessage field) ("Must be at most " +:+ pretty n))]
  | None => []
  end.

Record CrossFieldValidation : Type := mkCrossFieldValidation {
  cf_fields : list string;
  cf_validator : string;
  cf_errorMessage : string
}.

Section Compiler.

(** The two registries the memo's body reads: the object of the
    component's body and the import of the validators' module. *)
Variable customValidators : gmap string SyncValidator.
Variable asyncValidators : gmap string AsyncValidator.

(** The [string] case up to the required step: length and pattern
    checks, then the asynchronous refinement when the named validator is
    registered. *)
Definition stringSchema (field : FormField) : ZodType :=
  let base :=
    ZString (minLengthCheck field ++ maxLengthCheck field ++ patternCheck field)%list in
  match rule asyncValidator field with
  | Some av =>
    match asyncValidators !! av_name av with
    | Some asyncValidator =>
      ZRefine base
        (asyncRefinement (av_name av) (default [] (params av)) asyncValidator)
        (orElse (rule errorMessage field) ("Validation failed for " +:+ name field))
    | None => base
    end
  | None => base
  end.

(** The [switch (field.type)] of the compiler: the schema stored under
    the field's name. *)
Definition fieldSchema (field : FormField) : ZodType :=
  let req := "This field is required" in
  let case := String.eqb (type field) in
  if case "string" then
    optionalOrRequired field (stringSchema field) notEmptyString req
  else if case "number" then
    optionalOrRequired field (ZNumber (minCheck field ++ maxCheck field)%list)
      notNullish req
  else if case "boolean" then optionalOrRequired field ZBoolean notNullish req
  else if case "date" then optionalOrRequired field (ZString []) notEmptyString req
  else if case "radio" then optionalOrRequired field (ZString []) notEmptyString req
  else if case "textarea" then
    optionalOrRequired field
      (ZString (minLengthCheck field ++ maxLengthCheck field)%list)
      notEmptyString req
  else if case "file" then optionalOrRequired field (ZString []) notEmptyString req
  else if case "dropzone" then
    optionalOrRequired field (ZArray ZAny) nonEmptyArray
      "At least one file is required"
  else if case "signature" then
    optionalOrRequired field (ZString []) notEmptyString "Signature is required"
  else if case "multiselect" then
    optionalOrRequired field (ZArray (ZString [])) nonEmptyArray req
  else optionalOrRequired field (ZString []) notEmptyString req.

(** The entry pushed for a field that declares a [customValidator]. *)
Definition crossFieldValidation (field : FormField) : list CrossFieldValidation :=
  match rule customValidator field with
  | Some cv =>
    [mkCrossFieldValidation (cv_fields cv) (validator cv)
       (orElse (rule errorMessage field) ("Validation failed for " +:+ name field))]
  | None => []
  end.

(** [crossFieldValidations.every(...)]: stops at the first validation
    that fails; a name missing from the registry is warned about and
    counts as passed. *)
Fixpoint everyValidation (validations : list CrossFieldValidation)
    (data : gmap string Value) : Eff bool :=
  match validations with
  | [] => ret true
  | validation :: rest =>
    let* ok :=
      match customValidators !! cf_validator validation with
      | None =>
        let* _ := emit (ConsoleWarn
                   ("Validator " +:+ String "034" (cf_validator validation)
                      +:+ String "034" " not found")) in
        ret true
      | Some validator =>
        let* _ := emit (CustomValidatorCalled (cf_validator validation) data
                          (cf_fields validation)) in
        ret (validator data (cf_fields validation))
      end in
    if ok then everyValidation rest data else ret false
  end.

(** The body of the [zodSchema] memo. *)
Definition zodSchema (schema : FormSchema) : ObjectSchema :=
  let allFields := getAllFields schema in
  let schemaObj :=
    fold_left (fun obj field => objSet obj (name field) (fieldSchema field))
      allFields [] in
  let crossFieldValidations := flat_map crossFieldValidation allFields in
  match crossFieldValidations with
  | [] => mkObjectSchema schemaObj None
  | _ =>
    mkObjectSchema schemaObj
      (Some (mkObjectRefinement
               (everyValidation crossFieldValidations)
               (String.concat "; " (List.map cf_errorMessage crossFieldValidations))
               (flat_map cf_fields crossFieldValidations)))
  end.

End Compiler.

(** ** The reactive visibility tracker *)

Definition isConditional (field : FormField) : bool :=
  match conditional field with Some _ => true | None => false end.

(** [allFields.filter(f => f.conditional)] *)
Definition fieldsWithConditionals (schema : FormSchema) : list FormField :=
  List.filter isConditional (getAllFields schema).

(** The names that every plain object inherits from [Object.prototype].
    Reading one of them on an object that has no entry of its own under
    that name gives a function (for [__proto__], the prototype itself),
    which is truthy and is no boolean. *)
Definition objectPrototypeNames : list string :=
  ["constructor"; "hasOwnProperty"; "isPrototypeOf"; "propertyIsEnumerable";
   "toLocaleString"; "toString"; "valueOf"; "__proto__";
   "__defineGetter__"; "__defineSetter__"; "__lookupGetter__"; "__lookupSetter__"].

Definition inherited (key : string) : bool :=
  existsb (String.eqb key) objectPrototypeNames.

(** [newConditionalFields[field.name] = evaluateCondition(field.conditional,
    values)].  Under the name [__proto__] the assignment goes to the
    setter of [Object.prototype], which ignores a boolean: the map gets no
    entry. *)
Definition assign (values : gmap string Value) (acc : gmap string bool)
    (field : FormField) : gmap string bool :=
  match conditional field with
  | Some c =>
    if String.eqb (name field) "__proto__" then acc
    else <[ name field := evaluateCondition c values ]> acc
  | None => acc
  end.

(** The map that the subscription callback fills, one assignment per
    conditional field, in the order of the fields. *)
Definition newConditionalFields (schema : FormSchema)
    (values : gmap string Value) : gmap string bool :=
  fold_left (assign values) (fieldsWithConditionals schema) ∅.

(** [Object.keys(newConditionalFields).some(key => prevFields[key] !==
    newConditionalFields[key])] *)
Definition hasChanged (prevFields newFields : gmap string bool) : bool :=
  existsb (fun kv : string * bool => negb (bool_decide (prevFields !! kv.1 = Some kv.2)))
    (map_to_list newFields).

(** The truthiness of [conditionalFields[key]]: the entry of the map
    when it has one; else what the object inherits under that name, which
    is truthy; else [undefined]. *)
Definition truthyEntry (conditionalFields : gmap string bool) (key : string) : bool :=
  match conditionalFields !! key with
  | Some b => b
  | None => inherited key
  end.

(** [field.conditional && !conditionalFields[field.name]] *)
Definition isHidden (conditionalFields : gmap string bool) (field : FormField) : bool :=
  isConditional field && negb (truthyEntry conditionalFields (name field)).

(** [form.unregister(field.name, { keepValue: false })] on a hidden
    field: the entry of the store is deleted. *)
Definition unregisterIfHidden (conditionalFields : gmap string bool)
    (values : gmap string Value) (field : FormField) : gmap string Value :=
  if isHidden conditionalFields field then delete (name field) values else values.

(** The store after the body of the unregister effect. *)
Definition unregisterHidden (schema : FormSchema)
    (conditionalFields : gmap string bool) (values : gmap string Value)
    : gmap string Value :=
  fold_left (unregisterIfHidden conditionalFields) (getAllFields schema) values.

(** The body of the unregister effect with what it sets off: each
    [form.unregister] deletes the entry of the store, and the store
    notifies the subscription, whose callback computes a new map from the
    store as it is at that moment.  The store after the effect, and the
    maps that the callbacks computed, in order. *)
Fixpoint unregisterAndNotify (schema : FormSchema)
    (conditionalFields : gmap string bool) (allFields : list FormField)
    (values : gmap string Value) : gmap string Value * list (gmap string bool) :=
  match allFields with
  | [] => (values, [])
  | field :: rest =>
    if isHidden conditionalFields field then
      let values' := delete (name field) values in
      let '(values'', news) :=
        unregisterAndNotify schema conditionalFields rest values' in
      (values'', newConditionalFields schema values' :: news)
    else unregisterAndNotify schema conditionalFields rest values
  end.

(** ** The component and its hooks

    The component is a function that the UI library calls at every
    render; its hooks keep state between the calls.  What the model takes
    from the UI library and from the form library:
    - objects have identities; a reference is a number and a new object
      takes the next number;
    - a memo keeps its value as long as every dependency is the same
      reference as at the previous render, and runs its factory otherwise;
    - an effect runs after a render whose dependencies differ from those
      of its previous run;
    - a state setter given an updater renders the component again when the
      updater returns another object than the current state, and does
      nothing when it returns the current state;
    - state updates made while the effects run are queued and applied in
      order, and the component renders once more after the effects when
      they left another state object;
    - the form library keeps the values in a store ([formValues]), hands
      the whole store to a [watch] callback whenever the store changes
      (the second argument of [watch] is a default value, not a filter),
      and [unregister] with [keepValue: false] deletes the entry of the
      store and notifies the [watch] callbacks. *)

Definition Ref : Type := nat.

Record Memo (A : Type) : Type := mkMemo {
  memo_deps : list Ref;
  memo_value : A
}.
Arguments mkMemo {A} _ _.
Arguments memo_deps {A} _.
Arguments memo_value {A} _.

Definition depsEqual (prev next : list Ref) : bool := bool_decide (prev = next).

(** [useMemo(factory, deps)]: the cell after the render, and whether the
    factory ran. *)
Definition useMemo {A} (cell : option (Memo A)) (deps : list Ref)
    (factory : unit -> A) : Memo A * bool :=
  match cell with
  | Some m =>
    if depsEqual (memo_deps m) deps then (m, false)
    else (mkMemo deps (factory tt), true)
  | None => (mkMemo deps (factory tt), true)
  end.

(** The [schema] prop: a document and the identity of the object that
    holds it. *)
Record Props : Type := mkProps {
  schemaRef : Ref;
  schema : FormSchema
}.

(** An instance of the component: the props of its last render, the
    store of the form, the [conditionalFields] state with the identity of
    the object that holds it, the two memo cells and the dependencies the
    unregister effect last ran with.  [nextRef] is the identity the next
    new object takes, [compilations] counts the runs of the [zodSchema]
    factory.  The identities of [schema] objects belong to the parent and
    are only ever compared with each other. *)
Record Generator : Type := mkGenerator {
  props : Props;
  nextRef : Ref;
  formRef : Ref;
  formValues : gmap string Value;
  conditionalFieldsRef : Ref;
  conditionalFields : gmap string bool;
  getAllFieldsCell : option (Memo Ref);
  zodSchemaCell : option (Memo ObjectSchema);
  unregisterDeps : option (list Ref);
  compilations : nat
}.

Inductive Action : Type :=
| ValueChange (field : string) (v : Value)
| Notify
| Rerender (newProps : Props).

Section Component.

Variable dateTime : Value -> option Z.

(** One call of the component function with the props [p]: the
    [getAllFields] memo on [[schema]], the [customValidators] object
    literal (a new object at every call), the [zodSchema] memo on
    [[getAllFields, customValidators]].  (The form object and the
    [evaluateCondition] callback keep their identities; the subscription
    effect subscribes the same callback again and changes no state.) *)
Definition render (p : Props) (g : Generator) : Generator :=
  let '(gaf, gafNew) :=
    useMemo (getAllFieldsCell g) [schemaRef p] (fun _ => nextRef g) in
  let next1 := if gafNew then S (nextRef g) else nextRef g in
  let customValidatorsRef := next1 in
  let next2 := S next1 in
  let '(zs, zsNew) :=
    useMemo (zodSchemaCell g) [memo_value gaf; customValidatorsRef]
      (fun _ => zodSchema (customValidators dateTime) asyncValidators (schema p)) in
  mkGenerator p next2 (formRef g) (formValues g)
    (conditionalFieldsRef g) (conditionalFields g)
    (Some gaf) (Some zs) (unregisterDeps g)
    (if zsNew then S (compilations g) else compilations g).

(** [setConditionalFields(prevFields => hasChanged ? newConditionalFields
    : prevFields)] for the map [newFields] of one call of the subscription
    callback: the updater gives the new object when an entry differs and
    the previous object otherwise.  The callback's map is a new object
    either way. *)
Definition setConditionalFields (newFields : gmap string bool) (g : Generator)
    : Generator :=
  if hasChanged (conditionalFields g) newFields
  then mkGenerator (props g) (S (nextRef g)) (formRef g) (formValues g)
         (nextRef g) newFields
         (getAllFieldsCell g) (zodSchemaCell g) (unregisterDeps g) (compilations g)
  else mkGenerator (props g) (S (nextRef g)) (formRef g) (formValues g)
         (conditionalFieldsRef g) (conditionalFields g)
         (getAllFieldsCell g) (zodSchemaCell g) (unregisterDeps g) (compilations g).

(** The queued updaters, applied in the order of the callbacks. *)
Definition applyUpdates (news : list (gmap string bool)) (g : Generator) : Generator :=
  fold_left (fun g newFields => setConditionalFields newFields g) news g.

(** The dependencies of the unregister effect:
    [[conditionalFields, form, getAllFields]]. *)
Definition unregisterDepsOf (g : Generator) : list Ref :=
  [conditionalFieldsRef g; formRef g;
   match getAllFieldsCell g with Some m => memo_value m | None => 0%nat end].

(** One run of the unregister effect after a render: the hidden fields
    are unregistered, each [unregister] calls the subscription callback,
    and the state updates of the callbacks are applied. *)
Definition unregisterEffect (g : Generator) : Generator :=
  let '(values, news) :=
    unregisterAndNotify (schema (props g)) (conditionalFields g)
      (getAllFields (schema (props g))) (formValues g) in
  applyUpdates news
    (mkGenerator (props g) (nextRef g) (formRef g) values
       (conditionalFieldsRef g) (conditionalFields g)
       (getAllFieldsCell g) (zodSchemaCell g) (Some (unregisterDepsOf g))
       (compilations g)).

(** The effects after a render, until nothing is left to do: the
    unregister effect runs when its dependencies differ from those of its
    previous run; when its callbacks left another state object the
    component renders again, and the effects of that render follow.
    [fuel] bounds the number of these renders. *)
Fixpoint effects (fuel : nat) (g : Generator) : Generator :=
  if bool_decide (unregisterDeps g = Some (unregisterDepsOf g)) then g
  else
    let g1 := unregisterEffect g in
    if bool_decide (conditionalFieldsRef g1 = conditionalFieldsRef g) then g1
    else
      match fuel with
      | O => g1
      | S fuel' => effects fuel' (render (props g) g1)
      end.

(** The effects after a render.  A render that follows a state update of
    the effects needs an entry of the store that the effects deleted, so
    one render more than the store has entries is enough (lemma
    [commit_settled]). *)
Definition commit (g : Generator) : Generator :=
  effects (S (size (formValues g))) g.

(** First render: [conditionalFields] starts as [{}], the store starts
    from [initialData]; the effects of the first render follow. *)
Definition mount (p : Props) (initialData : gmap string Value) : Generator :=
  commit
    (render p (mkGenerator p 2%nat 0%nat initialData 1%nat ∅ None None None 0%nat)).

(** The parent renders again and passes [p]. *)
Definition rerender (p : Props) (g : Generator) : Generator :=
  commit (render p g).

(** The store takes the value [v] for [field]. *)
Definition setValue (field : string) (v : Value) (g : Generator) : Generator :=
  mkGenerator (props g) (nextRef g) (formRef g)
    (<[ field := v ]> (formValues g))
    (conditionalFieldsRef g) (conditionalFields g)
    (getAllFieldsCell g) (zodSchemaCell g) (unregisterDeps g) (compilations g).

(** The callback's new map becomes the state: a new object. *)
Definition published (g : Generator) : Generator :=
  mkGenerator (props g) (S (nextRef g)) (formRef g) (formValues g)
    (nextRef g) (newConditionalFields (schema (props g)) (formValues g))
    (getAllFieldsCell g) (zodSchemaCell g) (unregisterDeps g) (compilations g).

(** The callback's new map is dropped, the state keeps the previous
    object. *)
Definition unpublished (g : Generator) : Generator :=
  mkGenerator (props g) (S (nextRef g)) (formRef g) (formValues g)
    (conditionalFieldsRef g) (conditionalFields g)
    (getAllFieldsCell g) (zodSchemaCell g) (unregisterDeps g) (compilations g).

(** The store hands its snapshot to the subscription callback: the
    callback computes the new map and calls [setConditionalFields]; when
    the updater returns the new object the component renders again and
    its effects run, when it returns the previous object nothing
    renders. *)
Definition notify (g : Generator) : Generator :=
  if hasChanged (conditionalFields g)
       (newConditionalFields (schema (props g)) (formValues g))
  then commit (render (props g) (published g))
  else unpublished g.

(** One update cycle: a field takes a value and the store notifies the
    subscription. *)
Definition valueChange (field : string) (v : Value) (g : Generator)
    : Generator :=
  notify (setValue field v g).

Definition act (g : Generator) (a : Action) : Generator :=
  match a with
  | ValueChange field v => valueChange field v g
  | Notify => notify g
  | Rerender p => rerender p g
  end.

(** The instance after it was mounted and went through [actions]. *)
Definition run (p : Props) (initialData : gmap string Value)
    (actions : list Action) : Generator :=
  fold_left act actions (mount p initialData).

Variable regexTest : string -> string -> bool.

(** Submit-time validation: the resolver parses the store with the
    ruleset of the last render (there is one from the first render
    on). *)
Definition validate (g : Generator) : Eff Parsed :=
  match zodSchemaCell g with
  | Some m => parseObject regexTest (memo_value m) (formValues g)
  | None => ret (mkParsed Valid [])
  end.

End Component.

(** References are handed out in increasing order: what an instance
    holds is older than its next reference. *)
Definition wf (g : Generator) : Prop :=
  (conditionalFieldsRef g < nextRef g)%nat
  /\ (formRef g < nextRef g)%nat
  /\ match getAllFieldsCell g with
     | Some m => (memo_value m < nextRef g)%nat
     | None => True
     end
  /\ match zodSchemaCell g with
     | Some m => Forall (fun r => (r < nextRef g)%nat) (memo_deps m)
     | None => True
     end
  /\ match unregisterDeps g with
     | Some d => Forall (fun r => (r < nextRef g)%nat) d
     | None => True
     end.

(** ** The step orchestrator ([MultiStepForm]) *)

Inductive StepEvent : Type :=
| ConsoleLog (msg : string) (data : gmap string Value)
| Alert (msg : string).

Record Steps : Type := mkSteps {
  currentStep : Z;
  formData : gmap string Value
}.

(** [useState(0)] and [useState({})] *)
Definition initialSteps : Steps := mkSteps 0 ∅.

(** [schema.sections || []] *)
Definition stepSections (schema : FormSchema) : list FormSection :=
  default [] (sections schema).

(** [handleStepSubmit(data)]: the effects of the call and the state after
    it.  [{ ...formData, ...data }] keeps the keys of both and takes the
    value of [data] where both have one. *)
Definition handleStepSubmit (schema : FormSchema) (data : gmap string Value)
    (st : Steps) : list StepEvent * Steps :=
  let updatedFormData := data ∪ formData st in
  if Z.eqb (currentStep st) (Z.of_nat (length (stepSections schema)) - 1) then
    ([ConsoleLog "Form submitted:" updatedFormData;
      Alert "Form submitted successfully!"],
     mkSteps (currentStep st) updatedFormData)
  else
    ([], mkSteps (currentStep st + 1) updatedFormData).

(** [handlePrevStep()] *)
Definition handlePrevStep (st : Steps) : Steps :=
  if Z.ltb 0 (currentStep st) then mkSteps (currentStep st - 1) (formData st)
  else st.

(** What the user does with the step buttons. *)
Inductive StepAction : Type :=
| SubmitStep (data : gmap string Value)
| PrevStep.

Definition stepAction (schema : FormSchema) (a : StepAction) (st : Steps)
    : list StepEvent * Steps :=
  match a with
  | SubmitStep data => handleStepSubmit schema data st
  | PrevStep => ([], handlePrevStep st)
  end.

(** A sequence of actions, the effects concatenated in order. *)
Fixpoint runSteps (schema : FormSchema) (actions : list StepAction) (st : Steps)
    : list StepEvent * Steps :=
  match actions with
  | [] => ([], st)
  | a :: rest =>
    let '(e1, st1) := stepAction schema a st in
    let '(e2, st2) := runSteps schema rest st1 in
    ((e1 ++ e2)%list, st2)
  end.

(** The terminal submissions among the effects: each is announced by its
    [console.log]. *)
Definition submissions (events : list StepEvent) : list (gmap string Value) :=
  flat_map (fun e => match e with
                     | ConsoleLog "Form submitted:" data => [data]
                     | _ => []
                     end) events.

(** ** Example documents *)

(** The hosts of the examples, which declare no [pattern] and no date
    range: nothing below depends on them. *)
Definition noRegex : string -> string -> bool := fun _ _ => false.
Definition noDate : Value -> option Z := fun _ => None.

(** The shipping form: [country] is required and shown unless [shipTo]
    is ["domestic"]. *)
Definition shipTo : FormField := mkFormField "shipTo" "radio" None None.

Definition country : FormField :=
  mkFormField "country" "string"
    (Some (mkValidationRules (Some true) None None None None None None None None))
    (Some (mkConditionalLogic "shipTo" (Some "notEquals") (Some (SStr "domestic"))
             None None None)).

Definition shippingSchema : FormSchema :=
  mkFormSchema "Shipping" "" (Some [shipTo; country]) None.

Definition shippingProps : Props := mkProps 0%nat shippingSchema.

(** The user picks international shipping, fills in the country, then
    switches to domestic shipping. *)
Definition shippingSession : list Action :=
  [ValueChange "shipTo" (VStr "international"); ValueChange "country" (VStr "FR")].

(** The address form: the postal code is checked against the country. *)
Definition countryCode : FormField := mkFormField "country" "string" None None.

Definition postalCode : FormField :=
  mkFormField "postalCode" "string"
    (Some (mkValidationRules None None None None None None None None
             (Some (mkAsyncValidatorRef "isPostalCodeValid" (Some ["country"])))))
    None.

Definition addressSchema : FormSchema :=
  mkFormSchema "Address" "" (Some [countryCode; postalCode]) None.

Definition addressValues : gmap string Value :=
  {[ "country" := VStr "us"; "postalCode" := VStr "ABCDE" ]}.

(** The sign-up form: the user name is checked remotely, the two
    passwords must match. *)
Definition username : FormField :=
  mkFormField "username" "string"
    (Some (mkValidationRules None None None None None None None None
             (Some (mkAsyncValidatorRef "isUsernameAvailable" None))))
    None.

Definition password : FormField := mkFormField "password" "string" None None.

Definition confirmPassword : FormField :=
  mkFormField "confirmPassword" "string"
    (Some (mkValidationRules None None None None None None
             (Some "Passwords must match")
             (Some (mkCustomValidatorRef ["password"; "confirmPassword"] "passwordsMatch"))
             None))
    None.

Definition passwordSchema : FormSchema :=
  mkFormSchema "Password" "" (Some [password; confirmPassword]) None.

Definition passwordValues : gmap string Value :=
  {[ "password" := VStr "a"; "confirmPassword" := VStr "b" ]}.

Definition signupSchema : FormSchema :=
  mkFormSchema "Sign up" "" (Some [username; password; confirmPassword]) None.

Definition signupValues : gmap string Value :=
  {[ "username" := VStr "bob"; "password" := VStr "a"; "confirmPassword" := VStr "a" ]}.

(** The account form: two cross-field validations, of which the values
    below fail the first and pass the second. *)
Definition email : FormField := mkFormField "email" "string" None None.

Definition confirmEmail : FormField :=
  mkFormField "confirmEmail" "string"
    (Some (mkValidationRules None None None None None None
             (Some "Emails must match")
             (Some (mkCustomValidatorRef ["email"; "confirmEmail"] "passwordsMatch"))
             None))
    None.

Definition accountSchema : FormSchema :=
  mkFormSchema "Account" ""
    (Some [password; confirmPassword; email; confirmEmail]) None.

Definition accountValues : gmap string Value :=
  {[ "password" := VStr "a"; "confirmPassword" := VStr "b";
     "email" := VStr "e@x.org"; "confirmEmail" := VStr "e@x.org" ]}.

(** A form whose only field names an asynchronous validator that the
    registry does not have. *)
Definition phone : FormField :=
  mkFormField "phone" "string"
    (Some (mkValidationRules None None None None None None None None
             (Some (mkAsyncValidatorRef "isPhoneValid" None))))
    None.

Definition phoneSchema : FormSchema := mkFormSchema "Phone" "" (Some [phone]) None.

Definition phoneValues : gmap string Value := {[ "phone" := VStr "123" ]}.

(** The same with a synchronous validator that the registry does not
    have. *)
Definition phoneChecked : FormField :=
  mkFormField "phone" "string"
    (Some (mkValidationRules None None None None None None None
             (Some (mkCustomValidatorRef ["phone"] "phoneIsValid")) None))
    None.

Definition phoneCheckedSchema : FormSchema :=
  mkFormSchema "Phone" "" (Some [phoneChecked]) None.

(** The ruleset of a schema with the registries of the repository. *)
Definition ruleset (schema : FormSchema) : ObjectSchema :=
  zodSchema (customValidators noDate) asyncValidators schema.

(** Events by the phase that produces them. *)
Definition isFieldEvent (e : Event) : Prop :=
  match e with
  | AsyncValidatorCalled _ _ | ConsoleError _ => True
  | _ => False
  end.

Definition isCrossFieldEvent (e : Event) : Prop :=
  match e with
  | CustomValidatorCalled _ _ _ | ConsoleWarn _ => True
  | _ => False
  end.

(** A schema node whose refinements produce field events only. *)
Fixpoint fieldLevel (t : ZodType) : Prop :=
  match t with
  | ZArray element => fieldLevel element
  | ZOptional inner => fieldLevel inner
  | ZRefine inner check _ =>
    fieldLevel inner /\ forall v, Forall isFieldEvent (trace (check v))
  | _ => True
  end.

(** ** The step orchestrator: the schema of the current step *)

(** [sections[i]], [undefined] outside the array. *)
Definition sectionAt (sections : list FormSection) (i : Z) : option FormSection :=
  if Z.ltb i 0 then None else nth_error sections (Z.to_nat i).

(** [getCurrentStepSchema()]: the schema itself when there are no
    sections, else a schema of the current section alone.  [None] stands
    for the object built around [sections[currentStep] = undefined], which
    the form generator cannot read. *)
Definition getCurrentStepSchema (schema : FormSchema) (currentStep : Z)
    : option FormSchema :=
  match stepSections schema with
  | [] => Some schema
  | _ :: _ =>
    match sectionAt (stepSections schema) currentStep with
    | Some s =>
      Some (mkFormSchema (formTitle schema) (formDescription schema) None (Some [s]))
    | None => None
    end
  end.

(** The payload that accumulates over a run of steps: [{ ...formData,
    ...data }] for each submitted [data] in turn. *)
Definition mergeAll (datas : list (gmap string Value)) (formData : gmap string Value)
    : gmap string Value :=
  fold_left (fun acc data => data ∪ acc) datas formData.

(** Three sections, for the examples. *)
Definition threeSections : FormSchema :=
  mkFormSchema "Order" "" None
    (Some [mkFormSection "Shipping" [shipTo; country];
           mkFormSection "Account" [password; confirmPassword];
           mkFormSection "Contact" [phone]]).

(** ** The condition evaluator: the fields a condition reads *)

(** The fields whose values the evaluation of a condition reads: the
    [field] of every node that is evaluated as a leaf. *)
Fixpoint referencedFields (c : ConditionalLogic) : list string :=
  match c with
  | mkConditionalLogic field _ _ _ conditions _ =>
    match conditions with
    | Some ((_ :: _) as cs) => flat_map referencedFields cs
    | _ => [field]
    end
  end.

(** The operators that [evaluateCondition] knows by name. *)
Definition knownOperators : list string :=
  ["equals"; "notEquals"; "greaterThan"; "lessThan"; "contains"; "notContains";
   "isEmpty"; "isNotEmpty"].

(** ** The validator compiler: the message of a missing required value *)

(** The message of the [required] refinement of a field: its
    [errorMessage] when it has one, else the default that the compiler
    writes for its type. *)
Definition requiredMessage (field : FormField) : string :=
  orElse (rule errorMessage field)
    (if String.eqb (type field) "dropzone" then "At least one file is required"
     else if String.eqb (type field) "signature" then "Signature is required"
     else "This field is required").

(** The name of the type that the compiler expects for a field. *)
Definition expectedType (field : FormField) : string :=
  if String.eqb (type field) "number" then "number"
  else if String.eqb (type field) "boolean" then "boolean"
  else if String.eqb (type field) "dropzone" then "array"
  else if String.eqb (type field) "multiselect" then "array"
  else "string".

(** Whether a cross-field validation holds on the data: a validator
    missing from the registry counts as holding. *)
Definition validationHolds (customValidators : gmap string SyncValidator)
    (data : gmap string Value) (validation : CrossFieldValidation) : bool :=
  match customValidators !! cf_validator validation with
  | Some validator => validator data (cf_fields validation)
  | None => true
  end.

(** Fields for the examples of the bounds. *)
Definition ageField : FormField :=
  mkFormField "age" "number"
    (Some (mkValidationRules (Some true) (Some 18) (Some 99) None None None None None None))
    None.

Definition commentField : FormField :=
  mkFormField "comment" "textarea"
    (Some (mkValidationRules None None None (Some 2) (Some 0) None None None None))
    None.

(** A sign-up field for the examples: the user name needs three
    characters and is checked remotely. *)
Definition handleField : FormField :=
  mkFormField "handle" "string"
    (Some (mkValidationRules (Some true) None None (Some 3) None None None None
             (Some (mkAsyncValidatorRef "isUsernameAvailable" None))))
    None.

(** The cross-field validations that a pass consults: all of them up to
    and including the first that does not hold. *)
Fixpoint consulted (customValidators : gmap string SyncValidator)
    (data : gmap string Value) (validations : list CrossFieldValidation)
    : list CrossFieldValidation :=
  match validations with
  | [] => []
  | validation :: rest =>
    validation
      :: (if validationHolds customValidators data validation
          then consulted customValidators data rest else [])
  end.

(** What consulting one cross-field validation does: a call of its
    validator, or the warning that the registry does not have it. *)
Definition validationEvent (customValidators : gmap string SyncValidator)
    (data : gmap string Value) (validation : CrossFieldValidation) : Event :=
  match customValidators !! cf_validator validation with
  | Some _ =>
    CustomValidatorCalled (cf_validator validation) data (cf_fields validation)
  | None =>
    ConsoleWarn ("Validator " +:+ String "034" (cf_validator validation)
                   +:+ String "034" " not found")
  end.

(** ** The asynchronous validators: words for their properties *)

(** The domains that [isEmailDomainValid] accepts end in one of these. *)
Definition validDomains : list string := [".com"; ".org"; ".net"; ".edu"; ".gov"].

(** Whether every character of a string satisfies a test. *)
Fixpoint allChars (p : ascii -> bool) (s : string) : bool :=
  match s with
  | EmptyString => true
  | String c rest => p c && allChars p rest
  end.

(** [0-9] *)
Definition isDigit (c : ascii) : bool :=
  let n := nat_of_ascii c in Nat.leb 48 n && Nat.leb n 57.

(** [A-Za-z] *)
Definition isLetter (c : ascii) : bool :=
  let n := nat_of_ascii c in
  (Nat.leb 65 n && Nat.leb n 90) || (Nat.leb 97 n && Nat.leb n 122).


(** ** What the form shows

    The fields the form lays out, from the JSX of the component:
    [schema.sections ? sections.map(... section.fields.map(renderFormField))
    : schema.fields?.map(renderFormField)]. *)
Definition layoutFields (schema : FormSchema) : list FormField :=
  match sections schema with
  | Some ss => flat_map section_fields ss
  | None =>
    match fields schema with
    | Some fs => fs
    | None => []
    end
  end.

(** [renderFormField(field)]: [null] for a conditional field whose entry
    of [conditionalFields] is falsy, the form item of the field
    otherwise.  The model keeps of the form item the field it shows. *)
Definition renderFormField (conditionalFields : gmap string bool)
    (field : FormField) : option FormField :=
  if isHidden conditionalFields field then None else Some field.

(** The fields on the screen, in order: React drops the [null]s. *)
Definition shownFields (schema : FormSchema)
    (conditionalFields : gmap string bool) : list FormField :=
  omap (renderFormField conditionalFields) (layoutFields schema).

(** A render that passes the same schema as [p]. *)
Definition keepsSchema (p : Props) (a : Action) : Prop :=
  match a with
  | Rerender newProps => schema newProps = schema p
  | _ => True
  end.

(** A schema that has both [fields] and [sections]. *)
Definition bothSchema : FormSchema :=
  mkFormSchema "Shipping" "" (Some [shipTo]) (Some [mkFormSection "Address" [country]]).

Definition bothProps : Props := mkProps 0%nat bothSchema.

(** A conditional field under a name that a plain object inherits, in a
    schema that lays it out in a section and tracks [fields]. *)
Definition constructorField : FormField :=
  mkFormField "constructor" "string" None
    (Some (mkConditionalLogic "shipTo" (Some "equals") (Some (SStr "never"))
             None None None)).

Definition inheritedNameSchema : FormSchema :=
  mkFormSchema "Shipping" "" (Some [shipTo])
    (Some [mkFormSection "Address" [constructorField]]).

Definition inheritedNameProps : Props := mkProps 0%nat inheritedNameSchema.

(** The same field in a schema that tracks it. *)
Definition inheritedNameTracked : Props :=
  mkProps 0%nat (mkFormSchema "Shipping" "" (Some [shipTo; constructorField]) None).

(** Every key of the visibility map is the name of a conditional field
    that the component tracks. *)
Definition tracked (g : Generator) : Prop :=
  forall key b, conditionalFields g !! key = Some b ->
    In key (List.map name (fieldsWithConditionals (schema (props g)))).

(** ** The component at rest *)

(** Nothing is left to do: the unregister effect has run with the
    dependencies that the instance has now. *)
Definition settled (g : Generator) : Prop :=
  unregisterDeps g = Some (unregisterDepsOf g).

(** The visibility map is in step with the store: it agrees, on every
    key of that map, with the map that the subscription callback computes
    from the store of the instance. *)
Definition fresh (g : Generator) : Prop :=
  hasChanged (conditionalFields g)
    (newConditionalFields (schema (props g)) (formValues g)) = false.

(** Chained conditions: [b] shows when [a] is ["x"], and [c] shows when
    [b] is not empty. *)
Definition chainSchema : FormSchema :=
  mkFormSchema "Chain" ""
    (Some [mkFormField "a" "string" None None;
           mkFormField "b" "string" None
             (Some (mkConditionalLogic "a" (Some "equals") (Some (SStr "x"))
                      None None None));
           mkFormField "c" "string" None
             (Some (mkConditionalLogic "b" (Some "isNotEmpty") None None None None))])
    None.

Definition chainProps : Props := mkProps 0%nat chainSchema.

Definition chainSession : list Action :=
  [ValueChange "a" (VStr "x"); ValueChange "b" (VStr "y"); ValueChange "c" (VStr "z")].

(** ** The schema routes of [app/api]

    The routes keep the schemas as the files of one directory.  The
    directory is a map from file names to file contents; a missing
    directory is the empty map, and the file system itself does not fail.
    The contents are texts that [JSON.parse] reads back or rejects.  A
    schema without [formTitle] is a schema whose title is the empty
    string: both are falsy. *)

(** [s.replace(/\s+/g, '-')]: every maximal run of white space becomes
    one dash.  [inRun] tells that the previous character was white
    space. *)
Fixpoint dashRuns (inRun : bool) (s : string) : string :=
  match s with
  | EmptyString => EmptyString
  | String c rest =>
    if isWhiteSpace c
    then (if inRun then dashRuns true rest else String "-" (dashRuns true rest))
    else String c (dashRuns false rest)
  end.

(** [[a-z0-9-]] *)
Definition isLowerIdChar (c : ascii) : bool :=
  let n := nat_of_ascii c in
  (Nat.leb 97 n && Nat.leb n 122) || (Nat.leb 48 n && Nat.leb n 57) || Nat.eqb n 45.

(** [s.replace(/[^...]/g, '')]: the characters of the class are kept. *)
Fixpoint keepChars (p : ascii -> bool) (s : string) : string :=
  match s with
  | EmptyString => EmptyString
  | String c rest => if p c then String c (keepChars p rest) else keepChars p rest
  end.

(** [name.toLowerCase().replace(/\s+/g, '-').replace(/[^a-z0-9-]/g, '')] *)
Definition schemaIdOf (name : string) : string :=
  keepChars isLowerIdChar (dashRuns false (toLowerCase name)).

(** [/^[a-zA-Z0-9-]+$/.test(schemaId)] *)
Definition isValidId (schemaId : string) : bool :=
  negb (String.eqb schemaId "")
  && allChars (fun c => isLetter c || isDigit c || Ascii.eqb c "-") schemaId.

Fixpoint dropChars (n : nat) (s : string) : string :=
  match n, s with
  | S n', String _ rest => dropChars n' rest
  | _, _ => s
  end.

(** [s.replace(sub, '')] with a string pattern: the first occurrence of
    [sub] is removed. *)
Fixpoint removeFirst (sub s : string) : string :=
  if String.prefix sub s then dropChars (String.length sub) s
  else match s with
       | EmptyString => EmptyString
       | String c rest => String c (removeFirst sub rest)
       end.

(** A response: [NextResponse.json(body)], or
    [NextResponse.json({ error }, { status })]. *)
Inductive Response (A : Type) : Type :=
| Json (body : A)
| Failure (status : Z) (error : string).

Arguments Json {A} body.
Arguments Failure {A} status error.

(** An entry of the listing: [{ id, title }]. *)
Record SchemaEntry : Type := mkSchemaEntry {
  entry_id : string;
  entry_title : string
}.

Section Routes.

Variable Content : Type.

(** [JSON.stringify(schema, null, 2)] *)
Variable stringify : FormSchema -> Content.

(** [JSON.parse(schemaData)]; [None] when it throws. *)
Variable parse : Content -> option FormSchema.

(** The callback of [files.map] in [GET /api/schemas]; [None] when
    reading or parsing throws. *)
Definition listEntry (files : gmap string Content) (file : string)
    : option SchemaEntry :=
  let schemaId := removeFirst ".json" file in
  match files !! file with
  | Some schemaData =>
    match parse schemaData with
    | Some schema =>
      Some (mkSchemaEntry schemaId
              (if String.eqb (formTitle schema) "" then "Form " +:+ schemaId
               else formTitle schema))
    | None => None
    end
  | None => None
  end.

(** [GET /api/schemas].  The order of the entries is the order in which
    the file system lists the directory. *)
Definition getSchemas (files : gmap string Content) : Response (list SchemaEntry) :=
  let names :=
    List.filter (fun file => endsWith file ".json") (List.map fst (map_to_list files)) in
  match mapM (listEntry files) names with
  | Some schemas => Json schemas
  | None => Failure 500 "Failed to load schemas"
  end.

(** [POST /api/schemas] with the body [{ schema, filename }]: the
    directory after the request and the response. *)
Definition postSchemas (files : gmap string Content) (schema : option FormSchema)
    (filename : option string) : gmap string Content * Response string :=
  match schema with
  | None => (files, Failure 400 "Invalid schema")
  | Some s =>
    if String.eqb (formTitle s) "" then (files, Failure 400 "Invalid schema")
    else
      let schemaId := schemaIdOf (orElse filename (formTitle s)) in
      (<[ schemaId +:+ ".json" := stringify s ]> files, Json schemaId)
  end.

(** [GET /api/schema?id=...]; [id] is [url.searchParams.get('id')]. *)
Definition getSchema (files : gmap string Content) (id : option string)
    : Response FormSchema :=
  let schemaId := orElse id "form-270" in
  if negb (isValidId schemaId) then Failure 400 "Invalid schema ID"
  else
    match files !! (schemaId +:+ ".json") with
    | None => Failure 404 "Schema not found"
    | Some schemaData =>
      match parse schemaData with
      | Some schema => Json schema
      | None => Failure 500 "Failed to load schema"
      end
    end.

End Routes.

(** ** The multiple selection of [components/ui/multi-select.tsx]

    A handler calls [onChange] with the new selection; the model returns
    it. *)

(** [value.filter(item => item !== option)] *)
Definition handleRemove (value : list string) (option : string) : list string :=
  List.filter (fun item => negb (String.eqb item option)) value.

Definition handleSelect (value : list string) (option : string) : list string :=
  if existsb (fun item => String.eqb item option) value
  then List.filter (fun item => negb (String.eqb item option)) value
  else (value ++ [option])%list.

(** ** The inputs of [renderField] *)

(** The [onChange] of the number input:
    [e.target.value === "" ? null : Number(e.target.value)].  The text of
    a number input is empty or a numeral; [entered] is the number it
    denotes, [None] for the empty text. *)
Definition numberInputChange (entered : option Z) : Value :=
  match entered with
  | Some n => VNum n
  | None => VNull
  end.

(** The [onChange] of the date picker:
    [date ? date.toISOString().split('T')[0] : null]; [date] is the day of
    the picked date in ISO format, [None] when the date was cleared. *)
Definition dateChange (date : option string) : Value :=
  match date with
  | Some day => VStr day
  | None => VNull
  end.

(** A form with an optional number field. *)
Definition quantity : FormField := mkFormField "quantity" "number" None None.

Definition orderSchema : FormSchema :=
  mkFormSchema "Order" "" (Some [quantity; password; confirmPassword]) None.
(** * Properties *)

(** Splits the conjunctions of the goal, and nothing else. *)
Ltac conjuncts := repeat match goal with |- _ /\ _ => split end.

(** Closes a closed goal by evaluation. *)
Ltac evaluate := vm_compute; reflexivity.

(** ** Condition evaluator *)

Lemma existsb_id_map {A} (f : A -> bool) (l : list A) :
  existsb (fun r => r) (List.map f l) = existsb f l.
Proof. induction l as [|x l IH]; simpl; [reflexivity | now rewrite IH]. Qed.

Lemma forallb_id_map {A} (f : A -> bool) (l : list A) :
  forallb (fun r => r) (List.map f l) = forallb f l.
Proof. induction l as [|x l IH]; simpl; [reflexivity | now rewrite IH]. Qed.

(** A node with a non-empty [conditions] list and the operator ["or"] is
    the disjunction of its children. *)
Lemma evaluateCondition_or field operator value equals c cs values :
  evaluateCondition
    (mkConditionalLogic field operator value equals (Some (c :: cs)) (Some "or")) values
  = existsb (fun child => evaluateCondition child values) (c :: cs).
Proof. cbn [evaluateCondition]. apply existsb_id_map. Qed.

(** With any other operator, or none, it is their conjunction. *)
Lemma evaluateCondition_and field operator value equals c cs lo values :
  lo <> Some "or" ->
  evaluateCondition
    (mkConditionalLogic field operator value equals (Some (c :: cs)) lo) values
  = forallb (fun child => evaluateCondition child values) (c :: cs).
Proof.
  intros Hlo. cbn [evaluateCondition]. rewrite forallb_id_map.
  destruct lo as [s|]; [|reflexivity].
  destruct (String.eqb_spec s "or") as [->|Hne]; [congruence|].
  repeat (match goal with
          | |- context [match ?x with _ => _ end] => destruct x; try reflexivity
          end).
  congruence.
Qed.

(** C5 (as amended): a composite node with a non-empty [conditions] list
    evaluates, with [logicalOperator] ["or"], to true exactly when at least
    one child evaluates to true, and with ["and"] or no [logicalOperator],
    to true exactly when every child does. *)
Theorem C5_composite_evaluation
    (field : string) (operator : option string) (value equals : option Scalar)
    (c : ConditionalLogic) (cs : list ConditionalLogic)
    (values : gmap string Value) :
  let node lo := mkConditionalLogic field operator value equals (Some (c :: cs)) lo in
  (evaluateCondition (node (Some "or")) values = true <->
     exists child, In child (c :: cs) /\ evaluateCondition child values = true)
  /\ (evaluateCondition (node (Some "and")) values = true <->
        forall child, In child (c :: cs) -> evaluateCondition child values = true)
  /\ (evaluateCondition (node None) values = true <->
        forall child, In child (c :: cs) -> evaluateCondition child values = true).
Proof.
  cbv zeta. split; [|split].
  - rewrite evaluateCondition_or. apply existsb_exists.
  - rewrite evaluateCondition_and by discriminate. apply forallb_forall.
  - rewrite evaluateCondition_and by discriminate. apply forallb_forall.
Qed.

(** C5 (as stated) fails on a node whose [conditions] list is empty: the
    guard [conditions.length > 0] sends it to the leaf rules, where
    [{ field: "x", conditions: [], logicalOperator: "or" }] compares the
    absent value of [x] with the absent [value] and answers true, with no
    child to evaluate to true. *)
Lemma C5_empty_composite :
  let node := mkConditionalLogic "x" None None None (Some []) (Some "or") in
  cond_conditions node = Some []
  /\ cond_logicalOperator node = Some "or"
  /\ evaluateCondition node ∅ = true
  /\ existsb (fun child => evaluateCondition child ∅) [] = false.
Proof. repeat split. Qed.

(** ** Reactive visibility tracker *)

Lemma assign_fold_other values (l : list FormField) (acc : gmap string bool) k :
  ~ In k (List.map name l) ->
  fold_left (assign values) l acc !! k = acc !! k.
Proof.
  revert acc. induction l as [|f l IH]; intros acc Hk; simpl; [reflexivity|].
  simpl in Hk. rewrite IH by tauto.
  unfold assign. destruct (conditional f); [|reflexivity].
  destruct (String.eqb (name f) "__proto__"); [reflexivity|].
  apply lookup_insert_ne. tauto.
Qed.




Lemma hasChanged_true prevFields newFields :
  hasChanged prevFields newFields = true ->
  exists key b, newFields !! key = Some b /\ prevFields !! key <> Some b.
Proof.
  unfold hasChanged. intros H. apply existsb_exists in H as ([key b] & Hin & Hne).
  exists key, b. split.
  - apply elem_of_map_to_list. apply list_elem_of_In. exact Hin.
  - simpl in Hne. apply negb_true_iff in Hne. apply bool_decide_eq_false in Hne. exact Hne.
Qed.


(** The unregister effect only deletes. *)
Lemma unregister_fold_None cf (l : list FormField) (values : gmap string Value) k :
  values !! k = None ->
  fold_left (unregisterIfHidden cf) l values !! k = None.
Proof.
  revert values. induction l as [|f l IH]; intros values Hk; simpl; [exact Hk|].
  apply IH. unfold unregisterIfHidden. destruct (isHidden cf f); [|exact Hk].
  destruct (decide (name f = k)) as [->|Hne].
  - apply lookup_delete_eq.
  - rewrite lookup_delete_ne by exact Hne. exact Hk.
Qed.

(** It deletes the entry of every hidden field. *)
Lemma unregisterHidden_hidden schema cf values f :
  In f (getAllFields schema) -> isHidden cf f = true ->
  unregisterHidden schema cf values !! name f = None.
Proof.
  unfold unregisterHidden. generalize (getAllFields schema) as l.
  intros l. revert values. induction l as [|f0 l IH]; intros values Hin Hh; [contradiction|].
  simpl. destruct Hin as [->|Hin].
  - apply unregister_fold_None. unfold unregisterIfHidden. rewrite Hh.
    apply lookup_delete_eq.
  - apply IH; assumption.
Qed.

(** ** The component *)

Lemma Forall_lt_mono (n m : nat) (l : list nat) :
  Forall (fun r => (r < n)%nat) l -> (n <= m)%nat -> Forall (fun r => (r < m)%nat) l.
Proof. intros H Hle. induction H; constructor; [lia|assumption]. Qed.

Lemma hasChanged_refl m : hasChanged m m = false.
Proof.
  apply not_true_is_false. intros H.
  destruct (hasChanged_true _ _ H) as (key & b & Hnew & Hold). contradiction.
Qed.

Lemma size_delete_le (k : string) (values : gmap string Value) :
  (size (delete k values) <= size values)%nat.
Proof. rewrite map_size_delete. destruct (values !! k); simpl; lia. Qed.

Lemma size_delete_same (k : string) (values : gmap string Value) :
  size (delete k values) = size values -> delete k values = values.
Proof.
  intros H. apply delete_id. destruct (values !! k) as [x|] eqn:E; [exfalso|reflexivity].
  rewrite map_size_delete, E in H. simpl in H.
  assert (size values <> 0%nat) as Hne
    by (apply (map_size_ne_0_lookup_2 values k); exists x; exact E).
  lia.
Qed.

(** *** The unregister effect and its notifications *)

Lemma unregisterAndNotify_store schema cf (l : list FormField) values :
  (unregisterAndNotify schema cf l values).1
  = fold_left (unregisterIfHidden cf) l values.
Proof.
  revert values. induction l as [|f l IH]; intros values; [reflexivity|].
  cbn [unregisterAndNotify fold_left]. unfold unregisterIfHidden at 2.
  destruct (isHidden cf f).
  - rewrite <- IH.
    destruct (unregisterAndNotify schema cf l (delete (name f) values)); reflexivity.
  - apply IH.
Qed.

(** No field was unregistered, or the last callback saw the store that
    the effect left. *)
Lemma unregisterAndNotify_news schema cf (l : list FormField) values :
  ((unregisterAndNotify schema cf l values).2 = []
   /\ (unregisterAndNotify schema cf l values).1 = values)
  \/ exists pre,
       (unregisterAndNotify schema cf l values).2
       = (pre ++ [newConditionalFields schema
                    (unregisterAndNotify schema cf l values).1])%list.
Proof.
  revert values. induction l as [|f l IH]; intros values; [left; split; reflexivity|].
  cbn [unregisterAndNotify]. destruct (isHidden cf f); [|apply IH].
  right. specialize (IH (delete (name f) values)).
  destruct (unregisterAndNotify schema cf l (delete (name f) values)) as [v news].
  cbn [fst snd] in *. destruct IH as [[-> ->]|[pre ->]].
  - exists []. reflexivity.
  - exists (newConditionalFields schema (delete (name f) values) :: pre). reflexivity.
Qed.

(** Every callback computes its map from some store. *)
Lemma unregisterAndNotify_maps schema cf (l : list FormField) values :
  Forall (fun m => exists v, m = newConditionalFields schema v)
    (unregisterAndNotify schema cf l values).2.
Proof.
  revert values. induction l as [|f l IH]; intros values; [constructor|].
  cbn [unregisterAndNotify]. destruct (isHidden cf f); [|apply IH].
  specialize (IH (delete (name f) values)).
  destruct (unregisterAndNotify schema cf l (delete (name f) values)) as [v news].
  cbn [snd] in *. constructor; [eexists; reflexivity|exact IH].
Qed.

Lemma unregisterAndNotify_size schema cf (l : list FormField) values :
  (size (unregisterAndNotify schema cf l values).1 <= size values)%nat.
Proof.
  revert values. induction l as [|f l IH]; intros values; [reflexivity|].
  cbn [unregisterAndNotify]. destruct (isHidden cf f); [|apply IH].
  specialize (IH (delete (name f) values)).
  destruct (unregisterAndNotify schema cf l (delete (name f) values)) as [v news].
  cbn [fst] in *. pose proof (size_delete_le (name f) values). lia.
Qed.

(** An effect that deletes no entry hands the same store to every
    callback. *)
Lemma unregisterAndNotify_same schema cf (l : list FormField) values :
  size (unregisterAndNotify schema cf l values).1 = size values ->
  Forall (fun m => m = newConditionalFields schema values)
    (unregisterAndNotify schema cf l values).2.
Proof.
  revert values. induction l as [|f l IH]; intros values Hs; [constructor|].
  cbn [unregisterAndNotify] in *. destruct (isHidden cf f); [|apply IH; exact Hs].
  pose proof (unregisterAndNotify_size schema cf l (delete (name f) values)) as Hle.
  specialize (IH (delete (name f) values)).
  destruct (unregisterAndNotify schema cf l (delete (name f) values)) as [v news].
  cbn [fst snd] in *. pose proof (size_delete_le (name f) values) as Hd.
  assert (delete (name f) values = values) as E by (apply size_delete_same; lia).
  rewrite E in *. constructor; [reflexivity|]. apply IH. exact Hs.
Qed.

Section ComponentFacts.

Variable dateTime : Value -> option Z.

Lemma render_keeps p g :
  conditionalFields (render dateTime p g) = conditionalFields g
  /\ conditionalFieldsRef (render dateTime p g) = conditionalFieldsRef g
  /\ formValues (render dateTime p g) = formValues g
  /\ props (render dateTime p g) = p
  /\ unregisterDeps (render dateTime p g) = unregisterDeps g
  /\ formRef (render dateTime p g) = formRef g.
Proof.
  unfold render.
  destruct (useMemo (getAllFieldsCell g) _ _) as [gaf gafNew].
  destruct (useMemo (zodSchemaCell g) _ _) as [zs zsNew].
  simpl. repeat split.
Qed.

(** The [customValidators] object of a render is new, so the [zodSchema]
    memo never finds its dependencies unchanged: every render runs the
    factory. *)
Lemma render_recompiles p g :
  wf g -> compilations (render dateTime p g) = S (compilations g).
Proof.
  intros (_ & _ & Hgaf & Hzs & _). unfold render.
  destruct (useMemo (getAllFieldsCell g) _ _) as [gaf gafNew] eqn:Egaf.
  assert (nextRef g <= (if gafNew then S (nextRef g) else nextRef g))%nat as Hle
    by (destruct gafNew; lia).
  destruct (useMemo (zodSchemaCell g) _ _) as [zs zsNew] eqn:Ezs.
  simpl. unfold useMemo in Ezs.
  destruct (zodSchemaCell g) as [m|]; [|now inversion Ezs].
  unfold depsEqual in Ezs. case_bool_decide as Hd; [|now inversion Ezs].
  exfalso. rewrite Hd in Hzs.
  apply Forall_cons_iff in Hzs as [_ Hzs]. apply Forall_cons_iff in Hzs as [Hlt _].
  lia.
Qed.

Lemma render_compilations p g :
  (compilations g <= compilations (render dateTime p g))%nat.
Proof.
  unfold render.
  destruct (useMemo (getAllFieldsCell g) _ _) as [gaf gafNew].
  destruct (useMemo (zodSchemaCell g) _ _) as [zs zsNew].
  simpl. destruct zsNew; lia.
Qed.

Lemma render_wf p g : wf g -> wf (render dateTime p g).
Proof.
  intros (Hcf & Hform & Hgaf & Hzs & Hun). unfold render.
  destruct (useMemo (getAllFieldsCell g) _ _) as [gaf gafNew] eqn:Egaf.
  assert ((memo_value gaf < S (if gafNew then S (nextRef g) else nextRef g))%nat) as Hgaf'.
  { unfold useMemo in Egaf. destruct (getAllFieldsCell g) as [m|].
    - destruct (depsEqual _ _); inversion Egaf; subst; simpl; lia.
    - inversion Egaf; subst; simpl; lia. }
  assert (nextRef g <= (if gafNew then S (nextRef g) else nextRef g))%nat as Hle
    by (destruct gafNew; lia).
  destruct (useMemo (zodSchemaCell g) _ _) as [zs zsNew] eqn:Ezs.
  assert (memo_deps zs = [memo_value gaf; if gafNew then S (nextRef g) else nextRef g])
    as Hdeps.
  { unfold useMemo in Ezs. destruct (zodSchemaCell g) as [m|].
    - unfold depsEqual in Ezs. case_bool_decide as Hd; inversion Ezs; subst; simpl; auto.
    - inversion Ezs; subst; reflexivity. }
  unfold wf; simpl. repeat split; try lia.
  - rewrite Hdeps. constructor; [lia|constructor; [lia|constructor]].
  - destruct (unregisterDeps g) as [d|]; [|exact I].
    eapply Forall_lt_mono; [exact Hun|lia].
Qed.

(** *** State updates *)

Lemma setConditionalFields_keeps newFields g :
  props (setConditionalFields newFields g) = props g
  /\ formValues (setConditionalFields newFields g) = formValues g
  /\ formRef (setConditionalFields newFields g) = formRef g
  /\ getAllFieldsCell (setConditionalFields newFields g) = getAllFieldsCell g
  /\ zodSchemaCell (setConditionalFields newFields g) = zodSchemaCell g
  /\ unregisterDeps (setConditionalFields newFields g) = unregisterDeps g
  /\ compilations (setConditionalFields newFields g) = compilations g.
Proof. unfold setConditionalFields. destruct (hasChanged _ _); simpl; repeat split. Qed.

Lemma bump_wf g cfRef cf :
  wf g -> (cfRef < S (nextRef g))%nat ->
  wf (mkGenerator (props g) (S (nextRef g)) (formRef g) (formValues g) cfRef cf
        (getAllFieldsCell g) (zodSchemaCell g) (unregisterDeps g) (compilations g)).
Proof.
  intros (Hcf & Hform & Hgaf & Hzs & Hun) Hlt.
  unfold wf; simpl. repeat split; try lia.
  - destruct (getAllFieldsCell g); [lia|exact I].
  - destruct (zodSchemaCell g); [|exact I]. eapply Forall_lt_mono; [exact Hzs|lia].
  - destruct (unregisterDeps g); [|exact I]. eapply Forall_lt_mono; [exact Hun|lia].
Qed.

Lemma setConditionalFields_wf newFields g :
  wf g -> wf (setConditionalFields newFields g).
Proof.
  intros Hg. unfold setConditionalFields.
  destruct (hasChanged _ _); apply bump_wf; try exact Hg; destruct Hg; lia.
Qed.


Lemma applyUpdates_keeps news g :
  props (applyUpdates news g) = props g
  /\ formValues (applyUpdates news g) = formValues g
  /\ formRef (applyUpdates news g) = formRef g
  /\ getAllFieldsCell (applyUpdates news g) = getAllFieldsCell g
  /\ zodSchemaCell (applyUpdates news g) = zodSchemaCell g
  /\ unregisterDeps (applyUpdates news g) = unregisterDeps g
  /\ compilations (applyUpdates news g) = compilations g.
Proof.
  revert g. induction news as [|m news IH]; intros g; [repeat split|].
  cbn [applyUpdates fold_left]. fold (applyUpdates news (setConditionalFields m g)).
  destruct (IH (setConditionalFields m g)) as (-> & -> & -> & -> & -> & -> & ->).
  apply setConditionalFields_keeps.
Qed.

Lemma applyUpdates_wf news g : wf g -> wf (applyUpdates news g).
Proof.
  revert g. induction news as [|m news IH]; intros g Hg; [exact Hg|].
  apply IH, setConditionalFields_wf, Hg.
Qed.

(** Updates that bring nothing new leave the state object in place. *)
Lemma applyUpdates_unchanged news g :
  Forall (fun m => hasChanged (conditionalFields g) m = false) news ->
  conditionalFieldsRef (applyUpdates news g) = conditionalFieldsRef g
  /\ conditionalFields (applyUpdates news g) = conditionalFields g.
Proof.
  revert g. induction news as [|m news IH]; intros g H; [split; reflexivity|].
  apply Forall_cons_iff in H as [Hm H].
  cbn [applyUpdates fold_left]. fold (applyUpdates news (setConditionalFields m g)).
  assert (conditionalFieldsRef (setConditionalFields m g) = conditionalFieldsRef g
          /\ conditionalFields (setConditionalFields m g) = conditionalFields g)
    as [Hr Hc] by (unfold setConditionalFields; rewrite Hm; split; reflexivity).
  destruct (IH (setConditionalFields m g)) as [-> ->]; [rewrite Hc; exact H|].
  split; assumption.
Qed.

(** After the updates the state agrees with the map of the last
    callback. *)
Lemma applyUpdates_last pre m g :
  hasChanged (conditionalFields (applyUpdates (pre ++ [m]) g)) m = false.
Proof.
  unfold applyUpdates. rewrite fold_left_app. cbn [fold_left].
  generalize (fold_left (fun g newFields => setConditionalFields newFields g) pre g).
  intros g0. unfold setConditionalFields.
  destruct (hasChanged (conditionalFields g0) m) eqn:E; simpl;
    [apply hasChanged_refl|exact E].
Qed.

(** The state after the updates is the previous map or the map of one of
    the callbacks. *)
Lemma applyUpdates_cases news g :
  conditionalFields (applyUpdates news g) = conditionalFields g
  \/ In (conditionalFields (applyUpdates news g)) news.
Proof.
  revert g. induction news as [|m news IH]; intros g; [left; reflexivity|].
  cbn [applyUpdates fold_left]. fold (applyUpdates news (setConditionalFields m g)).
  destruct (IH (setConditionalFields m g)) as [H|H]; [|right; right; exact H].
  rewrite H. unfold setConditionalFields.
  destruct (hasChanged _ _); simpl; [right; left; reflexivity|left; reflexivity].
Qed.

(** *** One run of the unregister effect *)

Lemma unregisterEffect_keeps g :
  props (unregisterEffect g) = props g
  /\ formRef (unregisterEffect g) = formRef g
  /\ getAllFieldsCell (unregisterEffect g) = getAllFieldsCell g
  /\ zodSchemaCell (unregisterEffect g) = zodSchemaCell g
  /\ compilations (unregisterEffect g) = compilations g
  /\ unregisterDeps (unregisterEffect g) = Some (unregisterDepsOf g)
  /\ formValues (unregisterEffect g)
     = unregisterHidden (schema (props g)) (conditionalFields g) (formValues g).
Proof.
  unfold unregisterEffect, unregisterHidden.
  rewrite <- (unregisterAndNotify_store (schema (props g))).
  destruct (unregisterAndNotify _ _ _ _) as [values news].
  match goal with
  | |- context [applyUpdates news ?g0] =>
    destruct (applyUpdates_keeps news g0) as (-> & -> & -> & -> & -> & -> & ->)
  end.
  simpl. repeat split.
Qed.

Lemma unregisterEffect_wf g : wf g -> wf (unregisterEffect g).
Proof.
  intros (Hcf & Hform & Hgaf & Hzs & Hun). unfold unregisterEffect.
  destruct (unregisterAndNotify _ _ _ _) as [values news].
  apply applyUpdates_wf. unfold wf, unregisterDepsOf; simpl.
  repeat split; try assumption.
  constructor; [assumption|constructor; [assumption|constructor; [|constructor]]].
  destruct (getAllFieldsCell g); [assumption|lia].
Qed.

Lemma unregisterEffect_cases g :
  conditionalFields (unregisterEffect g) = conditionalFields g
  \/ exists v, conditionalFields (unregisterEffect g)
               = newConditionalFields (schema (props g)) v.
Proof.
  unfold unregisterEffect.
  pose proof (unregisterAndNotify_maps (schema (props g)) (conditionalFields g)
                (getAllFields (schema (props g))) (formValues g)) as Hmaps.
  destruct (unregisterAndNotify _ _ _ _) as [values news]. cbn [snd] in Hmaps.
  match goal with
  | |- context [applyUpdates news ?g0] =>
    destruct (applyUpdates_cases news g0) as [H|H]
  end.
  - left. exact H.
  - right. exact (proj1 (List.Forall_forall _ _) Hmaps _ H).
Qed.

(** The effect keeps the state in step with the store. *)
Lemma unregisterEffect_fresh g : fresh g -> fresh (unregisterEffect g).
Proof.
  intros Hg. unfold fresh.
  destruct (unregisterEffect_keeps g) as (-> & _ & _ & _ & _ & _ & ->).
  unfold unregisterEffect, unregisterHidden.
  rewrite <- (unregisterAndNotify_store (schema (props g))).
  destruct (unregisterAndNotify_news (schema (props g)) (conditionalFields g)
              (getAllFields (schema (props g))) (formValues g)) as [[Hn Hv]|[pre Hn]];
    destruct (unregisterAndNotify _ _ _ _) as [values news]; cbn [fst snd] in *; subst.
  - exact Hg.
  - apply applyUpdates_last.
Qed.

(** When the effect left another state object, the state is in step with
    the store, whatever it was before. *)
Lemma unregisterEffect_fresh_changed g :
  conditionalFieldsRef (unregisterEffect g) <> conditionalFieldsRef g ->
  fresh (unregisterEffect g).
Proof.
  intros Hne. unfold fresh.
  destruct (unregisterEffect_keeps g) as (-> & _ & _ & _ & _ & _ & ->).
  revert Hne. unfold unregisterEffect, unregisterHidden.
  rewrite <- (unregisterAndNotify_store (schema (props g))).
  destruct (unregisterAndNotify_news (schema (props g)) (conditionalFields g)
              (getAllFields (schema (props g))) (formValues g)) as [[Hn Hv]|[pre Hn]];
    destruct (unregisterAndNotify _ _ _ _) as [values news]; cbn [fst snd] in *; subst.
  - intros Hne. exfalso. apply Hne. reflexivity.
  - intros _. apply applyUpdates_last.
Qed.

Lemma unregisterEffect_size g :
  (size (formValues (unregisterEffect g)) <= size (formValues g))%nat.
Proof.
  destruct (unregisterEffect_keeps g) as (_ & _ & _ & _ & _ & _ & ->).
  unfold unregisterHidden. rewrite <- (unregisterAndNotify_store (schema (props g))).
  apply unregisterAndNotify_size.
Qed.

(** On an instance whose state is in step with the store, the effect
    leaves another state object only if it deleted an entry. *)
Lemma unregisterEffect_shrinks g :
  fresh g ->
  conditionalFieldsRef (unregisterEffect g) <> conditionalFieldsRef g ->
  (size (formValues (unregisterEffect g)) < size (formValues g))%nat.
Proof.
  intros Hg Hne. pose proof (unregisterEffect_size g) as Hle.
  destruct (decide (size (formValues (unregisterEffect g)) = size (formValues g)))
    as [E|E]; [exfalso|lia].
  apply Hne. clear Hne Hle. revert E.
  destruct (unregisterEffect_keeps g) as (_ & _ & _ & _ & _ & _ & ->).
  unfold unregisterEffect, unregisterHidden.
  rewrite <- (unregisterAndNotify_store (schema (props g))).
  pose proof (unregisterAndNotify_same (schema (props g)) (conditionalFields g)
                (getAllFields (schema (props g))) (formValues g)) as Hsame.
  destruct (unregisterAndNotify _ _ _ _) as [values news]. cbn [fst snd] in *.
  intros E. specialize (Hsame E).
  match goal with
  | |- conditionalFieldsRef (applyUpdates news ?g0) = _ =>
    destruct (applyUpdates_unchanged news g0) as [-> _]; [|reflexivity]
  end.
  simpl. eapply List.Forall_impl; [|exact Hsame].
  intros m ->. exact Hg.
Qed.

(** *** The effects after a render *)

(** What a run of the unregister effect and a render with the same props
    both keep, the effects keep. *)
Lemma effects_invariant (P : Generator -> Prop) fuel g :
  (forall g, P g -> P (unregisterEffect g)) ->
  (forall g, P g -> P (render dateTime (props g) g)) ->
  P g -> P (effects dateTime fuel g).
Proof.
  intros Heff Hrender. revert g.
  induction fuel as [|fuel IH]; intros g Hg; cbn [effects];
    repeat case_bool_decide; auto.
  apply IH. destruct (unregisterEffect_keeps g) as (<- & _). auto.
Qed.

Lemma effects_wf fuel g : wf g -> wf (effects dateTime fuel g).
Proof.
  apply effects_invariant; [apply unregisterEffect_wf|].
  intros g0. apply render_wf.
Qed.

Lemma effects_props fuel g : props (effects dateTime fuel g) = props g.
Proof.
  apply (effects_invariant (fun g0 => props g0 = props g)); [| |reflexivity].
  - intros g0 <-. apply unregisterEffect_keeps.
  - intros g0 <-. apply render_keeps.
Qed.

Lemma render_fresh g : fresh g -> fresh (render dateTime (props g) g).
Proof.
  unfold fresh. destruct (render_keeps (props g) g) as (-> & _ & -> & -> & _).
  intros H. exact H.
Qed.


Lemma effects_compilations fuel g :
  (compilations g <= compilations (effects dateTime fuel g))%nat.
Proof.
  apply (effects_invariant (fun g0 => (compilations g <= compilations g0)%nat));
    [| |reflexivity].
  - intros g0 H. destruct (unregisterEffect_keeps g0) as (_ & _ & _ & _ & -> & _).
    exact H.
  - intros g0 H. pose proof (render_compilations (props g0) g0). lia.
Qed.

(** With a render for every entry of the store the effects come to an
    end: the unregister effect has run with the dependencies of the
    instance. *)
Lemma effects_settled fuel g :
  fresh g -> (size (formValues g) <= fuel)%nat -> settled (effects dateTime fuel g).
Proof.
  revert g. induction fuel as [|fuel IH]; intros g Hg Hsize; cbn [effects].
  - case_bool_decide as Hd; [exact Hd|].
    case_bool_decide as Hr.
    + unfold settled, unregisterDepsOf.
      destruct (unregisterEffect_keeps g) as (_ & -> & -> & _ & _ & -> & _).
      rewrite Hr. reflexivity.
    + pose proof (unregisterEffect_shrinks g Hg Hr). lia.
  - case_bool_decide as Hd; [exact Hd|].
    case_bool_decide as Hr.
    + unfold settled, unregisterDepsOf.
      destruct (unregisterEffect_keeps g) as (_ & -> & -> & _ & _ & -> & _).
      rewrite Hr. reflexivity.
    + pose proof (unregisterEffect_shrinks g Hg Hr) as Hlt.
      destruct (unregisterEffect_keeps g) as (Hp & _).
      apply IH.
      * rewrite <- Hp. apply render_fresh, unregisterEffect_fresh, Hg.
      * destruct (render_keeps (props g) (unregisterEffect g)) as (_ & _ & -> & _). lia.
Qed.

Lemma commit_wf g : wf g -> wf (commit dateTime g).
Proof. apply effects_wf. Qed.

Lemma commit_props g : props (commit dateTime g) = props g.
Proof. apply effects_props. Qed.


Lemma commit_compilations g :
  (compilations g <= compilations (commit dateTime g))%nat.
Proof. apply effects_compilations. Qed.

(** The effects after a render always come to an end. *)
Lemma commit_settled g : settled (commit dateTime g).
Proof.
  unfold commit. cbn [effects].
  case_bool_decide as Hd; [exact Hd|].
  case_bool_decide as Hr.
  - unfold settled, unregisterDepsOf.
    destruct (unregisterEffect_keeps g) as (_ & -> & -> & _ & _ & -> & _).
    rewrite Hr. reflexivity.
  - destruct (unregisterEffect_keeps g) as (Hp & _).
    apply effects_settled.
    + rewrite <- Hp. apply render_fresh, unregisterEffect_fresh_changed, Hr.
    + destruct (render_keeps (props g) (unregisterEffect g)) as (_ & _ & -> & _).
      apply unregisterEffect_size.
Qed.

Lemma mount_wf p initialData : wf (mount dateTime p initialData).
Proof.
  unfold mount. apply commit_wf, render_wf.
  unfold wf; simpl. repeat split; lia.
Qed.

Lemma setValue_wf field v g : wf g -> wf (setValue field v g).
Proof. intros H. exact H. Qed.

Lemma published_wf g : wf g -> wf (published g).
Proof. intros Hg. apply bump_wf; [exact Hg|lia]. Qed.

(** *** Notifications *)

(** The callback of a notification is one state update. *)
Lemma notify_update g :
  notify dateTime g
  = let g1 :=
      setConditionalFields
        (newConditionalFields (schema (props g)) (formValues g)) g in
    if hasChanged (conditionalFields g)
         (newConditionalFields (schema (props g)) (formValues g))
    then commit dateTime (render dateTime (props g) g1)
    else g1.
Proof.
  unfold notify, setConditionalFields. cbv zeta.
  destruct (hasChanged _ _); reflexivity.
Qed.

Lemma notify_changed g :
  hasChanged (conditionalFields g)
    (newConditionalFields (schema (props g)) (formValues g)) = true ->
  notify dateTime g = commit dateTime (render dateTime (props g) (published g)).
Proof. intros H. unfold notify. rewrite H. reflexivity. Qed.

Lemma notify_wf g : wf g -> wf (notify dateTime g).
Proof.
  intros Hg. unfold notify. destruct (hasChanged _ _).
  - apply commit_wf, render_wf. exact (published_wf g Hg).
  - apply bump_wf; [exact Hg|]. destruct Hg. lia.
Qed.

Lemma notify_props g : props (notify dateTime g) = props g.
Proof.
  unfold notify. destruct (hasChanged _ _); [|reflexivity].
  rewrite commit_props. apply (render_keeps (props g) (published g)).
Qed.

(** Every instance that was mounted and went through actions is
    well-formed. *)
Lemma run_wf p initialData actions : wf (run dateTime p initialData actions).
Proof.
  unfold run. generalize (mount_wf p initialData).
  generalize (mount dateTime p initialData) as g.
  induction actions as [|a actions IH]; intros g Hg; simpl; [exact Hg|].
  apply IH. destruct a; simpl.
  - apply notify_wf, setValue_wf, Hg.
  - apply notify_wf, Hg.
  - unfold rerender. apply commit_wf, render_wf, Hg.
Qed.


(** A notification leaves an instance at rest at rest. *)
Lemma notify_settled g : settled g -> settled (notify dateTime g).
Proof.
  intros Hg. unfold notify. destruct (hasChanged _ _); [apply commit_settled|exact Hg].
Qed.

(** Every instance that was mounted and went through actions is at
    rest. *)
Lemma run_settled p initialData actions :
  settled (run dateTime p initialData actions).
Proof.
  unfold run.
  assert (settled (mount dateTime p initialData)) as H by apply commit_settled.
  revert H. generalize (mount dateTime p initialData) as g.
  induction actions as [|a actions IH]; intros g Hg; simpl; [exact Hg|].
  apply IH. destruct a; simpl.
  - exact (notify_settled (setValue field v g) Hg).
  - exact (notify_settled g Hg).
  - apply commit_settled.
Qed.


(** A notification that publishes a new map renders the component again,
    and every render compiles the ruleset. *)
Lemma notify_compilations g :
  wf g ->
  hasChanged (conditionalFields g)
    (newConditionalFields (schema (props g)) (formValues g)) = true ->
  (compilations g < compilations (notify dateTime g))%nat.
Proof.
  intros Hg Hch. rewrite (notify_changed g Hch).
  pose proof (render_recompiles (props g) (published g) (published_wf g Hg)) as Hc.
  pose proof (commit_compilations (render dateTime (props g) (published g))) as Hle.
  simpl in Hc. lia.
Qed.

End ComponentFacts.



(** Chained conditions: hiding [b] deletes its value, which hides [c]
    in the same cycle; the cycle ends with both hidden, their values gone,
    and the map in step with the store. *)
Example chained_conditions_settle :
  let before := run noDate chainProps ∅ chainSession in
  let g := valueChange noDate "a" (VStr "q") before in
  conditionalFields before = {[ "b" := true; "c" := true ]}
  /\ formValues before = {[ "a" := VStr "x"; "b" := VStr "y"; "c" := VStr "z" ]}
  /\ conditionalFields g = {[ "b" := false; "c" := false ]}
  /\ formValues g = {[ "a" := VStr "q" ]}
  /\ settled g.
Proof. cbv zeta. conjuncts; evaluate. Qed.

(** C3 (the code departs from it): on the shipping form the user picks
    international shipping, fills in the country, then switches to
    domestic shipping.  The visibility of the required field [country]
    flips to false and the unregister effect of the same cycle removes its
    value; the ruleset, compiled for all fields without regard to
    visibility, then fails on the removed value: submit-time validation
    reports "This field is required" at [country], a field that is not on
    the screen, and the form cannot be submitted. *)
Theorem C3_hidden_required_blocks :
  let before := run noDate shippingProps ∅ shippingSession in
  let g := valueChange noDate "shipTo" (VStr "domestic") before in
  isRequired country = true
  /\ conditionalFields before !! "country" = Some true
  /\ formValues before !! "country" = Some (VStr "FR")
  /\ conditionalFields g !! "country" = Some false
  /\ formValues g !! "country" = None
  /\ settled g
  /\ result (validate noRegex g)
     = mkParsed Dirty [mkIssue custom [Key "country"] "This field is required"].
Proof. cbv zeta. conjuncts; evaluate. Qed.

(** A value change that changes the visibility map renders the component
    again, and the render compiles the ruleset again, the [schema] of the
    props unchanged. *)
Lemma valueChange_recompiles dateTime g changed v :
  wf g ->
  hasChanged (conditionalFields g)
    (newConditionalFields (schema (props g)) (<[ changed := v ]> (formValues g)))
  = true ->
  props (valueChange dateTime changed v g) = props g
  /\ (compilations g < compilations (valueChange dateTime changed v g))%nat.
Proof.
  intros Hg Hch. unfold valueChange. split.
  - apply (notify_props dateTime (setValue changed v g)).
  - exact (notify_compilations dateTime (setValue changed v g) Hg Hch).
Qed.

(** C2 (the code departs from it): the shipping form is mounted, its
    effects have come to an end, and the [schema] object stays the same.
    The user picks domestic shipping: the value change flips the entry of
    [country] in the visibility map, the component renders again, and the
    ruleset is compiled again. *)
Theorem C2_value_change_recompiles :
  let g := mount noDate shippingProps ∅ in
  let g' := valueChange noDate "shipTo" (VStr "domestic") g in
  settled g
  /\ conditionalFields g = {[ "country" := true ]}
  /\ conditionalFields g' = {[ "country" := false ]}
  /\ schemaRef (props g') = schemaRef (props g)
  /\ schema (props g') = schema (props g)
  /\ (compilations g < compilations g')%nat.
Proof.
  assert (hasChanged (conditionalFields (mount noDate shippingProps ∅))
            (newConditionalFields (schema (props (mount noDate shippingProps ∅)))
               (<[ "shipTo" := VStr "domestic" ]>
                  (formValues (mount noDate shippingProps ∅)))) = true) as Hch
    by evaluate.
  cbv zeta. do 5 (split; [evaluate|]).
  exact (proj2 (valueChange_recompiles noDate (mount noDate shippingProps ∅)
                  "shipTo" (VStr "domestic") (mount_wf noDate shippingProps ∅) Hch)).
Qed.

(** ** Step orchestrator *)

(** C6: with the sections [[A; B]], [A] of two fields and [B] of one,
    submitting the data of step [A] moves to step [B] without submitting,
    and submitting the data of step [B] then submits, once, the merge of
    both: every key of either step, with the value of step [B] where both
    steps have the key. *)
Theorem C6_two_steps_merge
    (formTitle formDescription : string) (a1 a2 b1 : FormField)
    (dataA dataB : gmap string Value) :
  let schema :=
    mkFormSchema formTitle formDescription None
      (Some [mkFormSection "A" [a1; a2]; mkFormSection "B" [b1]]) in
  let stepA := handleStepSubmit schema dataA initialSteps in
  let stepB := handleStepSubmit schema dataB (snd stepA) in
  let merged := dataB ∪ dataA in
  fst stepA = []
  /\ currentStep (snd stepA) = 1
  /\ submissions (fst stepA ++ fst stepB)%list = [merged]
  /\ formData (snd stepB) = merged
  /\ dom merged = dom dataA ∪ dom dataB
  /\ (forall key, merged !! key
                  = match dataB !! key with
                    | Some vB => Some vB
                    | None => dataA !! key
                    end).
Proof.
  cbv zeta. unfold handleStepSubmit, initialSteps, stepSections. simpl.
  rewrite (right_id_L ∅ (∪) dataA).
  repeat split.
  - rewrite dom_union_L. apply (comm_L (∪)).
  - intros key. rewrite lookup_union. destruct (dataB !! key), (dataA !! key); reflexivity.
Qed.

(** The steps form of the specification's example at concrete data. *)
Example two_steps_three_keys :
  let schema :=
    mkFormSchema "Order" "" None
      (Some [mkFormSection "A" [shipTo; country]; mkFormSection "B" [phone]]) in
  let dataA := {[ "shipTo" := VStr "international"; "country" := VStr "FR" ]} in
  let dataB := {[ "phone" := VStr "123" ]} in
  submissions (fst (runSteps schema [SubmitStep dataA; SubmitStep dataB] initialSteps))
  = [ {[ "shipTo" := VStr "international"; "country" := VStr "FR";
         "phone" := VStr "123" ]} ].
Proof. evaluate. Qed.

(** Without sections the step index never goes below 0. *)
Lemma runSteps_no_sections schema actions st :
  stepSections schema = [] -> 0 <= currentStep st ->
  fst (runSteps schema actions st) = []
  /\ 0 <= currentStep (snd (runSteps schema actions st)).
Proof.
  intros Hs. revert st. induction actions as [|a actions IH]; intros st Hst; simpl.
  - split; [reflexivity|exact Hst].
  - destruct (stepAction schema a st) as [e1 st1] eqn:Ea.
    assert (e1 = [] /\ 0 <= currentStep st1) as [-> Hst1].
    { destruct a as [data|]; simpl in Ea.
      - unfold handleStepSubmit in Ea. rewrite Hs in Ea.
        change (Z.of_nat (length (@nil FormSection)) - 1) with (-1) in Ea.
        destruct (Z.eqb_spec (currentStep st) (-1)) as [Heq|_]; [lia|].
        inversion Ea; subst; simpl. split; [reflexivity|lia].
      - inversion Ea; subst. split; [reflexivity|].
        unfold handlePrevStep. destruct (Z.ltb_spec 0 (currentStep st)); simpl; lia. }
    destruct (runSteps schema actions st1) as [e2 st2] eqn:Er.
    specialize (IH st1 Hst1). rewrite Er in IH. simpl in *. exact IH.
Qed.

(** C10: when the schema has no [sections] entry, or an empty one, then
    whatever the user did before, nothing was submitted, and the next step
    submission only merges its data and increments the step index. *)
Theorem C10_no_sections_never_submits
    (schema : FormSchema) (actions : list StepAction) (data : gmap string Value) :
  sections schema = None \/ sections schema = Some [] ->
  let before := runSteps schema actions initialSteps in
  let st := snd before in
  submissions (fst before) = []
  /\ Z.of_nat (length (stepSections schema)) - 1 = -1
  /\ currentStep st <> -1
  /\ handleStepSubmit schema data st
     = ([], mkSteps (currentStep st + 1) (data ∪ formData st)).
Proof.
  intros Hs before st.
  assert (stepSections schema = []) as Hempty.
  { unfold stepSections. destruct Hs as [-> | ->]; reflexivity. }
  destruct (runSteps_no_sections schema actions initialSteps Hempty) as [Hev Hpos];
    [simpl; lia|].
  fold before in Hev, Hpos. fold st in Hpos.
  repeat split.
  - rewrite Hev. reflexivity.
  - rewrite Hempty. reflexivity.
  - lia.
  - unfold handleStepSubmit. rewrite Hempty.
    change (Z.of_nat (length (@nil FormSection)) - 1) with (-1).
    destruct (Z.eqb_spec (currentStep st) (-1)) as [Heq|_]; [lia|reflexivity].
Qed.

Lemma C10_no_sections_witness :
  (sections shippingSchema = None \/ sections shippingSchema = Some [])
  /\ (let before :=
        runSteps shippingSchema
          [SubmitStep {[ "shipTo" := VStr "domestic" ]}; PrevStep;
           SubmitStep {[ "shipTo" := VStr "domestic" ]}] initialSteps in
      let st := snd before in
      submissions (fst before) = []
      /\ Z.of_nat (length (stepSections shippingSchema)) - 1 = -1
      /\ currentStep st <> -1
      /\ handleStepSubmit shippingSchema {[ "shipTo" := VStr "domestic" ]} st
         = ([], mkSteps (currentStep st + 1)
                  ({[ "shipTo" := VStr "domestic" ]} ∪ formData st))).
Proof.
  split; [left; reflexivity|].
  exact (C10_no_sections_never_submits shippingSchema
           [SubmitStep {[ "shipTo" := VStr "domestic" ]}; PrevStep;
            SubmitStep {[ "shipTo" := VStr "domestic" ]}]
           {[ "shipTo" := VStr "domestic" ]} (or_introl eq_refl)).
Defined.

(** ** Validator compiler and submit-time validation *)

Lemma trace_bind {A B} (m : Eff A) (k : A -> Eff B) :
  trace (bind m k) = (trace m ++ trace (k (result m)))%list.
Proof.
  unfold bind, trace, result. destruct m as [e1 a]. simpl.
  destruct (k a) as [e2 b]. reflexivity.
Qed.

Lemma result_bind {A B} (m : Eff A) (k : A -> Eff B) :
  result (bind m k) = result (k (result m)).
Proof.
  unfold bind, result. destruct m as [e1 a]. simpl.
  destruct (k a) as [e2 b]. reflexivity.
Qed.

Section ParseFacts.

Variable regexTest : string -> string -> bool.

Lemma parseElements_fieldLevel parseElement p i xs :
  (forall p v, Forall isFieldEvent (trace (parseElement p v))) ->
  Forall isFieldEvent (trace (parseElements parseElement p i xs)).
Proof.
  intros H. revert i. induction xs as [|x xs IH]; intros i; simpl.
  - constructor.
  - rewrite trace_bind. apply Forall_app. split; [apply H|].
    rewrite trace_bind. apply Forall_app. split; [apply IH|constructor].
Qed.

(** Parsing a field-level node produces field events only. *)
Lemma parse_fieldLevel t :
  fieldLevel t -> forall p v, Forall isFieldEvent (trace (parse regexTest t p v)).
Proof.
  induction t as [checks|checks| | |element IH|inner IH|inner IH check msg];
    intros Hf p v; simpl.
  - destruct v; constructor.
  - destruct v; constructor.
  - destruct v; constructor.
  - constructor.
  - destruct v; try constructor.
    apply parseElements_fieldLevel. intros p' v'. apply IH. exact Hf.
  - destruct v; try constructor; apply IH; exact Hf.
  - destruct Hf as [Hinner Hcheck].
    rewrite trace_bind. apply Forall_app. split; [apply IH; exact Hinner|].
    destruct (status (result (parse regexTest inner p v))); try constructor.
    + rewrite trace_bind. apply Forall_app. split; [apply Hcheck|].
      destruct (result (check v)); constructor.
    + rewrite trace_bind. apply Forall_app. split; [apply Hcheck|].
      destruct (result (check v)); constructor.
Qed.

Lemma parseShape_fieldLevel sh data :
  Forall (fun kt => fieldLevel kt.2) sh ->
  Forall isFieldEvent (trace (parseShape regexTest sh data)).
Proof.
  induction 1 as [|[k t] sh Ht _ IH]; simpl; [constructor|].
  rewrite trace_bind. apply Forall_app. split; [apply parse_fieldLevel; exact Ht|].
  rewrite trace_bind. apply Forall_app. split; [exact IH|constructor].
Qed.

End ParseFacts.

Lemma objSet_Forall {A} (P : string * A -> Prop) obj key (t : A) :
  Forall P obj -> P (key, t) -> (forall k, P (k, t)) -> Forall P (objSet obj key t).
Proof.
  intros Hobj Hkt Hall. induction Hobj as [|[k t0] rest Hk Hrest IH]; simpl.
  - constructor; [exact Hkt|constructor].
  - destruct (String.eqb k key); constructor.
    + apply Hall.
    + exact Hrest.
    + exact Hk.
    + exact IH.
Qed.

Section CompilerFacts.

Variable customValidators : gmap string SyncValidator.
Variable asyncValidators : gmap string AsyncValidator.

Lemma asyncRefinement_fieldLevel name params asyncValidator v :
  Forall isFieldEvent (trace (asyncRefinement name params asyncValidator v)).
Proof.
  unfold asyncRefinement. destruct (truthy v); simpl; [|constructor].
  destruct (asyncValidator _); simpl; repeat constructor.
Qed.

Lemma optionalOrRequired_fieldLevel field base check msg :
  fieldLevel base -> fieldLevel (optionalOrRequired field base check msg).
Proof.
  intros Hb. unfold optionalOrRequired. destruct (isRequired field); simpl.
  - split; [exact Hb|]. intros v. constructor.
  - exact Hb.
Qed.

Lemma stringSchema_fieldLevel field :
  fieldLevel (stringSchema asyncValidators field).
Proof.
  unfold stringSchema. destruct (rule asyncValidator field) as [av|]; [|exact I].
  destruct (asyncValidators !! av_name av) as [f|]; [|exact I].
  simpl. split; [exact I|]. intros v. apply asyncRefinement_fieldLevel.
Qed.

Lemma fieldSchema_fieldLevel field :
  fieldLevel (fieldSchema asyncValidators field).
Proof.
  unfold fieldSchema. cbv zeta.
  repeat (match goal with
          | |- context [if String.eqb ?a ?b then _ else _] => destruct (String.eqb a b)
          end);
    apply optionalOrRequired_fieldLevel; try exact I.
  apply stringSchema_fieldLevel.
Qed.

Lemma schemaObj_fieldLevel (fields : list FormField) obj :
  Forall (fun kt : string * ZodType => fieldLevel kt.2) obj ->
  Forall (fun kt : string * ZodType => fieldLevel kt.2)
    (fold_left (fun obj field => objSet obj (name field)
                                   (fieldSchema asyncValidators field)) fields obj).
Proof.
  revert obj. induction fields as [|f fields IH]; intros obj Hobj; simpl; [exact Hobj|].
  apply IH. apply objSet_Forall; [exact Hobj| |intros k]; apply fieldSchema_fieldLevel.
Qed.

Lemma zodSchema_shape_fieldLevel schema :
  Forall (fun kt : string * ZodType => fieldLevel kt.2)
    (shape (zodSchema customValidators asyncValidators schema)).
Proof.
  unfold zodSchema. cbv zeta.
  destruct (flat_map _ _); simpl; apply schemaObj_fieldLevel; constructor.
Qed.

Lemma everyValidation_crossField validations data :
  Forall isCrossFieldEvent (trace (everyValidation customValidators validations data)).
Proof.
  induction validations as [|v rest IH]; simpl; [constructor|].
  rewrite trace_bind. apply Forall_app. split.
  - destruct (customValidators !! cf_validator v); simpl; repeat constructor.
  - match goal with |- context [if ?b then _ else _] => destruct b end;
      [exact IH|constructor].
Qed.

Lemma zodSchema_refinement_crossField schema rf data :
  refinement (zodSchema customValidators asyncValidators schema) = Some rf ->
  Forall isCrossFieldEvent (trace (refine_check rf data)).
Proof.
  unfold zodSchema. cbv zeta.
  destruct (flat_map _ _) as [|c l] eqn:E; simpl; [discriminate|].
  intros [= <-]. exact (everyValidation_crossField (c :: l) data).
Qed.

(** A validator missing from the synchronous registry is warned about
    and its validation counts as passed. *)
Lemma everyValidation_missing validation rest data :
  customValidators !! cf_validator validation = None ->
  everyValidation customValidators (validation :: rest) data
  = bind (emit (ConsoleWarn ("Validator " +:+ String "034" (cf_validator validation)
                               +:+ String "034" " not found")))
      (fun _ => everyValidation customValidators rest data).
Proof.
  intros Hm. cbn [everyValidation]. unfold SyncValidator in *. rewrite Hm.
  unfold bind, emit, ret.
  destruct (everyValidation customValidators rest data) as [e b]. reflexivity.
Qed.

(** A validator missing from the asynchronous registry attaches nothing
    to the field: the string schema is the one of a field that declares
    no asynchronous validator. *)
Lemma stringSchema_missing field av :
  rule asyncValidator field = Some av ->
  asyncValidators !! av_name av = None ->
  stringSchema asyncValidators field
  = ZString (minLengthCheck field ++ maxLengthCheck field ++ patternCheck field)%list.
Proof. intros H1 H2. unfold stringSchema. rewrite H1, H2. reflexivity. Qed.

(** The call that the asynchronous refinement makes: the value of the
    field, then one empty string per name in [params], whatever the
    snapshot holds for those names. *)
Lemma asyncRefinement_call name params asyncValidator val :
  truthy val = true ->
  exists rest,
    trace (asyncRefinement name params asyncValidator val)
    = AsyncValidatorCalled name (val :: List.map (fun _ => VStr "") params) :: rest.
Proof.
  intros Ht. unfold asyncRefinement. rewrite Ht. simpl.
  destruct (asyncValidator _); simpl; eexists; reflexivity.
Qed.

End CompilerFacts.

(** A refinement step: its effects are those of the check, its result the
    inner result or the inner result with one more issue. *)
Lemma refinement_step (m : Eff bool) (r extra : Parsed) :
  trace (bind m (fun ok => if ok then ret r else ret extra)) = trace m
  /\ result (bind m (fun ok => if ok then ret r else ret extra))
     = if result m then r else extra.
Proof.
  destruct m as [e b]. unfold bind, trace, result, ret. simpl.
  destruct b; simpl; rewrite app_nil_r; split; reflexivity.
Qed.

(** C7 (as amended): in a submit-time validation pass, everything the
    fields do, the calls of their asynchronous validators included, comes
    before anything the cross-field validators do; the issues of the fields
    are settled before the cross-field step adds its own. *)
Theorem C7_fields_before_cross_field
    (regexTest : string -> string -> bool)
    (customValidators : gmap string SyncValidator)
    (asyncValidators : gmap string AsyncValidator)
    (schema : FormSchema) (data : gmap string Value) :
  let rules := zodSchema customValidators asyncValidators schema in
  let perField := parseShape regexTest (shape rules) data in
  let whole := parseObject regexTest rules data in
  exists crossTrace crossIssues,
    trace whole = (trace perField ++ crossTrace)%list
    /\ issues (result whole) = (issues (result perField) ++ crossIssues)%list
    /\ Forall isFieldEvent (trace perField)
    /\ Forall isCrossFieldEvent crossTrace.
Proof.
  intros rules perField whole.
  pose proof (parseShape_fieldLevel regexTest (shape rules) data
                (zodSchema_shape_fieldLevel customValidators asyncValidators schema)) as Hf.
  fold perField in Hf.
  subst whole. unfold parseObject. fold perField.
  rewrite trace_bind, result_bind.
  set (r := result perField).
  destruct (refinement rules) as [rf|] eqn:Hrf.
  - pose proof (zodSchema_refinement_crossField customValidators asyncValidators
                  schema rf (stripped (shape rules) data) Hrf) as Hc.
    set (m := refine_check rf (stripped (shape rules) data)) in *.
    set (extra := mkParsed Dirty
                    (issues r ++ [mkIssue custom (List.map Key (refine_path rf))
                                    (refine_message rf)])%list).
    destruct (refinement_step m r extra) as [Ht Hr].
    destruct (status r).
    + rewrite Ht, Hr. exists (trace m).
      destruct (result m).
      * exists []. rewrite app_nil_r. auto.
      * exists [mkIssue custom (List.map Key (refine_path rf)) (refine_message rf)]. auto.
    + rewrite Ht, Hr. exists (trace m).
      destruct (result m).
      * exists []. rewrite app_nil_r. auto.
      * exists [mkIssue custom (List.map Key (refine_path rf)) (refine_message rf)]. auto.
    + exists [], []. simpl. rewrite !app_nil_r. auto.
  - exists [], []. simpl. rewrite !app_nil_r. auto.
Qed.

(** C7 (as stated) fails: on the sign-up form the asynchronous validator
    of [username] is called, and awaited, while the fields are parsed; the
    cross-field validator runs after it. *)
Lemma C7_async_before_cross_field :
  trace (parseObject noRegex (ruleset signupSchema) signupValues)
  = [AsyncValidatorCalled "isUsernameAvailable" [VStr "bob"];
     CustomValidatorCalled "passwordsMatch" signupValues ["password"; "confirmPassword"]].
Proof. evaluate. Qed.

(** C1 (the code departs from it): on the address form the store holds
    ["us"] for [country], the companion named in [params], and the validator
    is called with the empty string in its place; with it the postal code
    ["ABCDE"] passes, where the call with the value of the store answers
    false. *)
Theorem C1_async_companion_placeholder :
  get addressValues "country" = VStr "us"
  /\ parseObject noRegex (ruleset addressSchema) addressValues
     = ([AsyncValidatorCalled "isPostalCodeValid" [VStr "ABCDE"; VStr ""]],
        mkParsed Valid [])
  /\ isPostalCodeValid [VStr "ABCDE"; VStr "us"] = Some false.
Proof. conjuncts; evaluate. Qed.

(** What the refinement on the object reports when it fails: one issue,
    its message the messages of all the cross-field validations joined, its
    path the field names of all of them in a row. *)
Lemma zodSchema_refinement customValidators asyncValidators schema rf :
  refinement (zodSchema customValidators asyncValidators schema) = Some rf ->
  let validations :=
    flat_map (crossFieldValidation) (getAllFields schema) in
  refine_message rf = String.concat "; " (List.map cf_errorMessage validations)
  /\ refine_path rf = flat_map cf_fields validations.
Proof.
  unfold zodSchema. cbv zeta. destruct (flat_map _ _) eqn:E; simpl; [discriminate|].
  intros [= <-]. simpl. split; reflexivity.
Qed.

(** When the fields parse without a type mismatch and the cross-field
    validations fail, the pass adds exactly that one issue to the issues of
    the fields. *)
Lemma parseObject_cross_field_failure regexTest customValidators asyncValidators
    schema data rf :
  let rules := zodSchema customValidators asyncValidators schema in
  let perField := result (parseShape regexTest (shape rules) data) in
  refinement rules = Some rf ->
  status perField <> Aborted ->
  result (refine_check rf (stripped (shape rules) data)) = false ->
  issues (result (parseObject regexTest rules data))
  = (issues perField
       ++ [mkIssue custom
             (List.map Key
                (flat_map cf_fields (flat_map crossFieldValidation (getAllFields schema))))
             (String.concat "; "
                (List.map cf_errorMessage
                   (flat_map crossFieldValidation (getAllFields schema))))])%list.
Proof.
  intros rules perField Hrf Hst Hfail.
  destruct (zodSchema_refinement customValidators asyncValidators schema rf Hrf)
    as [Hmsg Hpath].
  unfold parseObject. rewrite result_bind. fold rules. rewrite Hrf. fold perField.
  set (extra := mkParsed Dirty
                  (issues perField ++ [mkIssue custom (List.map Key (refine_path rf))
                                         (refine_message rf)])%list).
  destruct (refinement_step (refine_check rf (stripped (shape rules) data)) perField extra)
    as [_ Hr].
  destruct (status perField); [| |congruence].
  - rewrite Hr, Hfail. unfold extra. simpl. rewrite Hmsg, Hpath. reflexivity.
  - rewrite Hr, Hfail. unfold extra. simpl. rewrite Hmsg, Hpath. reflexivity.
Qed.

(** C4 (the code departs from it): on the password form the failed
    validation yields a single issue whose path is [password] followed by
    [confirmPassword], a path into [password]; no issue is attached to the
    field [password] nor to the field [confirmPassword]. *)
Theorem C4_cross_field_single_issue :
  result (parseObject noRegex (ruleset passwordSchema) passwordValues)
  = mkParsed Dirty
      [mkIssue custom [Key "password"; Key "confirmPassword"] "Passwords must match"].
Proof. evaluate. Qed.

(** With two cross-field validations the one issue carries the messages
    and the fields of both, of the one that passed too. *)
Example account_issue :
  result (parseObject noRegex (ruleset accountSchema) accountValues)
  = mkParsed Dirty
      [mkIssue custom
         [Key "password"; Key "confirmPassword"; Key "email"; Key "confirmEmail"]
         "Passwords must match; Emails must match"].
Proof. evaluate. Qed.

(** C8 (the code departs from it): a field that names an asynchronous
    validator missing from the registry passes, and nothing is logged;
    with a synchronous validator missing from the registry the same field
    passes and the console is warned. *)
Theorem C8_missing_async_validator_silent :
  asyncValidators !! "isPhoneValid" = None
  /\ parseObject noRegex (ruleset phoneSchema) phoneValues = ([], mkParsed Valid [])
  /\ customValidators noDate !! "phoneIsValid" = None
  /\ parseObject noRegex (ruleset phoneCheckedSchema) phoneValues
     = ([ConsoleWarn ("Validator " +:+ String "034" ("phoneIsValid" +:+ String "034" " not found"))],
        mkParsed Valid []).
Proof. conjuncts; evaluate. Qed.

(** ** Checks of the model on the examples of the validators' module *)

Example us_zip : Regex.test Regex.usZip "12345-6789" = true.
Proof. reflexivity. Qed.

Example uk_postcode : Regex.test Regex.ukPostcode "SW1A 1AA" = true.
Proof. reflexivity. Qed.

Example ca_postal_code : Regex.test Regex.caPostalCode "K1A 0B1" = true.
Proof. reflexivity. Qed.

Example username_taken : isUsernameAvailable [VStr "admin"] = Some false.
Proof. reflexivity. Qed.

Example email_domain : isEmailDomainValid [VStr "a@b.com"] = Some true.
Proof. reflexivity. Qed.

(** The specification's example: the taken user name shows the field's
    configured message. *)
Example username_message :
  result (parseObject noRegex
            (ruleset (mkFormSchema "" ""
               (Some [mkFormField "username" "string"
                        (Some (mkValidationRules None None None None None None
                                 (Some "Name taken") None
                                 (Some (mkAsyncValidatorRef "isUsernameAvailable" None))))
                        None]) None))
            {[ "username" := VStr "admin" ]})
  = mkParsed Dirty [mkIssue custom [Key "username"] "Name taken"].
Proof. evaluate. Qed.

(** * Further properties of the code *)

(** ** Step orchestrator *)

Lemma handleStepSubmit_formData schema data st :
  formData (snd (handleStepSubmit schema data st)) = data ∪ formData st.
Proof.
  unfold handleStepSubmit. destruct (Z.eqb _ _); reflexivity.
Qed.

Lemma stepAction_range schema a st :
  stepSections schema <> [] ->
  0 <= currentStep st < Z.of_nat (length (stepSections schema)) ->
  0 <= currentStep (snd (stepAction schema a st))
    < Z.of_nat (length (stepSections schema)).
Proof.
  intros Hne Hr. destruct a as [data|]; simpl.
  - unfold handleStepSubmit.
    destruct (Z.eqb_spec (currentStep st) (Z.of_nat (length (stepSections schema)) - 1));
      simpl; lia.
  - unfold handlePrevStep. destruct (Z.ltb_spec 0 (currentStep st)); simpl; lia.
Qed.

Lemma runSteps_range schema actions st :
  stepSections schema <> [] ->
  0 <= currentStep st < Z.of_nat (length (stepSections schema)) ->
  0 <= currentStep (snd (runSteps schema actions st))
    < Z.of_nat (length (stepSections schema)).
Proof.
  intros Hne. revert st. induction actions as [|a actions IH]; intros st Hr; simpl.
  - exact Hr.
  - pose proof (stepAction_range schema a st Hne Hr) as H1.
    destruct (stepAction schema a st) as [e1 st1]. simpl in H1.
    specialize (IH st1 H1).
    destruct (runSteps schema actions st1) as [e2 st2]. exact IH.
Qed.

(** X1: with at least one section, whatever the user does (submit steps,
    go back), the step index stays inside the sections, so the schema of
    the current step always exists and its fields are those of the current
    section. *)
Theorem step_index_stays_in_range (schema : FormSchema) (actions : list StepAction) :
  stepSections schema <> [] ->
  let st := snd (runSteps schema actions initialSteps) in
  0 <= currentStep st < Z.of_nat (length (stepSections schema))
  /\ exists s stepSchema,
       sectionAt (stepSections schema) (currentStep st) = Some s
       /\ getCurrentStepSchema schema (currentStep st) = Some stepSchema
       /\ getAllFields stepSchema = section_fields s.
Proof.
  intros Hne st.
  assert (0 <= currentStep st < Z.of_nat (length (stepSections schema))) as Hr.
  { apply runSteps_range; [exact Hne|]. simpl.
    destruct (stepSections schema); [congruence|]. simpl length. lia. }
  split; [exact Hr|].
  unfold getCurrentStepSchema, sectionAt.
  destruct (Z.ltb_spec (currentStep st) 0) as [Hlt|_]; [lia|].
  destruct (nth_error (stepSections schema) (Z.to_nat (currentStep st))) as [s|] eqn:Hn.
  - exists s. eexists. split; [reflexivity|].
    destruct (stepSections schema); [congruence|]. split; [reflexivity|].
    unfold getAllFields. simpl. apply app_nil_r.
  - exfalso. apply nth_error_None in Hn. lia.
Qed.

Lemma step_index_stays_in_range_witness :
  stepSections threeSections <> []
  /\ (let st := snd (runSteps threeSections
                       [SubmitStep ∅; SubmitStep ∅; PrevStep; PrevStep; PrevStep] initialSteps) in
      0 <= currentStep st < Z.of_nat (length (stepSections threeSections))
      /\ exists s stepSchema,
           sectionAt (stepSections threeSections) (currentStep st) = Some s
           /\ getCurrentStepSchema threeSections (currentStep st) = Some stepSchema
           /\ getAllFields stepSchema = section_fields s).
Proof.
  assert (stepSections threeSections <> []) as Hne by discriminate.
  split; [exact Hne|].
  exact (step_index_stays_in_range threeSections
           [SubmitStep ∅; SubmitStep ∅; PrevStep; PrevStep; PrevStep] Hne).
Defined.

Lemma runSteps_submit_all schema datas st :
  datas <> [] ->
  0 <= currentStep st ->
  currentStep st + Z.of_nat (length datas) = Z.of_nat (length (stepSections schema)) ->
  submissions (fst (runSteps schema (List.map SubmitStep datas) st))
  = [mergeAll datas (formData st)]
  /\ formData (snd (runSteps schema (List.map SubmitStep datas) st))
     = mergeAll datas (formData st)
  /\ currentStep (snd (runSteps schema (List.map SubmitStep datas) st))
     = Z.of_nat (length (stepSections schema)) - 1.
Proof.
  revert st. induction datas as [|d datas IH]; intros st Hne Hpos Hlen; [congruence|].
  simpl List.map. cbn [runSteps stepAction].
  unfold handleStepSubmit.
  destruct (Z.eqb_spec (currentStep st) (Z.of_nat (length (stepSections schema)) - 1))
    as [Hlast|Hmid].
  - assert (datas = []) as ->.
    { destruct datas; [reflexivity|]. simpl length in Hlen. lia. }
    simpl. repeat split. exact Hlast.
  - assert (datas <> []) as Hne'.
    { intros ->. simpl length in Hlen. lia. }
    specialize (IH (mkSteps (currentStep st + 1) (d ∪ formData st)) Hne').
    simpl in IH. simpl length in Hlen.
    destruct IH as (H1 & H2 & H3); [lia|lia|].
    destruct (runSteps schema (List.map SubmitStep datas)
                (mkSteps (currentStep st + 1) (d ∪ formData st))) as [e2 st2].
    simpl in *. repeat split; assumption.
Qed.

Lemma find_app_last {A} (p : A -> bool) (l : list A) (x : A) :
  find p (l ++ [x]) = match find p l with
                      | Some y => Some y
                      | None => if p x then Some x else None
                      end.
Proof.
  induction l as [|a l IH]; simpl; [reflexivity|].
  destruct (p a); [reflexivity|exact IH].
Qed.

(** The merged payload, key by key: the value of the last data object that
    has the key, else the value of the data accumulated before. *)
Lemma mergeAll_lookup datas (formData : gmap string Value) key :
  mergeAll datas formData !! key
  = match find (fun d : gmap string Value => bool_decide (is_Some (d !! key)))
            (rev datas) with
    | Some d => d !! key
    | None => formData !! key
    end.
Proof.
  revert formData. induction datas as [|d datas IH]; intros formData; [reflexivity|].
  simpl rev. rewrite find_app_last. unfold mergeAll in *. simpl fold_left.
  rewrite IH. destruct (find _ (rev datas)); [reflexivity|].
  rewrite lookup_union. case_bool_decide as Hd.
  - destruct Hd as [v ->]. destruct (formData !! key); reflexivity.
  - apply eq_None_not_Some in Hd. rewrite Hd. destruct (formData !! key); reflexivity.
Qed.

(** X2: with n sections (n at least 1), submitting n steps in a row from
    the start submits exactly once, at the n-th step, and the payload is
    the merge of the n data objects in order, a later one winning on a
    shared key. *)
Theorem all_steps_submit_once (schema : FormSchema) (datas : list (gmap string Value)) :
  datas <> [] ->
  length datas = length (stepSections schema) ->
  submissions (fst (runSteps schema (List.map SubmitStep datas) initialSteps))
  = [mergeAll datas ∅]
  /\ (forall key,
        mergeAll datas ∅ !! key
        = match find (fun d : gmap string Value => bool_decide (is_Some (d !! key)))
                  (rev datas) with
          | Some d => d !! key
          | None => None
          end).
Proof.
  intros Hne Hlen.
  destruct (runSteps_submit_all schema datas initialSteps Hne) as (H1 & H2 & _).
  - simpl. lia.
  - simpl. lia.
  - split; [exact H1|]. intros key. rewrite mergeAll_lookup.
    destruct (find _ _); [reflexivity|apply lookup_empty].
Qed.

Lemma all_steps_submit_once_witness :
  [ ({[ "shipTo" := VStr "domestic" ]} : gmap string Value);
    {[ "password" := VStr "a" ]}; {[ "phone" := VStr "1" ]} ] <> []
  /\ length [ ({[ "shipTo" := VStr "domestic" ]} : gmap string Value);
              {[ "password" := VStr "a" ]}; {[ "phone" := VStr "1" ]} ]
     = length (stepSections threeSections)
  /\ submissions
       (fst (runSteps threeSections
               (List.map SubmitStep
                  [ ({[ "shipTo" := VStr "domestic" ]} : gmap string Value);
                    {[ "password" := VStr "a" ]}; {[ "phone" := VStr "1" ]} ])
               initialSteps))
     = [mergeAll [ ({[ "shipTo" := VStr "domestic" ]} : gmap string Value);
                   {[ "password" := VStr "a" ]}; {[ "phone" := VStr "1" ]} ] ∅].
Proof.
  assert ([ ({[ "shipTo" := VStr "domestic" ]} : gmap string Value);
            {[ "password" := VStr "a" ]}; {[ "phone" := VStr "1" ]} ] <> []) as Hne
    by discriminate.
  split; [exact Hne|]. split; [reflexivity|].
  exact (proj1 (all_steps_submit_once threeSections _ Hne eq_refl)).
Defined.

Lemma stepAction_keeps_keys schema a st :
  dom (formData st) ⊆ dom (formData (snd (stepAction schema a st)))
  /\ Forall (fun d => dom (formData st) ⊆ dom d)
       (submissions (fst (stepAction schema a st)))
  /\ (forall data, a = SubmitStep data ->
        dom data ⊆ dom (formData (snd (stepAction schema a st)))).
Proof.
  destruct a as [data|]; simpl.
  - unfold handleStepSubmit. destruct (Z.eqb _ _); simpl.
    + split; [|split].
      * rewrite dom_union. set_solver.
      * constructor; [|constructor]. rewrite dom_union. set_solver.
      * intros d [= <-]. rewrite dom_union. set_solver.
    + split; [|split].
      * rewrite dom_union. set_solver.
      * constructor.
      * intros d [= <-]. rewrite dom_union. set_solver.
  - unfold handlePrevStep. destruct (Z.ltb _ _); simpl;
      (split; [reflexivity|split; [constructor|intros d; discriminate]]).
Qed.

Lemma submissions_app e1 e2 :
  submissions (e1 ++ e2)%list = (submissions e1 ++ submissions e2)%list.
Proof. unfold submissions. apply flat_map_app. Qed.

(** X3: no action ever drops a key of the accumulated data: the keys held
    before a run of actions, and the keys of every data object submitted
    during it, are keys of the data held after it, and every payload
    submitted during the run has the keys held before it. *)
Theorem step_data_never_dropped
    (schema : FormSchema) (actions : list StepAction) (st : Steps) :
  let out := runSteps schema actions st in
  dom (formData st) ⊆ dom (formData (snd out))
  /\ Forall (fun a => match a with
                      | SubmitStep data => dom data ⊆ dom (formData (snd out))
                      | PrevStep => True
                      end) actions
  /\ Forall (fun payload => dom (formData st) ⊆ dom payload) (submissions (fst out)).
Proof.
  revert st. induction actions as [|a actions IH]; intros st; cbv zeta.
  - simpl. split; [reflexivity|split; constructor].
  - cbn [runSteps].
    destruct (stepAction_keeps_keys schema a st) as (Ha1 & Ha2 & Ha3).
    destruct (stepAction schema a st) as [e1 st1]. simpl in Ha1, Ha2, Ha3.
    specialize (IH st1). cbv zeta in IH. destruct IH as (H1 & H2 & H3).
    destruct (runSteps schema actions st1) as [e2 st2]. simpl in *.
    split; [|split].
    + set_solver.
    + constructor; [|exact H2].
      destruct a as [data|]; [|exact I].
      specialize (Ha3 data eq_refl). set_solver.
    + rewrite submissions_app. apply Forall_app. split; [exact Ha2|].
      eapply Forall_impl; [exact H3|]. simpl. intros payload Hp. set_solver.
Qed.

Lemma handleStepSubmit_last schema data st :
  currentStep st = Z.of_nat (length (stepSections schema)) - 1 ->
  handleStepSubmit schema data st
  = ([ConsoleLog "Form submitted:" (data ∪ formData st);
      Alert "Form submitted successfully!"],
     mkSteps (currentStep st) (data ∪ formData st)).
Proof.
  intros Hlast. unfold handleStepSubmit.
  destruct (Z.eqb_spec (currentStep st) (Z.of_nat (length (stepSections schema)) - 1));
    [reflexivity|congruence].
Qed.

Lemma handleStepSubmit_next schema data st :
  currentStep st <> Z.of_nat (length (stepSections schema)) - 1 ->
  handleStepSubmit schema data st
  = ([], mkSteps (currentStep st + 1) (data ∪ formData st)).
Proof.
  intros Hmid. unfold handleStepSubmit.
  destruct (Z.eqb_spec (currentStep st) (Z.of_nat (length (stepSections schema)) - 1));
    [congruence|reflexivity].
Qed.

(** X4: the orchestrator does not stop after it submitted: it stays on
    the last step, and each further submission there submits again, with
    the data merged so far. *)
Theorem last_step_submits_again
    (schema : FormSchema) (st : Steps) (d1 d2 : gmap string Value) :
  currentStep st = Z.of_nat (length (stepSections schema)) - 1 ->
  let out := runSteps schema [SubmitStep d1; SubmitStep d2] st in
  submissions (fst out) = [d1 ∪ formData st; d2 ∪ (d1 ∪ formData st)]
  /\ currentStep (snd out) = currentStep st.
Proof.
  intros Hlast. cbv zeta. cbn [runSteps stepAction].
  rewrite (handleStepSubmit_last schema d1 st Hlast). cbv beta iota.
  rewrite (handleStepSubmit_last schema d2
             (mkSteps (currentStep st) (d1 ∪ formData st)) Hlast).
  split; reflexivity.
Qed.

Lemma last_step_submits_again_witness :
  currentStep (mkSteps 2 ∅) = Z.of_nat (length (stepSections threeSections)) - 1
  /\ (let out := runSteps threeSections
                   [SubmitStep {[ "phone" := VStr "1" ]};
                    SubmitStep {[ "phone" := VStr "2" ]}] (mkSteps 2 ∅) in
      submissions (fst out)
      = [ {[ "phone" := VStr "1" ]} ∪ formData (mkSteps 2 ∅);
          {[ "phone" := VStr "2" ]} ∪ ({[ "phone" := VStr "1" ]} ∪ formData (mkSteps 2 ∅)) ]
      /\ currentStep (snd out) = currentStep (mkSteps 2 ∅)).
Proof.
  split; [reflexivity|].
  exact (last_step_submits_again threeSections (mkSteps 2 ∅)
           {[ "phone" := VStr "1" ]} {[ "phone" := VStr "2" ]} eq_refl).
Defined.

(** ** Condition evaluator: the leaf operators *)

(** X5: on a leaf, [notEquals] is the negation of [equals] and
    [isNotEmpty] the negation of [isEmpty], for every value of the field
    and every literal. *)
Theorem leaf_negations
    (field : string) (value : option Scalar) (values : gmap string Value) :
  let leaf op := mkConditionalLogic field (Some op) value None None None in
  evaluateCondition (leaf "notEquals") values
  = negb (evaluateCondition (leaf "equals") values)
  /\ evaluateCondition (leaf "isNotEmpty") values
     = negb (evaluateCondition (leaf "isEmpty") values).
Proof.
  cbv zeta. split; [reflexivity|].
  cbn [evaluateCondition]. destruct (get values field) as [| |s|n|b|xs]; try reflexivity.
  destruct xs; reflexivity.
Qed.

(** X6: [notContains] is the negation of [contains] only when the value of
    the field is a string or an array; on any other value (a number, a
    boolean, [null], an absent value) both are false. *)
Theorem contains_and_notContains
    (field : string) (value : option Scalar) (values : gmap string Value) :
  let leaf op := mkConditionalLogic field (Some op) value None None None in
  match get values field with
  | VStr _ | VArr _ =>
    evaluateCondition (leaf "notContains") values
    = negb (evaluateCondition (leaf "contains") values)
  | _ =>
    evaluateCondition (leaf "contains") values = false
    /\ evaluateCondition (leaf "notContains") values = false
  end.
Proof.
  cbv zeta. cbn [evaluateCondition].
  destruct (get values field); try (split; reflexivity); reflexivity.
Qed.

(** X7: on a number compared with a number, exactly one of [greaterThan],
    [lessThan] and [equals] holds; as soon as the value of the field or
    the literal is not a number, [greaterThan] and [lessThan] are both
    false. *)
Theorem numeric_comparisons
    (field : string) (value : option Scalar) (values : gmap string Value) :
  let leaf op := mkConditionalLogic field (Some op) value None None None in
  let gt := evaluateCondition (leaf "greaterThan") values in
  let lt := evaluateCondition (leaf "lessThan") values in
  let eq := evaluateCondition (leaf "equals") values in
  match get values field, value with
  | VNum _, Some (SNum _) =>
    (gt = true /\ lt = false /\ eq = false)
    \/ (gt = false /\ lt = true /\ eq = false)
    \/ (gt = false /\ lt = false /\ eq = true)
  | _, _ => gt = false /\ lt = false
  end.
Proof.
  cbv zeta. cbn [evaluateCondition].
  destruct (get values field) as [| |s|a|b|xs]; destruct value as [[s'|b'|b']|];
    try (split; reflexivity).
  simpl.
  destruct (Z.ltb_spec b' a), (Z.ltb_spec a b'), (Z.eqb_spec a b'); try lia; tauto.
Qed.

(** X8: the [equals] alias takes precedence on a leaf: when it is present
    the result is the comparison with it, whatever [operator] and [value]
    say; and a leaf with no operator compares with [value]. *)
Theorem equals_alias_precedence
    (field : string) (operator : option string) (value : option Scalar)
    (e : Scalar) (lo : option string) (values : gmap string Value) :
  evaluateCondition (mkConditionalLogic field operator value (Some e) None lo) values
  = strict_eq (get values field) (ofScalar e)
  /\ evaluateCondition (mkConditionalLogic field operator value (Some e) (Some []) lo) values
     = strict_eq (get values field) (ofScalar e)
  /\ evaluateCondition (mkConditionalLogic field None value None None lo) values
     = strict_eq (get values field) (optValue value).
Proof. repeat split. Qed.

Lemma flat_map_In_sub {A B} (f : A -> list B) (l : list A) (x : A) (y : B) :
  In x l -> In y (f x) -> In y (flat_map f l).
Proof. intros Hx Hy. apply in_flat_map. exists x. split; assumption. Qed.

(** X9: the evaluation of a condition reads the snapshot only at the
    fields of its leaves: two snapshots that agree there give the same
    result, at any depth of nesting. *)
Theorem evaluation_reads_referenced_fields
    (c : ConditionalLogic) (values1 values2 : gmap string Value) :
  (forall f, In f (referencedFields c) -> get values1 f = get values2 f) ->
  evaluateCondition c values1 = evaluateCondition c values2.
Proof.
  revert c. fix IH 1. intros [field operator value equals conditions lo] H.
  destruct conditions as [[|c0 cs]|].
  - cbn [evaluateCondition]. rewrite (H field (or_introl eq_refl)). reflexivity.
  - assert (List.map (fun c => evaluateCondition c values1) (c0 :: cs)
            = List.map (fun c => evaluateCondition c values2) (c0 :: cs)) as Hmap.
    { cbn [referencedFields] in H.
      revert H. generalize (c0 :: cs) as l. clear c0 cs.
      induction l as [|c1 l IHl]; intros H; [reflexivity|].
      simpl. f_equal.
      - apply IH. intros f Hf. apply H. simpl. apply in_or_app. left. exact Hf.
      - apply IHl. intros f Hf. apply H. simpl. apply in_or_app. right. exact Hf. }
    cbn [evaluateCondition]. rewrite Hmap. reflexivity.
  - cbn [evaluateCondition]. rewrite (H field (or_introl eq_refl)). reflexivity.
Qed.

Lemma evaluation_reads_referenced_fields_witness :
  (forall f,
      In f (referencedFields
              (mkConditionalLogic "" None None None
                 (Some [mkConditionalLogic "shipTo" (Some "equals") (Some (SStr "x"))
                          None None None]) (Some "or"))) ->
      get ({[ "shipTo" := VStr "x" ]} : gmap string Value) f
      = get ({[ "shipTo" := VStr "x"; "other" := VNum 1 ]} : gmap string Value) f)
  /\ evaluateCondition
       (mkConditionalLogic "" None None None
          (Some [mkConditionalLogic "shipTo" (Some "equals") (Some (SStr "x"))
                   None None None]) (Some "or"))
       {[ "shipTo" := VStr "x" ]}
     = evaluateCondition
         (mkConditionalLogic "" None None None
            (Some [mkConditionalLogic "shipTo" (Some "equals") (Some (SStr "x"))
                     None None None]) (Some "or"))
         {[ "shipTo" := VStr "x"; "other" := VNum 1 ]}.
Proof.
  assert (forall f,
      In f (referencedFields
              (mkConditionalLogic "" None None None
                 (Some [mkConditionalLogic "shipTo" (Some "equals") (Some (SStr "x"))
                          None None None]) (Some "or"))) ->
      get ({[ "shipTo" := VStr "x" ]} : gmap string Value) f
      = get ({[ "shipTo" := VStr "x"; "other" := VNum 1 ]} : gmap string Value) f) as H.
  { intros f [<-|[]]. vm_compute. reflexivity. }
  split; [exact H|].
  exact (evaluation_reads_referenced_fields _ _ _ H).
Defined.

(** X10: an operator outside the eight known names is not an error: the
    leaf compares for equality, exactly as with [equals]. *)
Theorem unknown_operator_compares_for_equality
    (field o : string) (value : option Scalar) (lo : option string)
    (values : gmap string Value) :
  ~ In o knownOperators ->
  evaluateCondition (mkConditionalLogic field (Some o) value None None lo) values
  = evaluateCondition (mkConditionalLogic field (Some "equals") value None None lo) values.
Proof.
  intros Hk. cbn [evaluateCondition].
  assert (o <> "equals" /\ o <> "notEquals" /\ o <> "greaterThan" /\ o <> "lessThan"
          /\ o <> "contains" /\ o <> "notContains" /\ o <> "isEmpty" /\ o <> "isNotEmpty")
    as (H1 & H2 & H3 & H4 & H5 & H6 & H7 & H8).
  { unfold knownOperators in Hk. simpl in Hk. repeat split; intros ->; tauto. }
  clear Hk.
  generalize (strict_eq (get values field) (optValue value)) as dflt.
  generalize (negb (strict_eq (get values field) (optValue value))) as r2.
  generalize (match get values field with
              | VNum a => match optValue value with VNum b => (b <? a) | _ => false end
              | _ => false end) as r3.
  intros r3 r2 dflt.
  repeat (match goal with
          | |- context [match ?x with _ => _ end] =>
            is_var x; destruct x; try reflexivity; try congruence
          end).
Qed.

Lemma unknown_operator_witness :
  ~ In "between" knownOperators
  /\ evaluateCondition
       (mkConditionalLogic "age" (Some "between") (Some (SNum 3)) None None None)
       {[ "age" := VNum 3 ]}
     = evaluateCondition
         (mkConditionalLogic "age" (Some "equals") (Some (SNum 3)) None None None)
         {[ "age" := VNum 3 ]}.
Proof.
  assert (~ In "between" knownOperators) as Hk.
  { intros H. simpl in H. repeat (destruct H as [H|H]; [discriminate H|]). exact H. }
  split; [exact Hk|].
  exact (unknown_operator_compares_for_equality "age" "between" (Some (SNum 3)) None
           {[ "age" := VNum 3 ]} Hk).
Defined.

(** ** Validator compiler: what a field accepts *)

(** Case analysis on the type tag of a field, in the order of the
    compiler's [switch]. *)
Ltac by_type :=
  repeat (match goal with
          | |- context [if String.eqb (type ?f) ?t then _ else _] =>
            destruct (String.eqb_spec (type f) t); cbv iota
          end).

(** X11: an absent value passes every field that is not required, of any
    type and with any rules, and fails every required field with exactly
    one issue at the field's path, carrying the field's [errorMessage] or
    the default of its type; nothing is called or logged for it. *)
Theorem absent_value
    (regexTest : string -> string -> bool)
    (asyncValidators : gmap string AsyncValidator)
    (field : FormField) (p : list PathSeg) :
  parse regexTest (fieldSchema asyncValidators field) p VUndefined
  = ([], if isRequired field
         then mkParsed Dirty [mkIssue custom p (requiredMessage field)]
         else mkParsed Valid []).
Proof.
  unfold fieldSchema, requiredMessage, optionalOrRequired. cbv zeta.
  destruct (isRequired field).
  - by_type; try reflexivity; try congruence.
    all: match goal with
         | H : type ?f = _, H' : type ?f = _ |- _ => rewrite H in H'; discriminate H'
         end.
  - by_type; reflexivity.
Qed.

(** X12: [null] is never accepted: for a field of any type, required or
    not, the value [null] stops at the type check with the one issue
    "Expected ..., received null", and the [required] refinement, which
    also tests for [null], is not reached. *)
Theorem null_is_a_type_mismatch
    (regexTest : string -> string -> bool)
    (asyncValidators : gmap string AsyncValidator)
    (field : FormField) (p : list PathSeg) :
  parse regexTest (fieldSchema asyncValidators field) p VNull
  = ([], mkParsed Aborted
           [mkIssue invalid_type p
              ("Expected " +:+ expectedType field +:+ ", received null")]).
Proof.
  unfold fieldSchema, expectedType, optionalOrRequired, stringSchema. cbv zeta.
  destruct (isRequired field);
    by_type; try reflexivity; try congruence;
    try (destruct (rule asyncValidator field) as [av|];
         [destruct (asyncValidators !! av_name av)|]; reflexivity);
    match goal with
    | H : type ?f = _, H' : type ?f = _ |- _ => rewrite H in H'; discriminate H'
    end.
Qed.

Lemma numberCheck_min p x n msg :
  numberCheck p x (CheckMin n msg) = [] <-> n <= x.
Proof. simpl. destruct (Z.ltb_spec x n); split; intros; try lia; congruence. Qed.

Lemma numberCheck_max p x n msg :
  numberCheck p x (CheckMax n msg) = [] <-> x <= n.
Proof. simpl. destruct (Z.ltb_spec n x); split; intros; try lia; congruence. Qed.

Lemma ofIssues_valid found : status (ofIssues found) = Valid <-> found = [].
Proof. destruct found; simpl; split; intros; congruence. Qed.

(** A refinement whose check passes silently changes nothing. *)
Lemma parse_refine_pass regexTest inner check msg p v :
  check v = ([], true) ->
  parse regexTest (ZRefine inner check msg) p v = parse regexTest inner p v.
Proof.
  intros Hc. cbn [parse]. destruct (parse regexTest inner p v) as [e r].
  unfold bind, ret. simpl. rewrite Hc.
  destruct (status r); simpl; rewrite ?app_nil_r; reflexivity.
Qed.

(** A refinement whose check fails silently adds its issue, unless the
    inner parse aborted. *)
Lemma parse_refine_fail regexTest inner check msg p v :
  check v = ([], false) ->
  parse regexTest (ZRefine inner check msg) p v
  = let '(e, r) := parse regexTest inner p v in
    (e, match status r with
        | Aborted => r
        | _ => mkParsed Dirty (issues r ++ [mkIssue custom p msg])%list
        end).
Proof.
  intros Hc. cbn [parse]. destruct (parse regexTest inner p v) as [e r].
  unfold bind, ret. simpl. rewrite Hc.
  destruct (status r); simpl; rewrite ?app_nil_r; reflexivity.
Qed.

(** What the compiled schema of a number field does with a number. *)
Lemma number_field_parse regexTest asyncValidators field p x :
  type field = "number" ->
  parse regexTest (fieldSchema asyncValidators field) p (VNum x)
  = ([], ofIssues (flat_map (numberCheck p x) (minCheck field ++ maxCheck field))).
Proof.
  intros Ht. unfold fieldSchema. cbv zeta. rewrite Ht.
  cbn [String.eqb Ascii.eqb Bool.eqb]. cbv iota.
  unfold optionalOrRequired. destruct (isRequired field).
  - rewrite parse_refine_pass by reflexivity. reflexivity.
  - reflexivity.
Qed.

(** X13: a number field accepts the number x exactly when x is at least
    its [min] and at most its [max], both bounds included and each applied
    only if present (a bound of 0 is a bound); being required adds nothing
    for a number, and nothing is called or logged. *)
Theorem number_bounds
    (regexTest : string -> string -> bool)
    (asyncValidators : gmap string AsyncValidator)
    (field : FormField) (p : list PathSeg) (x : Z) :
  type field = "number" ->
  trace (parse regexTest (fieldSchema asyncValidators field) p (VNum x)) = []
  /\ (status (result (parse regexTest (fieldSchema asyncValidators field) p (VNum x)))
      = Valid
      <-> (forall a, rule min field = Some a -> a <= x)
          /\ (forall b, rule max field = Some b -> x <= b)).
Proof.
  intros Ht. rewrite (number_field_parse regexTest asyncValidators field p x Ht).
  split; [reflexivity|]. unfold result. cbn [snd].
  rewrite ofIssues_valid, flat_map_app. unfold minCheck, maxCheck.
  destruct (rule min field) as [a|], (rule max field) as [b|]; cbn [flat_map app];
    rewrite ?app_nil_r.
  - split.
    + intros H. apply app_eq_nil in H as [H1 H2].
      apply numberCheck_min in H1. apply numberCheck_max in H2.
      split; intros ? [= <-]; assumption.
    + intros [H1 H2]. specialize (H1 a eq_refl). specialize (H2 b eq_refl).
      apply numberCheck_min with (p := p) (msg := orElse (rule errorMessage field)
        ("Must be at least " +:+ pretty a)) in H1.
      apply numberCheck_max with (p := p) (msg := orElse (rule errorMessage field)
        ("Must be at most " +:+ pretty b)) in H2.
      rewrite H1, H2. reflexivity.
  - rewrite numberCheck_min. split.
    + intros H. split; [intros ? [= <-]; exact H|intros ? [=]].
    + intros [H1 _]. exact (H1 a eq_refl).
  - rewrite numberCheck_max. split.
    + intros H. split; [intros ? [=]|intros ? [= <-]; exact H].
    + intros [_ H2]. exact (H2 b eq_refl).
  - split; [intros _; split; intros ? [=]|reflexivity].
Qed.

Lemma number_bounds_witness :
  type ageField = "number"
  /\ trace (parse noRegex (fieldSchema asyncValidators ageField) [Key "age"] (VNum 18)) = []
  /\ (status (result (parse noRegex (fieldSchema asyncValidators ageField) [Key "age"]
                        (VNum 18))) = Valid
      <-> (forall a, rule min ageField = Some a -> a <= 18)
          /\ (forall b, rule max ageField = Some b -> 18 <= b)).
Proof.
  split; [reflexivity|].
  exact (number_bounds noRegex asyncValidators ageField [Key "age"] 18 eq_refl).
Defined.

Lemma lengthChecks_pass regexTest field p s :
  flat_map (stringCheck regexTest p s) (minLengthCheck field ++ maxLengthCheck field) = []
  <-> (forall n, rule minLength field = Some n -> n <= Z.of_nat (String.length s))
      /\ (forall m, rule maxLength field = Some m -> m <> 0 ->
            Z.of_nat (String.length s) <= m).
Proof.
  rewrite flat_map_app. unfold minLengthCheck, maxLengthCheck, truthyNumber.
  set (len := Z.of_nat (String.length s)).
  assert (0 <= len) as Hlen by (unfold len; lia).
  destruct (rule minLength field) as [n|], (rule maxLength field) as [m|];
    repeat match goal with
           | |- context [Z.eqb ?a 0] => destruct (Z.eqb_spec a 0)
           end;
    cbn [flat_map app stringCheck]; fold len;
    repeat match goal with
           | |- context [Z.ltb ?a ?b] => destruct (Z.ltb_spec a b)
           end;
    cbn [app];
    (split;
     [ intros Hx;
       first [ discriminate Hx
             | split; [intros ? Hy | intros ? Hy ?];
               first [discriminate Hy | injection Hy as <-; lia] ]
     | intros [Hx1 Hx2];
       first [ reflexivity
             | exfalso;
               try (specialize (Hx1 _ eq_refl)); try (specialize (Hx2 _ eq_refl)); lia ] ]).
Qed.

Lemma notEmptyString_string s : notEmptyString (VStr s) = negb (String.eqb s "").
Proof. reflexivity. Qed.

(** X14: a textarea accepts the text s exactly when its length is at
    least [minLength], at most [maxLength] unless [maxLength] is 0 (a
    [maxLength] of 0 is ignored: the compiler tests the bound for
    truthiness), and, if the field is required, s is not empty. *)
Theorem textarea_length_bounds
    (regexTest : string -> string -> bool)
    (asyncValidators : gmap string AsyncValidator)
    (field : FormField) (p : list PathSeg) (s : string) :
  type field = "textarea" ->
  trace (parse regexTest (fieldSchema asyncValidators field) p (VStr s)) = []
  /\ (status (result (parse regexTest (fieldSchema asyncValidators field) p (VStr s)))
      = Valid
      <-> (forall n, rule minLength field = Some n -> n <= Z.of_nat (String.length s))
          /\ (forall m, rule maxLength field = Some m -> m <> 0 ->
                Z.of_nat (String.length s) <= m)
          /\ (isRequired field = true -> s <> "")).
Proof.
  intros Ht. unfold fieldSchema. cbv zeta. rewrite Ht.
  cbn [String.eqb Ascii.eqb Bool.eqb]. cbv iota.
  pose proof (lengthChecks_pass regexTest field p s) as Hb.
  unfold optionalOrRequired. destruct (isRequired field).
  - destruct (String.eqb_spec s "") as [->|Hne].
    + rewrite parse_refine_fail by reflexivity. cbn [parse].
      set (found := flat_map _ _) in *. unfold ret, trace, result. cbn [fst snd].
      split; [reflexivity|].
      split.
      * destruct found; simpl; discriminate.
      * intros (_ & _ & H). exfalso. exact (H eq_refl eq_refl).
    + rewrite parse_refine_pass
        by (unfold pure, ret; rewrite notEmptyString_string;
            destruct (String.eqb_spec s ""); [congruence|reflexivity]).
      cbn [parse]. unfold ret, trace, result. cbn [fst snd].
      split; [reflexivity|]. rewrite ofIssues_valid, Hb.
      split; [intros [H1 H2]; repeat split; auto|intros (H1 & H2 & _); split; auto].
  - cbn [parse]. unfold ret, trace, result. cbn [fst snd].
    split; [reflexivity|]. rewrite ofIssues_valid, Hb.
    split; [intros [H1 H2]; repeat split; auto; discriminate
           |intros (H1 & H2 & _); split; auto].
Qed.

Lemma textarea_length_bounds_witness :
  type commentField = "textarea"
  /\ trace (parse noRegex (fieldSchema asyncValidators commentField) [Key "comment"]
             (VStr "a long comment")) = []
  /\ (status (result (parse noRegex (fieldSchema asyncValidators commentField)
                        [Key "comment"] (VStr "a long comment"))) = Valid
      <-> (forall n, rule minLength commentField = Some n ->
             n <= Z.of_nat (String.length "a long comment"))
          /\ (forall m, rule maxLength commentField = Some m -> m <> 0 ->
                Z.of_nat (String.length "a long comment") <= m)
          /\ (isRequired commentField = true -> "a long comment" <> "")).
Proof.
  split; [reflexivity|].
  exact (textarea_length_bounds noRegex asyncValidators commentField [Key "comment"]
           "a long comment" eq_refl).
Defined.

(** The text passes although [maxLength] is 0. *)
Example maxLength_zero_is_ignored :
  parse noRegex (fieldSchema asyncValidators commentField) [Key "comment"]
    (VStr "a long comment")
  = ([], mkParsed Valid []).
Proof. reflexivity. Qed.

(** What the compiled schema of a string field bound to a registered
    asynchronous validator does with a non-empty string. *)
Lemma async_field_parse regexTest asyncValidators field p s ref f :
  type field = "string" ->
  rule asyncValidator field = Some ref ->
  asyncValidators !! av_name ref = Some f ->
  s <> "" ->
  let args := VStr s :: List.map (fun _ : string => VStr "") (default [] (params ref)) in
  let base :=
    flat_map (stringCheck regexTest p s)
      (minLengthCheck field ++ maxLengthCheck field ++ patternCheck field) in
  let failure :=
    mkIssue custom p
      (orElse (rule errorMessage field) ("Validation failed for " +:+ name field)) in
  parse regexTest (fieldSchema asyncValidators field) p (VStr s)
  = (AsyncValidatorCalled (av_name ref) args
       :: match f args with
          | Some _ => []
          | None => [ConsoleError ("Error in async validator " +:+ av_name ref +:+ ":")]
          end,
     match f args with
     | Some true => ofIssues base
     | _ => mkParsed Dirty (base ++ [failure])
     end).
Proof.
  intros Ht Hr Hf Hs args base failure.
  unfold fieldSchema. cbv zeta. rewrite Ht.
  cbn [String.eqb Ascii.eqb Bool.eqb]. cbv iota.
  assert (parse regexTest (ZOptional (stringSchema asyncValidators field)) p (VStr s)
          = (AsyncValidatorCalled (av_name ref) args
               :: match f args with
                  | Some _ => []
                  | None => [ConsoleError ("Error in async validator " +:+ av_name ref +:+ ":")]
                  end,
             match f args with
             | Some true => ofIssues base
             | _ => mkParsed Dirty (base ++ [failure])
             end)) as Hinner.
  { unfold stringSchema. rewrite Hr. unfold AsyncValidator in *. rewrite Hf.
    cbn [parse]. fold base. unfold asyncRefinement.
    assert (truthy (VStr s) = true) as ->.
    { simpl. destruct (String.eqb_spec s ""); [congruence|reflexivity]. }
    cbn [negb]. cbv iota. fold args.
    unfold bind, ret, emit. simpl.
    destruct (f args) as [[|]|]; destruct base; reflexivity. }
  unfold optionalOrRequired. destruct (isRequired field).
  - rewrite parse_refine_pass; [exact Hinner|].
    unfold pure, ret. rewrite notEmptyString_string.
    destruct (String.eqb_spec s ""); [congruence|reflexivity].
  - exact Hinner.
Qed.

(** X15: the asynchronous validator of a string field is called exactly
    when the value is a non-empty string, and then once, with the value and
    the placeholders, even when the value already failed the length or
    pattern checks; for an empty string, an absent value or a value of
    another type it is not called.  A rejection is logged, not thrown. *)
Theorem async_validator_call_policy
    (regexTest : string -> string -> bool)
    (asyncValidators : gmap string AsyncValidator)
    (field : FormField) (p : list PathSeg) (v : Value)
    (ref : AsyncValidatorRef) (f : AsyncValidator) :
  type field = "string" ->
  rule asyncValidator field = Some ref ->
  asyncValidators !! av_name ref = Some f ->
  let args := v :: List.map (fun _ : string => VStr "") (default [] (params ref)) in
  trace (parse regexTest (fieldSchema asyncValidators field) p v)
  = match v with
    | VStr s =>
      if String.eqb s "" then []
      else AsyncValidatorCalled (av_name ref) args
             :: match f args with
                | Some _ => []
                | None =>
                  [ConsoleError ("Error in async validator " +:+ av_name ref +:+ ":")]
                end
    | _ => []
    end.
Proof.
  intros Ht Hr Hf args.
  destruct v as [| |s|n|b|xs];
    try (unfold fieldSchema; cbv zeta; rewrite Ht;
         cbn [String.eqb Ascii.eqb Bool.eqb]; cbv iota;
         unfold optionalOrRequired, stringSchema; rewrite Hr;
         unfold AsyncValidator in *; rewrite Hf;
         destruct (isRequired field); reflexivity).
  destruct (String.eqb_spec s "") as [->|Hs].
  - unfold fieldSchema. cbv zeta. rewrite Ht.
    cbn [String.eqb Ascii.eqb Bool.eqb]. cbv iota.
    unfold optionalOrRequired, stringSchema. rewrite Hr.
    unfold AsyncValidator in *. rewrite Hf.
    destruct (isRequired field); cbn [parse]; unfold asyncRefinement, pure;
      cbn [truthy String.eqb negb]; cbv iota;
      set (found := flat_map _ _); unfold bind, ret, trace;
      destruct found; reflexivity.
  - rewrite (async_field_parse regexTest asyncValidators field p s ref f Ht Hr Hf Hs).
    reflexivity.
Qed.

Lemma async_validator_call_policy_witness :
  type handleField = "string"
  /\ rule asyncValidator handleField = Some (mkAsyncValidatorRef "isUsernameAvailable" None)
  /\ asyncValidators !! av_name (mkAsyncValidatorRef "isUsernameAvailable" None)
     = Some isUsernameAvailable
  /\ (let args :=
        VStr "ad"
          :: List.map (fun _ : string => VStr "")
               (default [] (params (mkAsyncValidatorRef "isUsernameAvailable" None))) in
      trace (parse noRegex (fieldSchema asyncValidators handleField) [Key "handle"]
               (VStr "ad"))
      = if String.eqb "ad" "" then []
        else AsyncValidatorCalled
               (av_name (mkAsyncValidatorRef "isUsernameAvailable" None)) args
               :: match isUsernameAvailable args with
                  | Some _ => []
                  | None =>
                    [ConsoleError
                       ("Error in async validator "
                          +:+ av_name (mkAsyncValidatorRef "isUsernameAvailable" None)
                          +:+ ":")]
                  end).
Proof.
  assert (asyncValidators !! av_name (mkAsyncValidatorRef "isUsernameAvailable" None)
          = Some isUsernameAvailable) as Hf by (vm_compute; reflexivity).
  split; [reflexivity|]. split; [reflexivity|]. split; [exact Hf|].
  exact (async_validator_call_policy noRegex asyncValidators handleField [Key "handle"]
           (VStr "ad") (mkAsyncValidatorRef "isUsernameAvailable" None)
           isUsernameAvailable eq_refl eq_refl Hf).
Defined.

(** The two-letter name fails the length check and is sent to the remote
    check all the same. *)
Example short_name_is_still_checked_remotely :
  parse noRegex (fieldSchema asyncValidators handleField) [Key "handle"] (VStr "ad")
  = ([AsyncValidatorCalled "isUsernameAvailable" [VStr "ad"]],
     mkParsed Dirty [mkIssue too_small [Key "handle"] "Must be at least 3 characters"]).
Proof. vm_compute. reflexivity. Qed.

(** X16: for a non-empty string, the outcome of the asynchronous validator
    decides as follows: when it resolves true the field has the issues of
    its length and pattern checks and no other; when it resolves false, or
    rejects, the field has one more issue, the last, with the field's
    [errorMessage] or "Validation failed for" and its name. *)
Theorem async_validator_outcome
    (regexTest : string -> string -> bool)
    (asyncValidators : gmap string AsyncValidator)
    (field : FormField) (p : list PathSeg) (s : string)
    (ref : AsyncValidatorRef) (f : AsyncValidator) :
  type field = "string" ->
  rule asyncValidator field = Some ref ->
  asyncValidators !! av_name ref = Some f ->
  s <> "" ->
  let args := VStr s :: List.map (fun _ : string => VStr "") (default [] (params ref)) in
  let base :=
    flat_map (stringCheck regexTest p s)
      (minLengthCheck field ++ maxLengthCheck field ++ patternCheck field) in
  let failure :=
    mkIssue custom p
      (orElse (rule errorMessage field) ("Validation failed for " +:+ name field)) in
  let outcome := result (parse regexTest (fieldSchema asyncValidators field) p (VStr s)) in
  (f args = Some true -> issues outcome = base)
  /\ (f args <> Some true ->
      issues outcome = (base ++ [failure])%list /\ status outcome = Dirty).
Proof.
  intros Ht Hr Hf Hs args base failure outcome. subst outcome.
  rewrite (async_field_parse regexTest asyncValidators field p s ref f Ht Hr Hf Hs).
  fold args base failure. unfold result. cbn [snd].
  split.
  - intros ->. reflexivity.
  - intros Hne. destruct (f args) as [[|]|]; [congruence| |]; split; reflexivity.
Qed.

Lemma async_validator_outcome_witness :
  type handleField = "string"
  /\ rule asyncValidator handleField = Some (mkAsyncValidatorRef "isUsernameAvailable" None)
  /\ asyncValidators !! av_name (mkAsyncValidatorRef "isUsernameAvailable" None)
     = Some isUsernameAvailable
  /\ "admin" <> ""
  /\ (let args :=
        VStr "admin"
          :: List.map (fun _ : string => VStr "")
               (default [] (params (mkAsyncValidatorRef "isUsernameAvailable" None))) in
      let base :=
        flat_map (stringCheck noRegex [Key "handle"] "admin")
          (minLengthCheck handleField ++ maxLengthCheck handleField
             ++ patternCheck handleField) in
      let failure :=
        mkIssue custom [Key "handle"]
          (orElse (rule errorMessage handleField)
             ("Validation failed for " +:+ name handleField)) in
      let outcome :=
        result (parse noRegex (fieldSchema asyncValidators handleField) [Key "handle"]
                  (VStr "admin")) in
      (isUsernameAvailable args = Some true -> issues outcome = base)
      /\ (isUsernameAvailable args <> Some true ->
          issues outcome = (base ++ [failure])%list /\ status outcome = Dirty)).
Proof.
  assert (asyncValidators !! av_name (mkAsyncValidatorRef "isUsernameAvailable" None)
          = Some isUsernameAvailable) as Hf by (vm_compute; reflexivity).
  assert ("admin" <> "") as Hs by discriminate.
  split; [reflexivity|]. split; [reflexivity|]. split; [exact Hf|]. split; [exact Hs|].
  exact (async_validator_outcome noRegex asyncValidators handleField [Key "handle"]
           "admin" (mkAsyncValidatorRef "isUsernameAvailable" None)
           isUsernameAvailable eq_refl eq_refl Hf Hs).
Defined.

(** ** Validator compiler: the cross-field step *)

(** X17: the cross-field step passes exactly when every cross-field
    validation holds on the data, a validator missing from the registry
    counting as holding; it consults the validations in order up to and
    including the first that fails, and none after it. *)
Theorem cross_field_step_is_a_conjunction
    (customValidators : gmap string SyncValidator)
    (validations : list CrossFieldValidation) (data : gmap string Value) :
  result (everyValidation customValidators validations data)
  = forallb (validationHolds customValidators data) validations
  /\ trace (everyValidation customValidators validations data)
     = List.map (validationEvent customValidators data)
         (consulted customValidators data validations).
Proof.
  induction validations as [|v rest [IHr IHt]]; [split; reflexivity|].
  cbn [everyValidation forallb consulted List.map].
  rewrite result_bind, trace_bind.
  unfold validationHolds at 1 3. unfold validationEvent at 1.
  unfold SyncValidator in *.
  destruct (customValidators !! cf_validator v) as [f|].
  - unfold bind, emit, ret, result, trace. cbn [fst snd app].
    destruct (f data (cf_fields v)).
    + split; [exact IHr|]. f_equal. exact IHt.
    + split; reflexivity.
  - unfold bind, emit, ret, result, trace. cbn [fst snd app].
    split; [exact IHr|]. f_equal. exact IHt.
Qed.


(** ** Submit-time validation reads the schema's own fields only *)

Lemma objSet_keys {A} (obj : list (string * A)) key (t : A) k :
  k ∈ (objSet obj key t).*1 -> k ∈ obj.*1 \/ k = key.
Proof.
  induction obj as [|[k0 t0] rest IH]; simpl.
  - intros H. apply list_elem_of_singleton in H. right. exact H.
  - destruct (String.eqb k0 key); simpl; intros H.
    + left. exact H.
    + apply elem_of_cons in H as [->|H].
      * left. apply elem_of_cons. left. reflexivity.
      * destruct (IH H) as [H'|H']; [left; apply elem_of_cons; right; exact H'|right; exact H'].
Qed.

Lemma schemaObj_keys asyncValidators (fields : list FormField)
    (obj : list (string * ZodType)) k :
  k ∈ (fold_left (fun obj field => objSet obj (name field)
                                     (fieldSchema asyncValidators field)) fields obj).*1 ->
  k ∈ obj.*1 \/ exists field, In field fields /\ name field = k.
Proof.
  revert obj. induction fields as [|f fields IH]; intros obj H; simpl in H.
  - left. exact H.
  - destruct (IH _ H) as [H'|(field & Hin & Hn)].
    + destruct (objSet_keys _ _ _ _ H') as [Hobj | ->].
      * left. exact Hobj.
      * right. exists f. split; [left; reflexivity|reflexivity].
    + right. exists field. split; [right; exact Hin|exact Hn].
Qed.

Lemma zodSchema_keys customValidators asyncValidators schema k :
  k ∈ (shape (zodSchema customValidators asyncValidators schema)).*1 ->
  exists field, In field (getAllFields schema) /\ name field = k.
Proof.
  unfold zodSchema. cbv zeta. intros H.
  assert (k ∈ (fold_left (fun obj field => objSet obj (name field)
                            (fieldSchema asyncValidators field))
                 (getAllFields schema) []).*1) as H'.
  { destruct (flat_map _ _); exact H. }
  destruct (schemaObj_keys _ _ _ _ H') as [Hnil|Hex]; [|exact Hex].
  simpl in Hnil. apply elem_of_nil in Hnil. contradiction.
Qed.

Lemma parseShape_agree regexTest (sh : list (string * ZodType))
    (data1 data2 : gmap string Value) :
  (forall k, k ∈ sh.*1 -> data1 !! k = data2 !! k) ->
  parseShape regexTest sh data1 = parseShape regexTest sh data2.
Proof.
  induction sh as [|[k t] rest IH]; intros H; [reflexivity|].
  cbn [parseShape]. unfold get.
  rewrite (H k) by (simpl; apply elem_of_cons; left; reflexivity).
  rewrite IH; [reflexivity|].
  intros k' Hk'. apply H. simpl. apply elem_of_cons. right. exact Hk'.
Qed.

Lemma stripped_agree (sh : list (string * ZodType)) (data1 data2 : gmap string Value) :
  (forall k, k ∈ sh.*1 -> data1 !! k = data2 !! k) ->
  stripped sh data1 = stripped sh data2.
Proof.
  intros H. unfold stripped. apply map_eq. intros k.
  rewrite !map_lookup_filter.
  destruct (decide (k ∈ sh.*1)) as [Hin|Hout].
  - rewrite (H k Hin). reflexivity.
  - destruct (data1 !! k), (data2 !! k); simpl;
      repeat (rewrite option_guard_False by exact Hout); reflexivity.
Qed.

(** X19: submit-time validation reads the store only at the names of the
    schema's own fields: two stores that agree there get the same issues,
    the same calls and the same log.  In a multi-step form the schema of a
    step holds the fields of its section alone, so the values (and the
    required fields) of the other steps cannot influence the step's
    validation. *)
Theorem validation_reads_only_the_schema_fields
    (regexTest : string -> string -> bool)
    (customValidators : gmap string SyncValidator)
    (asyncValidators : gmap string AsyncValidator)
    (schema : FormSchema) (data1 data2 : gmap string Value) :
  (forall field, In field (getAllFields schema) ->
     data1 !! name field = data2 !! name field) ->
  parseObject regexTest (zodSchema customValidators asyncValidators schema) data1
  = parseObject regexTest (zodSchema customValidators asyncValidators schema) data2.
Proof.
  intros H.
  set (rules := zodSchema customValidators asyncValidators schema).
  assert (forall k, k ∈ (shape rules).*1 -> data1 !! k = data2 !! k) as Hk.
  { intros k Hin.
    destruct (zodSchema_keys customValidators asyncValidators schema k Hin)
      as (field & Hf & <-).
    exact (H field Hf). }
  unfold parseObject.
  rewrite (parseShape_agree regexTest (shape rules) data1 data2 Hk).
  rewrite (stripped_agree (shape rules) data1 data2 Hk).
  reflexivity.
Qed.

Lemma validation_reads_only_the_schema_fields_witness :
  (forall field, In field (getAllFields passwordSchema) ->
     passwordValues !! name field
     = (<[ "country" := VStr "FR" ]> passwordValues) !! name field)
  /\ parseObject noRegex (zodSchema (customValidators noDate) asyncValidators passwordSchema)
       passwordValues
     = parseObject noRegex (zodSchema (customValidators noDate) asyncValidators passwordSchema)
         (<[ "country" := VStr "FR" ]> passwordValues).
Proof.
  assert (forall field, In field (getAllFields passwordSchema) ->
            passwordValues !! name field
            = (<[ "country" := VStr "FR" ]> passwordValues) !! name field) as H.
  { intros field [<-|[<-|[]]]; vm_compute; reflexivity. }
  split; [exact H|].
  exact (validation_reads_only_the_schema_fields noRegex (customValidators noDate)
           asyncValidators passwordSchema passwordValues
           (<[ "country" := VStr "FR" ]> passwordValues) H).
Defined.

(** ** The component: what the unregister effect does to the store *)

Lemma isHidden_empty field :
  isHidden ∅ field = isConditional field && negb (inherited (name field)).
Proof. unfold isHidden, truthyEntry. rewrite lookup_empty. reflexivity. Qed.

(** The store after the unregister effect, key by key. *)
Lemma unregister_fold_lookup cf (l : list FormField) (values : gmap string Value) k :
  fold_left (unregisterIfHidden cf) l values !! k
  = if existsb (fun field => isHidden cf field && String.eqb (name field) k) l
    then None else values !! k.
Proof.
  revert values. induction l as [|f l IH]; intros values; [reflexivity|].
  cbn [fold_left existsb]. rewrite IH. unfold unregisterIfHidden.
  destruct (isHidden cf f); cbn [andb orb]; [|reflexivity].
  destruct (String.eqb_spec (name f) k) as [->|Hne]; cbn [orb].
  - rewrite lookup_delete_eq. destruct (existsb _ l); reflexivity.
  - rewrite lookup_delete_ne by exact Hne. reflexivity.
Qed.

Lemma existsb_false_of_not_in k (l : list FormField) (h : FormField -> bool) :
  ~ In k (List.map name (List.filter isConditional l)) ->
  (forall field, h field = true -> isConditional field = true) ->
  existsb (fun field => h field && String.eqb (name field) k) l = false.
Proof.
  intros Hk Hh. induction l as [|f l IH]; [reflexivity|].
  simpl in *. destruct (h f) eqn:Hf.
  - rewrite (Hh f Hf) in Hk. simpl in Hk.
    destruct (String.eqb_spec (name f) k) as [He|_]; [tauto|]. simpl. apply IH. tauto.
  - simpl. apply IH. destruct (isConditional f); simpl in Hk; tauto.
Qed.

Lemma existsb_conditional_name k (l : list FormField) :
  existsb (fun field => isConditional field && String.eqb (name field) k) l = false ->
  ~ In k (List.map name (List.filter isConditional l)).
Proof.
  induction l as [|f l IH]; simpl; intros H; [tauto|].
  apply orb_false_iff in H as [Hf Hl].
  destruct (isConditional f); simpl in *; [|exact (IH Hl)].
  apply String.eqb_neq in Hf. intros [E|Hin]; [congruence|exact (IH Hl Hin)].
Qed.

Lemma unregisterHidden_other schema cf values k :
  ~ In k (List.map name (fieldsWithConditionals schema)) ->
  unregisterHidden schema cf values !! k = values !! k.
Proof.
  intros Hk. unfold unregisterHidden. rewrite unregister_fold_lookup.
  rewrite (existsb_false_of_not_in k (getAllFields schema) (isHidden cf)); [reflexivity|exact Hk|].
  intros field Hh. unfold isHidden in Hh. apply andb_true_iff in Hh. tauto.
Qed.

(** The effects after a render only ever delete, and only under the names
    of conditional fields. *)
Lemma effects_formValues_other dateTime fuel g k :
  ~ In k (List.map name (fieldsWithConditionals (schema (props g)))) ->
  formValues (effects dateTime fuel g) !! k = formValues g !! k.
Proof.
  intros Hk.
  apply (effects_invariant dateTime
           (fun g0 => props g0 = props g /\ formValues g0 !! k = formValues g !! k));
    [| |split; reflexivity].
  - intros g0 [Hp Hv].
    destruct (unregisterEffect_keeps g0) as (-> & _ & _ & _ & _ & _ & ->).
    split; [exact Hp|]. rewrite unregisterHidden_other by (rewrite Hp; exact Hk).
    exact Hv.
  - intros g0 [Hp Hv].
    destruct (render_keeps dateTime (props g0) g0) as (_ & _ & -> & -> & _).
    split; assumption.
Qed.

Lemma effects_formValues_None dateTime fuel g k :
  formValues g !! k = None -> formValues (effects dateTime fuel g) !! k = None.
Proof.
  apply (effects_invariant dateTime (fun g0 => formValues g0 !! k = None)).
  - intros g0 Hv.
    destruct (unregisterEffect_keeps g0) as (_ & _ & _ & _ & _ & _ & ->).
    apply unregister_fold_None. exact Hv.
  - intros g0 Hv.
    destruct (render_keeps dateTime (props g0) g0) as (_ & _ & -> & _). exact Hv.
Qed.

Lemma commit_formValues_other dateTime g k :
  ~ In k (List.map name (fieldsWithConditionals (schema (props g)))) ->
  formValues (commit dateTime g) !! k = formValues g !! k.
Proof. apply effects_formValues_other. Qed.

Lemma notify_formValues_other dateTime g k :
  ~ In k (List.map name (fieldsWithConditionals (schema (props g)))) ->
  formValues (notify dateTime g) !! k = formValues g !! k.
Proof.
  intros Hk. unfold notify. destruct (hasChanged _ _); [|reflexivity].
  destruct (render_keeps dateTime (props g) (published g)) as (_ & _ & Hfv & Hp & _).
  rewrite commit_formValues_other by (rewrite Hp; exact Hk).
  rewrite Hfv. reflexivity.
Qed.

(** X20: mounting the component clears the initial value of every
    conditional field and keeps every other entry of the initial data,
    under every name that a plain object does not inherit: the visibility
    map starts empty, an absent entry counts as hidden, and the first run
    of the unregister effect deletes the values of these conditional
    fields, whatever their conditions say about the initial data; the
    renders and effects that follow only delete. *)
Theorem mount_clears_conditional_fields
    (dateTime : Value -> option Z) (p : Props) (initialData : gmap string Value)
    (k : string) :
  inherited k = false ->
  formValues (mount dateTime p initialData) !! k
  = if existsb (fun field => isConditional field && String.eqb (name field) k)
         (getAllFields (schema p))
    then None else initialData !! k.
Proof.
  intros Hk. unfold mount.
  set (g0 := mkGenerator p 2%nat 0%nat initialData 1%nat ∅ None None None 0%nat).
  destruct (render_keeps dateTime p g0) as (Hcf & Hcr & Hfv & Hp & Hud & Hfr).
  assert (formValues (unregisterEffect (render dateTime p g0)) !! k
          = if existsb (fun field => isConditional field && String.eqb (name field) k)
                 (getAllFields (schema p))
            then None else initialData !! k) as Hfirst.
  { destruct (unregisterEffect_keeps (render dateTime p g0))
      as (_ & _ & _ & _ & _ & _ & ->).
    rewrite Hp, Hcf, Hfv. simpl. unfold unregisterHidden.
    rewrite unregister_fold_lookup.
    assert (forall l, existsb (fun field => isHidden ∅ field && String.eqb (name field) k) l
                      = existsb (fun field => isConditional field
                                              && String.eqb (name field) k) l) as ->;
      [|reflexivity].
    intros l. induction l as [|f l IH]; [reflexivity|].
    simpl. rewrite isHidden_empty, IH.
    destruct (String.eqb_spec (name f) k) as [->|_].
    - rewrite Hk. cbn [negb]. rewrite !andb_true_r. reflexivity.
    - rewrite !andb_false_r. reflexivity. }
  unfold commit. cbn [effects].
  case_bool_decide as Hd; [rewrite Hud in Hd; discriminate Hd|].
  case_bool_decide as Hr; [exact Hfirst|].
  destruct (existsb (fun field => isConditional field && String.eqb (name field) k)
              (getAllFields (schema p))) eqn:E.
  - apply effects_formValues_None.
    destruct (render_keeps dateTime (props (render dateTime p g0))
                (unregisterEffect (render dateTime p g0))) as (_ & _ & -> & _).
    exact Hfirst.
  - rewrite effects_formValues_other.
    + destruct (render_keeps dateTime (props (render dateTime p g0))
                  (unregisterEffect (render dateTime p g0))) as (_ & _ & -> & _).
      exact Hfirst.
    + destruct (render_keeps dateTime (props (render dateTime p g0))
                  (unregisterEffect (render dateTime p g0))) as (_ & _ & _ & -> & _).
      rewrite Hp. apply existsb_conditional_name. exact E.
Qed.

Lemma mount_clears_conditional_fields_witness :
  inherited "country" = false
  /\ formValues
       (mount noDate shippingProps
          {[ "shipTo" := VStr "international"; "country" := VStr "FR" ]}) !! "country"
     = if existsb (fun field => isConditional field
                                && String.eqb (name field) "country")
            (getAllFields (schema shippingProps))
       then None
       else ({[ "shipTo" := VStr "international"; "country" := VStr "FR" ]}
               : gmap string Value) !! "country".
Proof.
  split; [reflexivity|].
  exact (mount_clears_conditional_fields noDate shippingProps
           {[ "shipTo" := VStr "international"; "country" := VStr "FR" ]}
           "country" eq_refl).
Defined.

(** The initial value of a conditional field is lost at the mount even
    when its condition holds on the initial data. *)
Example initial_value_of_a_shown_field_is_lost :
  let g := mount noDate shippingProps
             {[ "shipTo" := VStr "international"; "country" := VStr "FR" ]} in
  conditionalFields g = {[ "country" := true ]}
  /\ formValues g = {[ "shipTo" := VStr "international" ]}.
Proof. cbv zeta. conjuncts; evaluate. Qed.

(** Under a name that a plain object inherits, the first run of the
    unregister effect finds the entry truthy: the mount keeps the initial
    value of the conditional field, and nothing computes the map. *)
Example inherited_name_is_not_cleared :
  let g := mount noDate inheritedNameTracked {[ "constructor" := VStr "v" ]} in
  In constructorField (fieldsWithConditionals (schema inheritedNameTracked))
  /\ inherited (name constructorField) = true
  /\ conditionalFields g = ∅
  /\ formValues g = {[ "constructor" := VStr "v" ]}.
Proof. cbv zeta. split; [left; reflexivity|]. conjuncts; evaluate. Qed.

(** X21: the component never touches the value of a field that declares
    no conditional: whatever the action (a value change of another field,
    a notification, a render with other props), the entry of the store
    under a name that no conditional field of the rendered schema bears is
    the same after the action as before. *)
Theorem store_entry_of_unconditional_field_is_kept
    (dateTime : Value -> option Z) (g : Generator) (a : Action) (k : string) :
  match a with ValueChange field _ => field <> k | _ => True end ->
  ~ In k (List.map name (fieldsWithConditionals (schema (props (act dateTime g a))))) ->
  formValues (act dateTime g a) !! k = formValues g !! k.
Proof.
  intros Ha Hk. destruct a as [field v| |newProps]; simpl in *.
  - unfold valueChange in *. rewrite notify_props in Hk.
    rewrite notify_formValues_other by exact Hk.
    simpl. apply lookup_insert_ne. exact Ha.
  - rewrite notify_props in Hk. apply notify_formValues_other. exact Hk.
  - unfold rerender in *. rewrite commit_props in Hk.
    rewrite commit_formValues_other by exact Hk.
    destruct (render_keeps dateTime newProps g) as (_ & _ & -> & _). reflexivity.
Qed.

Lemma store_entry_of_unconditional_field_is_kept_witness :
  match ValueChange "country" (VStr "FR") with
  | ValueChange field _ => field <> "shipTo"
  | _ => True
  end
  /\ ~ In "shipTo"
       (List.map name
          (fieldsWithConditionals
             (schema (props (act noDate (mount noDate shippingProps ∅)
                               (ValueChange "country" (VStr "FR")))))))
  /\ formValues (act noDate (mount noDate shippingProps ∅)
                  (ValueChange "country" (VStr "FR"))) !! "shipTo"
     = formValues (mount noDate shippingProps ∅) !! "shipTo".
Proof.
  assert ("country" <> "shipTo") as Ha by discriminate.
  assert (~ In "shipTo"
            (List.map name
               (fieldsWithConditionals
                  (schema (props (act noDate (mount noDate shippingProps ∅)
                                    (ValueChange "country" (VStr "FR")))))))) as Hk.
  { vm_compute. intros [H|[]]. discriminate H. }
  split; [exact Ha|]. split; [exact Hk|].
  exact (store_entry_of_unconditional_field_is_kept noDate (mount noDate shippingProps ∅)
           (ValueChange "country" (VStr "FR")) "shipTo" Ha Hk).
Defined.

(** ** The asynchronous validators *)

Lemma lowerChar_idempotent c : lowerChar (lowerChar c) = lowerChar c.
Proof.
  destruct c as [b0 b1 b2 b3 b4 b5 b6 b7];
    destruct b0, b1, b2, b3, b4, b5, b6, b7; reflexivity.
Qed.

Lemma toLowerCase_idempotent s : toLowerCase (toLowerCase s) = toLowerCase s.
Proof.
  induction s as [|c s IH]; [reflexivity|].
  simpl. rewrite lowerChar_idempotent, IH. reflexivity.
Qed.

Lemma toLowerCase_app s t : toLowerCase (s +:+ t) = toLowerCase s +:+ toLowerCase t.
Proof. induction s as [|c s IH]; [reflexivity|]. simpl. rewrite IH. reflexivity. Qed.

Lemma prefix_app sub s t : String.prefix sub s = true -> String.prefix sub (s +:+ t) = true.
Proof.
  revert s. induction sub as [|a sub IH]; intros s H;
    [destruct (s +:+ t); reflexivity|].
  destruct s as [|b s]; [discriminate H|].
  simpl in *. destruct (ascii_dec a b); [apply IH; exact H|discriminate H].
Qed.

Lemma includes_cons c s sub :
  includes (String c s) sub
  = if String.prefix sub (String c s) then true else includes s sub.
Proof. reflexivity. Qed.

Lemma includes_app_r s t sub : includes s sub = true -> includes (s +:+ t) sub = true.
Proof.
  induction s as [|c s IH]; intros H.
  - simpl in H. destruct sub; [|discriminate H]. destruct t; reflexivity.
  - rewrite includes_cons in H.
    change (String c s +:+ t) with (String c (s +:+ t)). rewrite includes_cons.
    destruct (String.prefix sub (String c s)) eqn:Hp.
    + pose proof (prefix_app sub (String c s) t Hp) as Hq.
      change (String c s +:+ t) with (String c (s +:+ t)) in Hq.
      rewrite Hq. reflexivity.
    + destruct (String.prefix sub (String c (s +:+ t))); [reflexivity|].
      apply IH. exact H.
Qed.

Lemma includes_app_l s t sub : includes t sub = true -> includes (s +:+ t) sub = true.
Proof.
  intros H. induction s as [|c s IH]; [exact H|].
  change (String c s +:+ t) with (String c (s +:+ t)). rewrite includes_cons.
  destruct (String.prefix sub (String c (s +:+ t))); [reflexivity|exact IH].
Qed.

Lemma isUsernameAvailable_string u :
  isUsernameAvailable [VStr u]
  = Some (negb (existsb (fun name => includes (toLowerCase u) name)
                  ["admin"; "root"; "superuser"; "system"])).
Proof. reflexivity. Qed.

Lemma existsb_includes_app names s a b :
  existsb (fun name => includes s name) names = true ->
  existsb (fun name => includes (a +:+ s +:+ b) name) names = true.
Proof.
  induction names as [|name names IH]; intros H; [discriminate H|].
  cbn [existsb] in *. apply orb_true_iff in H as [H|H]; apply orb_true_iff.
  - left. apply includes_app_l, includes_app_r. exact H.
  - right. apply IH. exact H.
Qed.

(** X22: [isUsernameAvailable] matches by containment and without regard
    to letter case: when a name is taken, so is every name that contains
    it, in any mix of upper and lower case. *)
Theorem taken_names_stay_taken (u a b w : string) :
  isUsernameAvailable [VStr u] = Some false ->
  toLowerCase w = toLowerCase (a +:+ u +:+ b) ->
  isUsernameAvailable [VStr w] = Some false.
Proof.
  rewrite !isUsernameAvailable_string. intros Hu Hw.
  injection Hu as Hu. apply negb_false_iff in Hu. f_equal. apply negb_false_iff.
  rewrite Hw, !toLowerCase_app.
  exact (existsb_includes_app ["admin"; "root"; "superuser"; "system"]
           (toLowerCase u) (toLowerCase a) (toLowerCase b) Hu).
Qed.

Lemma taken_names_stay_taken_witness :
  isUsernameAvailable [VStr "root"] = Some false
  /\ toLowerCase "xRoOt42" = toLowerCase ("x" +:+ "root" +:+ "42")
  /\ isUsernameAvailable [VStr "xRoOt42"] = Some false.
Proof.
  split; [reflexivity|]. split; [reflexivity|].
  exact (taken_names_stay_taken "root" "x" "42" "xRoOt42" eq_refl eq_refl).
Defined.

Lemma afterFirst_app_None sep s t :
  afterFirst sep s = None -> afterFirst sep (s +:+ String sep t) = Some t.
Proof.
  induction s as [|c s IH]; simpl; intros H.
  - rewrite Ascii.eqb_refl. reflexivity.
  - destruct (Ascii.eqb c sep); [discriminate H|]. apply IH. exact H.
Qed.

Lemma beforeFirst_app_None sep s t :
  afterFirst sep s = None -> beforeFirst sep (s +:+ String sep t) = s.
Proof.
  induction s as [|c s IH]; simpl; intros H.
  - rewrite Ascii.eqb_refl. reflexivity.
  - destruct (Ascii.eqb c sep); [discriminate H|]. rewrite IH by exact H. reflexivity.
Qed.

Lemma beforeFirst_None sep s : afterFirst sep s = None -> beforeFirst sep s = s.
Proof.
  induction s as [|c s IH]; simpl; intros H; [reflexivity|].
  destruct (Ascii.eqb c sep); [discriminate H|]. rewrite IH by exact H. reflexivity.
Qed.

Lemma truthy_app_at s t : truthy (VStr (s +:+ String "@" t)) = true.
Proof. destruct s; reflexivity. Qed.

(** X23: [isEmailDomainValid] judges the text between the first and the
    second [@] and nothing else: an address with no [@] is invalid, and
    [local@domain] and [local@domain@anything] get the same answer,
    whether [domain] ends in one of the five accepted endings. *)
Theorem email_domain_is_the_second_segment (local domain tail : string) :
  afterFirst "@" local = None ->
  afterFirst "@" domain = None ->
  isEmailDomainValid [VStr local] = Some false
  /\ isEmailDomainValid [VStr (local +:+ String "@" domain)]
     = Some (existsb (fun ending => endsWith domain ending) validDomains)
  /\ isEmailDomainValid [VStr (local +:+ String "@" (domain +:+ String "@" tail))]
     = Some (existsb (fun ending => endsWith domain ending) validDomains).
Proof.
  intros Hl Hd. unfold isEmailDomainValid. cbn [arg nth].
  split; [|split].
  - destruct (truthy (VStr local)); [|reflexivity]. cbn [negb].
    unfold splitSecond. rewrite Hl. reflexivity.
  - rewrite truthy_app_at. cbn [negb]. unfold splitSecond.
    rewrite (afterFirst_app_None "@" local domain Hl).
    rewrite (beforeFirst_None "@" domain Hd). reflexivity.
  - rewrite truthy_app_at. cbn [negb]. unfold splitSecond.
    rewrite (afterFirst_app_None "@" local _ Hl).
    rewrite (beforeFirst_app_None "@" domain tail Hd). reflexivity.
Qed.

Lemma email_domain_is_the_second_segment_witness :
  afterFirst "@" "ann" = None
  /\ afterFirst "@" "mail.org" = None
  /\ isEmailDomainValid [VStr "ann"] = Some false
  /\ isEmailDomainValid [VStr ("ann" +:+ String "@" "mail.org")]
     = Some (existsb (fun ending => endsWith "mail.org" ending) validDomains)
  /\ isEmailDomainValid [VStr ("ann" +:+ String "@" ("mail.org" +:+ String "@" "x y"))]
     = Some (existsb (fun ending => endsWith "mail.org" ending) validDomains).
Proof.
  split; [reflexivity|]. split; [reflexivity|].
  exact (email_domain_is_the_second_segment "ann" "mail.org" "x y" eq_refl eq_refl).
Defined.

(** ** What the form shows *)

Lemma newConditionalFields_names schema values key b :
  newConditionalFields schema values !! key = Some b ->
  In key (List.map name (fieldsWithConditionals schema)).
Proof.
  intros H.
  destruct (in_dec string_dec key (List.map name (fieldsWithConditionals schema)))
    as [Hin|Hn]; [exact Hin|].
  unfold newConditionalFields in H.
  rewrite assign_fold_other in H by exact Hn.
  rewrite lookup_empty in H. discriminate H.
Qed.

Lemma effects_tracked dateTime fuel g : tracked g -> tracked (effects dateTime fuel g).
Proof.
  apply effects_invariant.
  - intros g0 Hg key b.
    destruct (unregisterEffect_keeps g0) as (-> & _).
    destruct (unregisterEffect_cases g0) as [->|[v ->]].
    + apply Hg.
    + apply newConditionalFields_names.
  - intros g0 Hg key b.
    destruct (render_keeps dateTime (props g0) g0) as (-> & _ & _ & -> & _).
    apply Hg.
Qed.

Lemma notify_tracked dateTime g : tracked g -> tracked (notify dateTime g).
Proof.
  intros Hg. unfold notify. destruct (hasChanged _ _).
  - apply effects_tracked. intros key b.
    destruct (render_keeps dateTime (props g) (published g)) as (-> & _ & _ & -> & _).
    simpl. apply newConditionalFields_names.
  - exact Hg.
Qed.

Lemma act_tracked dateTime p g a :
  keepsSchema p a -> tracked g -> schema (props g) = schema p ->
  tracked (act dateTime g a) /\ schema (props (act dateTime g a)) = schema p.
Proof.
  intros Ha Hg Hs. destruct a as [field v| |newProps]; simpl in *.
  - unfold valueChange. split; [|rewrite notify_props; exact Hs].
    apply notify_tracked. exact Hg.
  - split; [|rewrite notify_props; exact Hs]. apply notify_tracked. exact Hg.
  - unfold rerender.
    destruct (render_keeps dateTime newProps g) as (Hcf' & _ & _ & Hp' & _).
    split; [|rewrite commit_props, Hp'; exact Ha].
    apply effects_tracked.
    intros key b. rewrite Hcf', Hp', Ha, <- Hs. apply Hg.
Qed.

Lemma mount_tracked dateTime p initialData :
  tracked (mount dateTime p initialData)
  /\ schema (props (mount dateTime p initialData)) = schema p.
Proof.
  unfold mount.
  set (g0 := mkGenerator p 2%nat 0%nat initialData 1%nat ∅ None None None 0%nat).
  destruct (render_keeps dateTime p g0) as (Hcf' & _ & _ & Hp' & _).
  split; [|rewrite commit_props, Hp'; reflexivity].
  apply effects_tracked.
  intros key b. rewrite Hcf'. simpl. rewrite lookup_empty. discriminate.
Qed.

Lemma run_tracked dateTime p initialData actions :
  Forall (keepsSchema p) actions ->
  tracked (run dateTime p initialData actions)
  /\ schema (props (run dateTime p initialData actions)) = schema p.
Proof.
  unfold run. generalize (mount_tracked dateTime p initialData).
  generalize (mount dateTime p initialData) as g.
  induction actions as [|a actions IH]; intros g Hg Hall; [exact Hg|].
  apply Forall_cons_iff in Hall as [Ha Hall]. simpl.
  apply IH; [|exact Hall].
  destruct Hg as [Hg Hs]. apply act_tracked; assumption.
Qed.

(** X24: the form lays out the fields of [sections] when the schema has
    sections, while the visibility map is computed over [getAllFields],
    which takes [fields] when the schema has fields.  A conditional field
    whose name is not the name of a conditional field of [getAllFields]
    (a conditional field that a schema with both [fields] and [sections]
    holds only in a section), and is not a name that a plain object
    inherits, is therefore never on the screen, whatever values the user
    enters, as long as the schema stays the same. *)
Theorem untracked_conditional_field_is_never_shown
    (dateTime : Value -> option Z) (p : Props) (initialData : gmap string Value)
    (actions : list Action) (f : FormField) :
  Forall (keepsSchema p) actions ->
  isConditional f = true ->
  inherited (name f) = false ->
  ~ In (name f) (List.map name (fieldsWithConditionals (schema p))) ->
  ~ In f (shownFields (schema p)
            (conditionalFields (run dateTime p initialData actions))).
Proof.
  intros Hall Hc Hname Hn Hin.
  destruct (run_tracked dateTime p initialData actions Hall) as [Ht Hs].
  apply list_elem_of_In in Hin. unfold shownFields in Hin.
  apply list_elem_of_omap in Hin as (f' & _ & Hr).
  unfold renderFormField in Hr.
  destruct (isHidden _ f') eqn:Hh; [discriminate Hr|]. injection Hr as ->.
  unfold isHidden, truthyEntry in Hh. rewrite Hc in Hh. cbn [andb] in Hh.
  apply negb_false_iff in Hh.
  destruct (conditionalFields (run dateTime p initialData actions) !! name f)
    as [b|] eqn:E; [|congruence].
  apply Hn. rewrite <- Hs. exact (Ht (name f) b E).
Qed.

Lemma untracked_conditional_field_is_never_shown_witness :
  Forall (keepsSchema bothProps) [ValueChange "shipTo" (VStr "international")]
  /\ isConditional country = true
  /\ inherited (name country) = false
  /\ ~ In (name country) (List.map name (fieldsWithConditionals (schema bothProps)))
  /\ ~ In country
       (shownFields (schema bothProps)
          (conditionalFields
             (run noDate bothProps ∅ [ValueChange "shipTo" (VStr "international")]))).
Proof.
  assert (Forall (keepsSchema bothProps) [ValueChange "shipTo" (VStr "international")])
    as Hall by (constructor; [exact I|constructor]).
  assert (~ In (name country)
            (List.map name (fieldsWithConditionals (schema bothProps)))) as Hn
    by (intros []).
  split; [exact Hall|]. split; [reflexivity|]. split; [reflexivity|]. split; [exact Hn|].
  exact (untracked_conditional_field_is_never_shown noDate bothProps ∅
           [ValueChange "shipTo" (VStr "international")] country Hall eq_refl eq_refl Hn).
Defined.

(** The same field is on the screen when the schema holds it in [fields],
    and [bothSchema] does lay it out. *)
Example tracked_conditional_field_is_shown :
  shownFields shippingSchema
    (conditionalFields
       (run noDate shippingProps ∅ [ValueChange "shipTo" (VStr "international")]))
  = [shipTo; country]
  /\ layoutFields bothSchema = [country].
Proof. split; evaluate. Qed.

(** Under a name that a plain object inherits, a conditional field that
    the map does not hold is on the screen, although its condition is
    false. *)
Example inherited_name_is_shown :
  let g := mount noDate inheritedNameProps ∅ in
  isConditional constructorField = true
  /\ evaluateCondition
       (mkConditionalLogic "shipTo" (Some "equals") (Some (SStr "never")) None None None)
       (formValues g) = false
  /\ conditionalFields g = ∅
  /\ shownFields (schema inheritedNameProps) (conditionalFields g) = [constructorField].
Proof. cbv zeta. conjuncts; evaluate. Qed.

(** ** The postal codes *)

Lemma append_nil_l s : "" +:+ s = s.
Proof. reflexivity. Qed.

Lemma append_cons c s t : String c s +:+ t = String c (s +:+ t).
Proof. reflexivity. Qed.

Lemma append_nil_r s : s +:+ "" = s.
Proof.
  induction s as [|c s IH]; [reflexivity|]. rewrite append_cons, IH. reflexivity.
Qed.

Lemma test_Never s : Regex.test Regex.Never s = false.
Proof. induction s as [|c s IH]; [reflexivity|exact IH]. Qed.

Lemma test_Eps s : Regex.test Regex.Eps s = true <-> s = "".
Proof.
  destruct s as [|c s]; [split; reflexivity|].
  change (Regex.test Regex.Eps (String c s)) with (Regex.test Regex.Never s).
  rewrite test_Never. split; discriminate.
Qed.

Lemma test_Alt r1 r2 s :
  Regex.test (Regex.Alt r1 r2) s = Regex.test r1 s || Regex.test r2 s.
Proof.
  revert r1 r2. induction s as [|c s IH]; intros r1 r2; [reflexivity|].
  exact (IH (Regex.deriv c r1) (Regex.deriv c r2)).
Qed.

Lemma test_Seq r1 r2 s :
  Regex.test (Regex.Seq r1 r2) s = true
  <-> exists s1 s2, s = s1 +:+ s2
        /\ Regex.test r1 s1 = true /\ Regex.test r2 s2 = true.
Proof.
  revert r1 r2. induction s as [|c s IH]; intros r1 r2.
  - change (Regex.test (Regex.Seq r1 r2) "")
      with (Regex.nullable r1 && Regex.nullable r2).
    rewrite andb_true_iff. split.
    + intros [H1 H2]. exists "", "". split; [reflexivity|]. split; assumption.
    + intros (s1 & s2 & E & H1 & H2).
      destruct s1; [|discriminate E]. destruct s2; [|discriminate E].
      split; assumption.
  - change (Regex.test (Regex.Seq r1 r2) (String c s))
      with (Regex.test
              (if Regex.nullable r1
               then Regex.Alt (Regex.Seq (Regex.deriv c r1) r2) (Regex.deriv c r2)
               else Regex.Seq (Regex.deriv c r1) r2) s).
    destruct (Regex.nullable r1) eqn:N.
    + rewrite test_Alt, orb_true_iff, IH. split.
      * intros [(s1 & s2 & E & H1 & H2)|H].
        -- exists (String c s1), s2. subst s. split; [reflexivity|].
           split; assumption.
        -- exists "", (String c s). split; [reflexivity|]. split; assumption.
      * intros (s1 & s2 & E & H1 & H2). destruct s1 as [|c' s1].
        -- right. rewrite append_nil_l in E. subst s2. exact H2.
        -- left. rewrite append_cons in E. injection E as -> ->. exists s1, s2.
           split; [reflexivity|]. split; assumption.
    + rewrite IH. split.
      * intros (s1 & s2 & E & H1 & H2).
        exists (String c s1), s2. subst s. split; [reflexivity|].
        split; assumption.
      * intros (s1 & s2 & E & H1 & H2). destruct s1 as [|c' s1].
        -- change (Regex.test r1 "") with (Regex.nullable r1) in H1. congruence.
        -- rewrite append_cons in E. injection E as -> ->. exists s1, s2.
           split; [reflexivity|]. split; assumption.
Qed.

Lemma test_Class q s :
  Regex.test (Regex.Class q) s = true <-> exists c, s = String c "" /\ q c = true.
Proof.
  destruct s as [|c s].
  - split; [discriminate|]. intros (c & E & _). discriminate E.
  - change (Regex.test (Regex.Class q) (String c s))
      with (Regex.test (if q c then Regex.Eps else Regex.Never) s).
    destruct (q c) eqn:Hq.
    + rewrite test_Eps. split.
      * intros ->. exists c. split; [reflexivity|exact Hq].
      * intros (c' & E & _). injection E as _ E. exact E.
    + rewrite test_Never. split; [discriminate|].
      intros (c' & E & Hq'). injection E as -> _. congruence.
Qed.

Lemma test_times n q s :
  Regex.test (Regex.times n (Regex.Class q)) s = true
  <-> String.length s = n /\ allChars q s = true.
Proof.
  revert s. induction n as [|n IH]; intros s.
  - change (Regex.times 0 (Regex.Class q)) with Regex.Eps. rewrite test_Eps. split.
    + intros ->. split; reflexivity.
    + intros [H _]. destruct s; [reflexivity|discriminate H].
  - change (Regex.times (S n) (Regex.Class q))
      with (Regex.Seq (Regex.Class q) (Regex.times n (Regex.Class q))).
    rewrite test_Seq. split.
    + intros (s1 & s2 & -> & H1 & H2).
      apply test_Class in H1 as (c & -> & Hc). apply IH in H2 as [Hl Ha].
      rewrite append_cons, append_nil_l. simpl. rewrite Hl, Hc, Ha.
      split; reflexivity.
    + intros [Hl Ha]. destruct s as [|c s]; [discriminate Hl|].
      simpl in Hl, Ha. apply andb_true_iff in Ha as [Hc Ha].
      exists (String c ""), s. split; [reflexivity|]. split.
      * apply test_Class. exists c. split; [reflexivity|exact Hc].
      * apply IH. split; [congruence|exact Ha].
Qed.

Lemma usZip_shape p :
  Regex.test Regex.usZip p = true
  <-> exists five, String.length five = 5%nat /\ allChars isDigit five = true
        /\ (p = five
            \/ exists four, String.length four = 4%nat
                 /\ allChars isDigit four = true
                 /\ p = five +:+ "-" +:+ four).
Proof.
  change Regex.usZip
    with (Regex.Seq (Regex.times 5 (Regex.Class isDigit))
            (Regex.Alt (Regex.Seq (Regex.Class (Ascii.eqb "-"))
                          (Regex.times 4 (Regex.Class isDigit)))
               Regex.Eps)).
  rewrite test_Seq. split.
  - intros (five & rest & -> & H5 & Hrest).
    apply test_times in H5 as [Hl Ha]. exists five.
    split; [exact Hl|]. split; [exact Ha|].
    rewrite test_Alt in Hrest. apply orb_true_iff in Hrest as [H|H].
    + right. apply test_Seq in H as (dash & four & -> & Hd & H4).
      apply test_Class in Hd as (c & -> & Hc). apply Ascii.eqb_eq in Hc. subst c.
      apply test_times in H4 as [Hl4 Ha4]. exists four.
      split; [exact Hl4|]. split; [exact Ha4|reflexivity].
    + left. apply test_Eps in H. subst rest. apply append_nil_r.
  - intros (five & Hl & Ha & [->|(four & Hl4 & Ha4 & ->)]).
    + exists five, "". split; [symmetry; apply append_nil_r|].
      split; [apply test_times; split; assumption|reflexivity].
    + exists five, ("-" +:+ four). split; [reflexivity|].
      split; [apply test_times; split; assumption|].
      rewrite test_Alt. apply orb_true_iff. left. apply test_Seq.
      exists "-", four. split; [reflexivity|]. split.
      * apply test_Class. exists "-"%char. split; reflexivity.
      * apply test_times. split; assumption.
Qed.

(** X25: [isPostalCodeValid] reads the country without regard to letter
    case, and answers false on an empty or missing postal code before it
    looks at the country at all, so also when the country is missing. *)
Theorem postal_code_country_is_case_insensitive (p country : Value) (c : string) :
  isPostalCodeValid [p; VStr c] = isPostalCodeValid [p; VStr (toLowerCase c)]
  /\ isPostalCodeValid [VStr ""; country] = Some false
  /\ isPostalCodeValid [VUndefined; country] = Some false
  /\ isPostalCodeValid [VNull; country] = Some false.
Proof.
  split; [|split; [|split]; reflexivity].
  unfold isPostalCodeValid. cbn [arg nth]. rewrite toLowerCase_idempotent.
  reflexivity.
Qed.

(** X26: for the country [us] in any letter case, the postal codes that
    [isPostalCodeValid] accepts are exactly five digits, or five digits, a
    dash and four digits; on a text it always answers. *)
Theorem us_zip_codes (p c : string) :
  toLowerCase c = "us" ->
  isPostalCodeValid [VStr p; VStr c] <> None
  /\ (isPostalCodeValid [VStr p; VStr c] = Some true
      <-> exists five, String.length five = 5%nat /\ allChars isDigit five = true
            /\ (p = five
                \/ exists four, String.length four = 4%nat
                     /\ allChars isDigit four = true
                     /\ p = five +:+ "-" +:+ four)).
Proof.
  intros Hc. rewrite <- usZip_shape.
  unfold isPostalCodeValid. cbn [arg nth]. rewrite Hc.
  destruct p as [|a p].
  - split; [discriminate|]. split; discriminate.
  - change (truthy (VStr (String a p))) with true. cbn [negb toString].
    split; [discriminate|]. split.
    + intros H. injection H as H. exact H.
    + intros ->. reflexivity.
Qed.

Lemma us_zip_codes_witness :
  toLowerCase "Us" = "us"
  /\ isPostalCodeValid [VStr "12345-6789"; VStr "Us"] <> None
  /\ (isPostalCodeValid [VStr "12345-6789"; VStr "Us"] = Some true
      <-> exists five, String.length five = 5%nat /\ allChars isDigit five = true
            /\ ("12345-6789" = five
                \/ exists four, String.length four = 4%nat
                     /\ allChars isDigit four = true
                     /\ "12345-6789" = five +:+ "-" +:+ four)).
Proof.
  split; [reflexivity|].
  exact (us_zip_codes "12345-6789" "Us" eq_refl).
Defined.

(** ** The schema routes *)

Lemma keepChars_allChars q s : allChars q (keepChars q s) = true.
Proof.
  induction s as [|c s IH]; [reflexivity|].
  simpl. destruct (q c) eqn:Hq; [|exact IH]. simpl. rewrite Hq. exact IH.
Qed.

Lemma schemaIdOf_chars name : allChars isLowerIdChar (schemaIdOf name) = true.
Proof. apply keepChars_allChars. Qed.

Lemma allChars_impl (q1 q2 : ascii -> bool) s :
  (forall c, q1 c = true -> q2 c = true) ->
  allChars q1 s = true -> allChars q2 s = true.
Proof.
  intros Hq. induction s as [|c s IH]; [reflexivity|].
  simpl. intros H. apply andb_true_iff in H as [Hc Hs].
  rewrite (Hq c Hc). exact (IH Hs).
Qed.

Lemma isLowerIdChar_valid c :
  isLowerIdChar c = true -> isLetter c || isDigit c || Ascii.eqb c "-" = true.
Proof.
  destruct c as [b0 b1 b2 b3 b4 b5 b6 b7];
    destruct b0, b1, b2, b3, b4, b5, b6, b7; intros H;
    first [discriminate H | reflexivity].
Qed.

Lemma isLowerIdChar_not_dot c : isLowerIdChar c = true -> c <> "."%char.
Proof. intros H ->. discriminate H. Qed.

Lemma schemaId_valid s :
  s <> "" -> allChars isLowerIdChar s = true -> isValidId s = true.
Proof.
  intros Hne Hs. unfold isValidId. apply andb_true_iff. split.
  - apply negb_true_iff. apply String.eqb_neq. exact Hne.
  - exact (allChars_impl _ _ s isLowerIdChar_valid Hs).
Qed.

Lemma valid_file_is_not_the_bare_extension s :
  isValidId s = true -> s +:+ ".json" <> ".json".
Proof.
  destruct s as [|c s]; [discriminate|]. intros _ H.
  rewrite append_cons in H. injection H as _ H.
  destruct s as [|d s]; [discriminate H|]. rewrite append_cons in H.
  injection H as _ H.
  destruct s as [|e s]; [discriminate H|]. rewrite append_cons in H.
  injection H as _ H.
  destruct s as [|f s]; [discriminate H|]. rewrite append_cons in H.
  injection H as _ H.
  destruct s as [|g s]; [discriminate H|]. rewrite append_cons in H.
  injection H as _ H.
  destruct s; discriminate H.
Qed.

Lemma removeFirst_extension s :
  allChars isLowerIdChar s = true -> removeFirst ".json" (s +:+ ".json") = s.
Proof.
  induction s as [|c s IH]; intros H; [reflexivity|].
  simpl in H. apply andb_true_iff in H as [Hc Hs].
  rewrite append_cons.
  change (removeFirst ".json" (String c (s +:+ ".json")))
    with (if String.prefix ".json" (String c (s +:+ ".json"))
          then dropChars 5 (String c (s +:+ ".json"))
          else String c (removeFirst ".json" (s +:+ ".json"))).
  change (String.prefix ".json" (String c (s +:+ ".json")))
    with (if ascii_dec "." c then String.prefix "json" (s +:+ ".json") else false).
  destruct (ascii_dec "." c) as [E|_].
  - exfalso. exact (isLowerIdChar_not_dot c Hc (eq_sym E)).
  - rewrite (IH Hs). reflexivity.
Qed.

Lemma endsWith_app s t : endsWith (s +:+ t) t = true.
Proof.
  induction s as [|c s IH].
  - rewrite append_nil_l. destruct t; simpl; [reflexivity|].
    rewrite Ascii.eqb_refl, String.eqb_refl. reflexivity.
  - rewrite append_cons.
    change (endsWith (String c (s +:+ t)) t)
      with (if String.eqb (String c (s +:+ t)) t then true
            else endsWith (s +:+ t) t).
    rewrite IH. destruct (String.eqb _ t); reflexivity.
Qed.

(** X27: a schema saved through [POST /api/schemas] gets an id made of
    lower-case letters, digits and dashes only.  When that id is not
    empty, [GET /api/schema] with the id answers the saved schema; when it
    is empty (a name without any letter or digit) the schema is written to
    the file [.json], which no request reads: every [GET /api/schema]
    answers as before the save. *)
Theorem saved_schema_can_be_fetched
    (Content : Type) (stringify : FormSchema -> Content)
    (parse : Content -> option FormSchema)
    (files : gmap string Content) (schema : FormSchema) (filename : option string) :
  (forall s, parse (stringify s) = Some s) ->
  formTitle schema <> "" ->
  exists id files',
    postSchemas Content stringify files (Some schema) filename = (files', Json id)
    /\ id = schemaIdOf (orElse filename (formTitle schema))
    /\ allChars isLowerIdChar id = true
    /\ if String.eqb id ""
       then forall q, getSchema Content parse files' q = getSchema Content parse files q
       else getSchema Content parse files' (Some id) = Json schema.
Proof.
  intros Hround Htitle.
  exists (schemaIdOf (orElse filename (formTitle schema))).
  set (id := schemaIdOf (orElse filename (formTitle schema))).
  exists (<[ id +:+ ".json" := stringify schema ]> files).
  split; [|split; [reflexivity|split; [apply schemaIdOf_chars|]]].
  - unfold postSchemas. apply String.eqb_neq in Htitle. rewrite Htitle. reflexivity.
  - destruct (String.eqb_spec id "") as [E|Hne].
    + intros q. unfold getSchema.
      destruct (isValidId (orElse q "form-270")) eqn:Hv; [|reflexivity].
      cbn [negb]. rewrite E, append_nil_l.
      rewrite lookup_insert_ne; [reflexivity|].
      intros H. exact (valid_file_is_not_the_bare_extension _ Hv (eq_sym H)).
    + unfold getSchema.
      assert (orElse (Some id) "form-270" = id) as ->.
      { unfold orElse. apply String.eqb_neq in Hne. rewrite Hne. reflexivity. }
      rewrite (schemaId_valid id Hne (schemaIdOf_chars _)). cbn [negb].
      rewrite lookup_insert_eq, Hround. reflexivity.
Qed.

Lemma saved_schema_can_be_fetched_witness :
  (forall s : FormSchema, Some s = Some s)
  /\ formTitle shippingSchema <> ""
  /\ exists id files',
       postSchemas FormSchema (fun s => s) ∅ (Some shippingSchema) (Some "My Form 1.pdf")
       = (files', Json id)
       /\ id = schemaIdOf (orElse (Some "My Form 1.pdf") (formTitle shippingSchema))
       /\ allChars isLowerIdChar id = true
       /\ if String.eqb id ""
          then forall q, getSchema FormSchema Some files' q = getSchema FormSchema Some ∅ q
          else getSchema FormSchema Some files' (Some id) = Json shippingSchema.
Proof.
  assert (formTitle shippingSchema <> "") as Htitle by discriminate.
  split; [reflexivity|]. split; [exact Htitle|].
  exact (saved_schema_can_be_fetched FormSchema (fun s => s) Some ∅ shippingSchema
           (Some "My Form 1.pdf") (fun s => eq_refl) Htitle).
Defined.

Example schema_id_of_a_file_name : schemaIdOf "My  Form 1.pdf" = "my-form-1pdf".
Proof. reflexivity. Qed.

Lemma in_names {Content} (files : gmap string Content) file :
  In file (List.filter (fun file => endsWith file ".json")
             (List.map fst (map_to_list files)))
  <-> endsWith file ".json" = true /\ is_Some (files !! file).
Proof.
  rewrite filter_In, in_map_iff. split.
  - intros [([k v] & <- & Hkv) Hend]. split; [exact Hend|].
    apply list_elem_of_In, elem_of_map_to_list in Hkv. exists v. exact Hkv.
  - intros [Hend [v Hv]]. split; [|exact Hend].
    exists (file, v). split; [reflexivity|].
    apply list_elem_of_In, elem_of_map_to_list. exact Hv.
Qed.

(** X28: when the listing [GET /api/schemas] works, it still works after
    a schema was saved through [POST /api/schemas], and it then holds an
    entry with the id that the save answered and the title of the saved
    schema. *)
Theorem saved_schema_is_listed
    (Content : Type) (stringify : FormSchema -> Content)
    (parse : Content -> option FormSchema)
    (files : gmap string Content) (schema : FormSchema) (filename : option string)
    (entries : list SchemaEntry) :
  (forall s, parse (stringify s) = Some s) ->
  formTitle schema <> "" ->
  getSchemas Content parse files = Json entries ->
  exists entries',
    getSchemas Content parse
      (postSchemas Content stringify files (Some schema) filename).1
    = Json entries'
    /\ In (mkSchemaEntry (schemaIdOf (orElse filename (formTitle schema)))
             (formTitle schema)) entries'.
Proof.
  intros Hround Htitle Hold.
  set (id := schemaIdOf (orElse filename (formTitle schema))).
  assert ((postSchemas Content stringify files (Some schema) filename).1
          = <[ id +:+ ".json" := stringify schema ]> files) as ->.
  { unfold postSchemas. apply String.eqb_neq in Htitle. rewrite Htitle. reflexivity. }
  set (file := id +:+ ".json").
  assert (listEntry Content parse (<[ file := stringify schema ]> files) file
          = Some (mkSchemaEntry id (formTitle schema))) as Hnew.
  { unfold listEntry. rewrite lookup_insert_eq, Hround.
    unfold file. rewrite (removeFirst_extension id (schemaIdOf_chars _)).
    apply String.eqb_neq in Htitle. rewrite Htitle. reflexivity. }
  unfold getSchemas in *.
  destruct (mapM (listEntry Content parse files) _) as [old|] eqn:Eold;
    [|discriminate Hold].
  assert (is_Some (mapM (listEntry Content parse (<[ file := stringify schema ]> files))
                     (List.filter (fun file => endsWith file ".json")
                        (List.map fst
                           (map_to_list (<[ file := stringify schema ]> files))))))
    as [entries' Enew].
  { apply mapM_is_Some_2. apply Forall_forall. intros k Hk.
    apply list_elem_of_In, in_names in Hk as [Hend Hsome].
    unfold compose. destruct (decide (k = file)) as [->|Hne].
    - rewrite Hnew. eexists. reflexivity.
    - rewrite lookup_insert_ne in Hsome by (intros E; apply Hne; symmetry; exact E).
      assert (is_Some (mapM (listEntry Content parse files)
                         (List.filter (fun file => endsWith file ".json")
                            (List.map fst (map_to_list files))))) as Hall
        by (rewrite Eold; eexists; reflexivity).
      apply mapM_is_Some_1 in Hall.
      pose proof (proj1 (Forall_forall _ _) Hall k) as Hk. unfold compose in Hk.
      unfold listEntry in *.
      rewrite lookup_insert_ne by (intros E; apply Hne; symmetry; exact E).
      apply Hk. apply list_elem_of_In, in_names. split; assumption. }
  rewrite Enew. exists entries'. split; [reflexivity|].
  apply mapM_Some_1 in Enew.
  assert (file ∈ List.filter (fun file => endsWith file ".json")
                   (List.map fst
                      (map_to_list (<[ file := stringify schema ]> files)))) as Hin.
  { apply list_elem_of_In, in_names. split; [apply endsWith_app|].
    rewrite lookup_insert_eq. eexists. reflexivity. }
  apply list_elem_of_lookup in Hin as [i Hi].
  destruct (Forall2_lookup_l _ _ _ _ _ Enew Hi) as (entry & Hentry & Hf).
  rewrite Hnew in Hf. injection Hf as <-.
  apply list_elem_of_In. apply list_elem_of_lookup. exists i. exact Hentry.
Qed.

Lemma saved_schema_is_listed_witness :
  (forall s : FormSchema, Some s = Some s)
  /\ formTitle shippingSchema <> ""
  /\ getSchemas FormSchema Some ∅ = Json []
  /\ exists entries',
       getSchemas FormSchema Some
         (postSchemas FormSchema (fun s => s) ∅ (Some shippingSchema) None).1
       = Json entries'
       /\ In (mkSchemaEntry (schemaIdOf (orElse None (formTitle shippingSchema)))
                (formTitle shippingSchema)) entries'.
Proof.
  assert (formTitle shippingSchema <> "") as Htitle by discriminate.
  assert (getSchemas FormSchema Some ∅ = Json []) as Hold by (vm_compute; reflexivity).
  split; [reflexivity|]. split; [exact Htitle|]. split; [exact Hold|].
  exact (saved_schema_is_listed FormSchema (fun s => s) Some ∅ shippingSchema None []
           (fun s => eq_refl) Htitle Hold).
Defined.

(** ** Cleared inputs *)

Lemma objSet_In_new {A} (obj : list (string * A)) key (t : A) :
  In (key, t) (objSet obj key t).
Proof.
  induction obj as [|[k0 t0] rest IH]; simpl; [left; reflexivity|].
  destruct (String.eqb_spec k0 key) as [->|Hne]; [left; reflexivity|right; exact IH].
Qed.

Lemma objSet_In_other {A} (obj : list (string * A)) key (t : A) k' (t' : A) :
  k' <> key -> In (k', t') obj -> In (k', t') (objSet obj key t).
Proof.
  intros Hne. induction obj as [|[k0 t0] rest IH]; simpl; [contradiction|].
  destruct (String.eqb_spec k0 key) as [->|Hk]; intros [E|Hin].
  - injection E as E _. congruence.
  - right. exact Hin.
  - left. exact E.
  - right. exact (IH Hin).
Qed.

Lemma schemaObj_In_kept asyncValidators (l : list FormField)
    (obj : list (string * ZodType)) k t :
  ~ In k (List.map name l) -> In (k, t) obj ->
  In (k, t) (fold_left (fun obj field => objSet obj (name field)
                                           (fieldSchema asyncValidators field)) l obj).
Proof.
  revert obj. induction l as [|f l IH]; intros obj Hk Hin; [exact Hin|].
  simpl in *. apply IH; [tauto|]. apply objSet_In_other; [|exact Hin].
  intros E. apply Hk. left. symmetry. exact E.
Qed.

Lemma schemaObj_In asyncValidators (l : list FormField)
    (obj : list (string * ZodType)) f :
  List.NoDup (List.map name l) -> In f l ->
  In (name f, fieldSchema asyncValidators f)
     (fold_left (fun obj field => objSet obj (name field)
                                    (fieldSchema asyncValidators field)) l obj).
Proof.
  revert obj. induction l as [|f0 l IH]; intros obj Hnd Hin; [contradiction|].
  simpl in *. apply NoDup_cons_iff in Hnd as [Hnotin Hnd].
  destruct Hin as [->|Hin].
  - apply schemaObj_In_kept; [exact Hnotin|apply objSet_In_new].
  - apply IH; assumption.
Qed.

Lemma zodSchema_shape_In customValidators asyncValidators schema f :
  List.NoDup (List.map name (getAllFields schema)) -> In f (getAllFields schema) ->
  In (name f, fieldSchema asyncValidators f)
     (shape (zodSchema customValidators asyncValidators schema)).
Proof.
  intros Hnd Hin. unfold zodSchema. cbv zeta.
  destruct (flat_map _ _); simpl; apply schemaObj_In; assumption.
Qed.

(** A [null] aborts the parse of any field. *)
Lemma fieldSchema_null_aborts
    (regexTest : string -> string -> bool)
    (asyncValidators : gmap string AsyncValidator)
    (field : FormField) (p : list PathSeg) :
  status (result (parse regexTest (fieldSchema asyncValidators field) p VNull))
  = Aborted.
Proof.
  unfold fieldSchema, expectedType, optionalOrRequired, stringSchema. cbv zeta.
  destruct (isRequired field);
    by_type; try reflexivity; try congruence;
    try (destruct (rule asyncValidator field) as [av|];
         [destruct (asyncValidators !! av_name av)|]; reflexivity);
    match goal with
    | H : type ?f = _, H' : type ?f = _ |- _ => rewrite H in H'; discriminate H'
    end.
Qed.

Lemma mergeStatus_Aborted_r a : mergeStatus a Aborted = Aborted.
Proof. destruct a; reflexivity. Qed.

Lemma parseShape_aborted regexTest (sh : list (string * ZodType))
    (data : gmap string Value) k t :
  In (k, t) sh ->
  status (result (parse regexTest t [Key k] (get data k))) = Aborted ->
  status (result (parseShape regexTest sh data)) = Aborted.
Proof.
  intros Hin Ha. induction sh as [|[k0 t0] rest IH]; [contradiction|].
  cbn [parseShape]. rewrite !result_bind.
  change (mergeStatus (status (result (parse regexTest t0 [Key k0] (get data k0))))
            (status (result (parseShape regexTest rest data))) = Aborted).
  destruct Hin as [E|Hin].
  - injection E as -> ->. rewrite Ha. reflexivity.
  - rewrite (IH Hin). apply mergeStatus_Aborted_r.
Qed.

(** X29: the number input and the date picker store [null] when the
    user clears them, and a [null] under the name of any field of the
    schema, optional or not, stops the submission: validation aborts, and
    the cross-field validators are not run (nothing happens after the
    fields were parsed). *)
Theorem cleared_input_blocks_submission
    (regexTest : string -> string -> bool)
    (customValidators : gmap string SyncValidator)
    (asyncValidators : gmap string AsyncValidator)
    (schema : FormSchema) (field : FormField) (data : gmap string Value) :
  List.NoDup (List.map name (getAllFields schema)) ->
  In field (getAllFields schema) ->
  get data (name field) = numberInputChange None
  \/ get data (name field) = dateChange None ->
  status (result (parseObject regexTest
                    (zodSchema customValidators asyncValidators schema) data))
  = Aborted
  /\ trace (parseObject regexTest
              (zodSchema customValidators asyncValidators schema) data)
     = trace (parseShape regexTest
                (shape (zodSchema customValidators asyncValidators schema)) data).
Proof.
  intros Hnd Hin Hnull.
  assert (get data (name field) = VNull) as Hv by (destruct Hnull; assumption).
  assert (status (result (parseShape regexTest
                            (shape (zodSchema customValidators asyncValidators schema))
                            data)) = Aborted) as Ha.
  { apply (parseShape_aborted regexTest _ data (name field)
             (fieldSchema asyncValidators field)).
    - apply zodSchema_shape_In; assumption.
    - rewrite Hv. apply fieldSchema_null_aborts. }
  unfold parseObject.
  destruct (parseShape regexTest _ data) as [e [st found]].
  unfold result in Ha. cbn [snd status] in Ha. subst st.
  unfold bind, ret, trace, result.
  destruct (refinement _); cbn [status fst snd]; rewrite app_nil_r;
    split; reflexivity.
Qed.

Lemma cleared_input_blocks_submission_witness :
  List.NoDup (List.map name (getAllFields orderSchema))
  /\ In quantity (getAllFields orderSchema)
  /\ (get {[ "quantity" := VNull ]} (name quantity) = numberInputChange None
      \/ get {[ "quantity" := VNull ]} (name quantity) = dateChange None)
  /\ status (result (parseObject noRegex
                       (zodSchema (customValidators noDate) asyncValidators orderSchema)
                       {[ "quantity" := VNull ]}))
     = Aborted
  /\ trace (parseObject noRegex
              (zodSchema (customValidators noDate) asyncValidators orderSchema)
              {[ "quantity" := VNull ]})
     = trace (parseShape noRegex
                (shape (zodSchema (customValidators noDate) asyncValidators orderSchema))
                {[ "quantity" := VNull ]}).
Proof.
  assert (List.NoDup (List.map name (getAllFields orderSchema))) as Hnd.
  { repeat (apply NoDup_cons_iff; split; [vm_compute; intuition discriminate|]).
    apply List.NoDup_nil. }
  assert (In quantity (getAllFields orderSchema)) as Hin by (left; reflexivity).
  assert (get {[ "quantity" := VNull ]} (name quantity) = numberInputChange None
          \/ get {[ "quantity" := VNull ]} (name quantity) = dateChange None) as Hnull
    by (left; vm_compute; reflexivity).
  split; [exact Hnd|]. split; [exact Hin|]. split; [exact Hnull|].
  exact (cleared_input_blocks_submission noRegex (customValidators noDate)
           asyncValidators orderSchema quantity {[ "quantity" := VNull ]}
           Hnd Hin Hnull).
Defined.

(** The untouched optional field lets the same form through to the
    cross-field validator. *)
Example untouched_number_field_passes :
  parseObject noRegex (zodSchema (customValidators noDate) asyncValidators orderSchema) ∅
  = ([CustomValidatorCalled "passwordsMatch" ∅ ["password"; "confirmPassword"]],
     mkParsed Valid []).
Proof. evaluate. Qed.

(** ** The multiple selection *)

Lemma includes_option (value : list string) option :
  existsb (fun item => String.eqb item option) value = true <-> In option value.
Proof.
  rewrite existsb_exists. split.
  - intros (item & Hin & E). apply String.eqb_eq in E. subst item. exact Hin.
  - intros Hin. exists option. split; [exact Hin|apply String.eqb_refl].
Qed.

Lemma handleRemove_In value option x :
  In x (handleRemove value option) <-> In x value /\ x <> option.
Proof.
  unfold handleRemove. rewrite filter_In, negb_true_iff, String.eqb_neq. reflexivity.
Qed.

Lemma handleRemove_absent value option :
  ~ In option value -> handleRemove value option = value.
Proof.
  intros Hn. unfold handleRemove. induction value as [|item value IH]; [reflexivity|].
  simpl in *. destruct (String.eqb_spec item option) as [E|_]; [tauto|].
  simpl. f_equal. apply IH. tauto.
Qed.

(** X30: [handleSelect] toggles one option and leaves the others alone:
    after it the option is selected exactly when it was not before, and
    every other option is selected exactly when it was before.  Toggling
    twice gives the selection back when the option was not in it;
    otherwise the option moves to the end. *)
Theorem select_toggles_one_option (value : list string) (option x : string) :
  (In x (handleSelect value option)
   <-> if String.eqb x option then ~ In option value else In x value)
  /\ handleSelect (handleSelect value option) option
     = if existsb (fun item => String.eqb item option) value
       then (handleRemove value option ++ [option])%list
       else value.
Proof.
  unfold handleSelect.
  fold (handleRemove value option).
  destruct (existsb (fun item => String.eqb item option) value) eqn:E.
  - apply includes_option in E. split.
    + rewrite handleRemove_In.
      destruct (String.eqb_spec x option) as [->|Hne]; tauto.
    + assert (existsb (fun item => String.eqb item option) (handleRemove value option)
              = false) as ->; [|reflexivity].
      apply not_true_is_false. intros H. apply includes_option in H.
      apply handleRemove_In in H. tauto.
  - assert (~ In option value) as Hn.
    { intros H. apply includes_option in H. congruence. }
    split.
    + rewrite in_app_iff. simpl.
      destruct (String.eqb_spec x option) as [->|Hne]; [tauto|].
      split; [intros [H|[H|[]]]; [exact H|congruence]|tauto].
    + rewrite existsb_app. simpl. rewrite String.eqb_refl, orb_true_r.
      rewrite List.filter_app. simpl. rewrite String.eqb_refl. simpl.
      rewrite app_nil_r. exact (handleRemove_absent value option Hn).
Qed.
